(** * CPU resource advisor of the QoS-aware sysadvisor plugin

    A shallow embedding of
    [pkg/agent/sysadvisor/plugin/qosaware/resource/cpu/advisor.go]:
    the update cycle of [cpuResourceAdvisor] (region assignment, per-region
    provisioning, region-entry publication, plan assembly, headroom) and the
    public getter [GetHeadroom].

    Conventions of the embedding.
    - Go [int] and [int64] are 64-bit two's complement numbers: they are
      carried as [Z] and every arithmetic operation of the source is followed
      by [wrap64].
    - [math.Ceil(float64(a) / float64(n))] is the exact ceiling of the
      quotient, [ceil_div]; the float64 result agrees with it as long as
      [|a| < 2^53] and [0 < n].
    - A [resource.Quantity] holding a CPU count is an integer of unbounded
      size ([Quantity.Add] falls back to big decimals on overflow).
    - A Go [map] is a [gmap]; a [range] loop over it visits the bindings in
      the order of [map_to_list].
    - The advisor's effects on its collaborators (log lines, region entries
      handed to the MetaCache, plans written to the send channel, policy
      episodes started on a region) are recorded, in order, in a trace. *)

From Stdlib Require Import ZArith QArith Lia.
From stdpp Require Import gmap strings list fin_maps pretty sorting.

Open Scope Z_scope.

(** ** Machine arithmetic *)

Module GoInt.

Definition wrap64 (z : Z) : Z := (z + 2 ^ 63) `mod` 2 ^ 64 - 2 ^ 63.

Definition add (a b : Z) : Z := wrap64 (a + b).
Definition sub (a b : Z) : Z := wrap64 (a - b).
Definition mul (a b : Z) : Z := wrap64 (a * b).

(** [len(m)] of a Go container. *)
Definition len (n : nat) : Z := Z.of_nat n.

(** [math.Ceil(float64(a) / float64(n))]. For [n = 0] Go produces an
    infinity or a NaN whose conversion to an integer is platform specific;
    the model yields [0] there. *)
Definition ceil_div (a n : Z) : Z := - ((- a) / n).

(** The integral part of a rational, rounding toward zero. *)
Definition trunc (q : Q) : Z := Z.quot (Qnum q) (Z.pos (Qden q)).

(** [int(f)] for a float64 [f]: truncation toward zero. *)
Definition of_float64 (q : Q) : Z := wrap64 (trunc q).

Definition in_range (z : Z) : Prop := - 2 ^ 63 <= z < 2 ^ 63.

End GoInt.

(** ** Errors *)

(** A Go [error] carries its message. *)
Definition error := string.

Inductive result (A : Type) : Type :=
| Ok (a : A)
| Err (e : error).
Arguments Ok {A} a.
Arguments Err {A} e.

(** [errors.NewAggregate]: [nil] for an empty list, one error otherwise. *)
Definition NewAggregate (errList : list error) : option (list error) :=
  match errList with
  | [] => None
  | _ => Some errList
  end.

(** ** Data model (packages [types], [state], [machine]) *)

(** [machine.CPUSet]: a set of CPU or NUMA ids. *)
Abbreviation CPUSet := (gset Z).

Definition Size (s : CPUSet) : Z := GoInt.len (size s).

(** [CPUSet.ToSliceInt]: the elements in increasing order. *)
Definition ToSliceInt (s : CPUSet) : list Z := merge_sort Z.le (elements s).

Inductive QoSRegionType : Type :=
| QoSRegionTypeShare
| QoSRegionTypeDedicatedNumaExclusive.

Global Instance QoSRegionType_eq_dec : EqDecision QoSRegionType.
Proof. solve_decision. Defined.

Definition QoSRegionType_string (t : QoSRegionType) : string :=
  match t with
  | QoSRegionTypeShare => "share"
  | QoSRegionTypeDedicatedNumaExclusive => "dedicated_numa_exclusive"
  end.

Inductive QoSLevel : Type :=
| PodAnnotationQoSLevelSharedCores
| PodAnnotationQoSLevelDedicatedCores
| PodAnnotationQoSLevelReclaimedCores
| PodAnnotationQoSLevelSystemCores.

Global Instance QoSLevel_eq_dec : EqDecision QoSLevel.
Proof. solve_decision. Defined.

Definition PoolNameReserve : string := "reserve".
Definition PoolNameShare : string := "share".
Definition PoolNameReclaim : string := "reclaim".
(** The name of the pool of dedicated containers, which the MetaCache does
    not hold. *)
Definition PoolNameDedicated : string := "dedicated".

(** [cpuadvisor.FakedNumaID]: no NUMA preference. *)
Definition FakedNumaID : Z := -1.

Definition ControlKnobNonReclaimedCPUSetSize : string := "non_reclaimed_cpuset_size".
Definition ControlKnobReclaimedCPUSupplied : string := "reclaimed_cpu_supplied".

Record ControlKnobValue : Type := mkControlKnobValue {
  Value : Q;
  Action : string
}.

(** The zero value a Go map lookup yields for a missing key. *)
Definition ControlKnobValue_zero : ControlKnobValue :=
  {| Value := 0%Q; Action := "" |}.

Abbreviation ControlKnob := (gmap string ControlKnobValue).

Definition knob (ck : ControlKnob) (k : string) : ControlKnobValue :=
  default ControlKnobValue_zero (ck !! k).

Record ResourceEssentials : Type := mkResourceEssentials {
  Total : Z;
  ReservePoolSize : Z;
  ReservedForAllocate : Z;
  EnableReclaim : bool
}.

Definition ResourceEssentials_zero : ResourceEssentials :=
  {| Total := 0; ReservePoolSize := 0; ReservedForAllocate := 0;
     EnableReclaim := false |}.

Record ContainerInfo : Type := mkContainerInfo {
  PodUID : string;
  ContainerName : string;
  ciQoSLevel : QoSLevel;
  ciOwnerPoolName : string;
  ciTopologyAwareAssignments : gmap Z CPUSet;
  (** what [ci.IsNumaBinding()] answers *)
  ciNumaBinding : bool;
  ciRegionNames : gset string
}.

Record PoolInfo : Type := mkPoolInfo {
  PoolName : string;
  TopologyAwareAssignments : gmap Z CPUSet;
  RegionNames : gset string
}.

Record RegionInfo : Type := mkRegionInfo {
  RegionType : QoSRegionType;
  BindingNumas : CPUSet;
  ControlKnobMap : ControlKnob;
  HeadroomPolicyTopPriority : string;
  HeadroomPolicyInUse : string;
  ProvisionPolicyTopPriority : string;
  ProvisionPolicyInUse : string;
  Headroom : Z
}.

Abbreviation RegionEntries := (gmap string RegionInfo).

(** [InternalCalculationResult.PoolEntries]: pool name, NUMA id, cores. *)
Record InternalCalculationResult : Type := mkInternalCalculationResult {
  PoolEntries : gmap string (gmap Z Z)
}.

Record MetaServer : Type := mkMetaServer {
  NumCPUs : Z;
  NumNUMANodes : Z;
  CPUsPerNuma : Z;
  NUMANodes : CPUSet
}.

(** The fields of [config.Configuration] the advisor reads:
    [ReclaimedResourceConfiguration.EnableReclaim()] and the CPU entry of
    [ReservedResourceForAllocate()]. *)
Record Configuration : Type := mkConfiguration {
  confEnableReclaim : bool;
  confReservedForAllocateCPU : Z
}.

(** ** MetaCache *)

(** Modelled from the spec: package [metacache] lies outside the advisor. The
    cache is the source of truth for pool info, container info and
    region entries; the advisor consumes [get_pool_info], [set_pool_info],
    [get_pool_size], [range_and_update_container] and
    [update_region_entries]. *)
Record MetaCache : Type := mkMetaCache {
  poolEntries : gmap string PoolInfo;
  containers : list ContainerInfo;
  regionEntries : RegionEntries;
  persistErr : gmap string PoolInfo → option error
}.

(** The cache stores no [nil] pool: a pool that is found is a pool. *)
Definition GetPoolInfo (mc : MetaCache) (poolName : string) : option PoolInfo :=
  poolEntries mc !! poolName.

(** [set_pool_info] returns an error. How the cache persists its state lies
    outside the advisor: [persistErr mc entries] is the error, if any, that
    persisting the pool entries [entries] gives. The pool is the one
    [get_pool_info] handed out, which the caller has changed in place by
    then: the entry is written whether or not persisting succeeds. *)
Definition SetPoolInfo (mc : MetaCache) (poolName : string) (p : PoolInfo)
    : MetaCache * option error :=
  let entries := <[poolName := p]> (poolEntries mc) in
  ({| poolEntries := entries;
      containers := containers mc;
      regionEntries := regionEntries mc;
      persistErr := persistErr mc |},
   persistErr mc entries).

(** Modelled from the spec: the total size of a pool is the number of CPUs of
    its per-NUMA assignment. *)
Definition CountCPUAssignmentCPUs (a : gmap Z CPUSet) : Z :=
  map_fold (λ _ cpus acc, Size cpus + acc) 0 a.

Definition GetPoolSize (mc : MetaCache) (poolName : string) : option Z :=
  (λ p, CountCPUAssignmentCPUs (TopologyAwareAssignments p)) <$> GetPoolInfo mc poolName.

Definition UpdateRegionEntries (mc : MetaCache) (entries : RegionEntries) : MetaCache :=
  {| poolEntries := poolEntries mc;
     containers := containers mc;
     regionEntries := entries;
     persistErr := persistErr mc |}.

Definition setContainers (mc : MetaCache) (cs : list ContainerInfo) : MetaCache :=
  {| poolEntries := poolEntries mc;
     containers := cs;
     regionEntries := regionEntries mc;
     persistErr := persistErr mc |}.

(** Modelled from the spec: [range_and_update_container] hands every container
    of the cache to the callback, which may update the container in place and
    threads its own state [S]; the callback's boolean says whether the
    iteration goes on. *)
Fixpoint rangeContainers {S : Type}
    (f : ContainerInfo → S → ContainerInfo * S * bool)
    (cs : list ContainerInfo) (s : S) : list ContainerInfo * S :=
  match cs with
  | [] => ([], s)
  | ci :: rest =>
      let '(ci', s', continue) := f ci s in
      if continue
      then let '(rest', s'') := rangeContainers f rest s' in (ci' :: rest', s'')
      else (ci' :: rest, s')
  end.

(** ** QoS regions (package [region]) *)

(** What a policy may consult when it runs an episode: the region it serves
    and the advisor's readers. *)
Record PolicyEnv : Type := mkPolicyEnv {
  envRegionType : QoSRegionType;
  envPodSet : gset (string * string);
  envBindingNumas : CPUSet;
  envEssentials : ResourceEssentials;
  envMetaCache : MetaCache;
  envMetaServer : MetaServer
}.

(** Modelled from the spec: the provision and headroom policies of a region
    are a capability set [{update -> knob map | error, get_headroom ->
    quantity | error, name, top priority}] over a policy state [P]; the
    policy implementations are outside the advisor core. *)
Class RegionPolicy (P : Type) : Type := {
  policyNew : QoSRegionType → P;
  policyUpdateProvision : PolicyEnv → P → P;
  policyGetProvision : P → result ControlKnob;
  policyUpdateHeadroom : PolicyEnv → P → P;
  policyGetHeadroom : P → result Z;
  (** top priority policy and policy in use *)
  policyProvisionNames : P → string * string;
  policyHeadroomNames : P → string * string
}.

(** Modelled from the spec: a QoS region is a provisioning unit with a unique
    name, a type, an owner pool, a set of bound containers, a binding NUMA
    set, the essentials of the current cycle and its policies (interface
    [region.QoSRegion], implemented outside the advisor). *)
Record QoSRegion (P : Type) : Type := mkQoSRegion {
  rName : string;
  rType : QoSRegionType;
  rOwnerPoolName : string;
  rPodSet : gset (string * string);
  rBindingNumas : CPUSet;
  rEssentials : ResourceEssentials;
  rPolicy : P
}.
Arguments mkQoSRegion {P}.
Arguments rName {P}.
Arguments rType {P}.
Arguments rOwnerPoolName {P}.
Arguments rPodSet {P}.
Arguments rBindingNumas {P}.
Arguments rEssentials {P}.
Arguments rPolicy {P}.

Section Region.
Context {P : Type} `{RegionPolicy P}.

Definition NewQoSRegionShare (name ownerPoolName : string) : QoSRegion P :=
  mkQoSRegion name QoSRegionTypeShare ownerPoolName ∅ ∅
    ResourceEssentials_zero (policyNew QoSRegionTypeShare).

Definition NewQoSRegionDedicatedNumaExclusive
    (name ownerPoolName : string) (numaID : Z) : QoSRegion P :=
  mkQoSRegion name QoSRegionTypeDedicatedNumaExclusive ownerPoolName ∅ {[ numaID ]}
    ResourceEssentials_zero (policyNew QoSRegionTypeDedicatedNumaExclusive).

Definition Clear (r : QoSRegion P) : QoSRegion P :=
  mkQoSRegion (rName r) (rType r) (rOwnerPoolName r) ∅ (rBindingNumas r)
    (rEssentials r) (rPolicy r).

Definition IsEmpty (r : QoSRegion P) : bool :=
  bool_decide (size (rPodSet r) ≤ 0)%nat.

(** Adding a container that exists does not fail. *)
Definition AddContainer (r : QoSRegion P) (ci : ContainerInfo) : result (QoSRegion P) :=
  Ok (mkQoSRegion (rName r) (rType r) (rOwnerPoolName r)
        ({[ (PodUID ci, ContainerName ci) ]} ∪ rPodSet r) (rBindingNumas r)
        (rEssentials r) (rPolicy r)).

Definition GetBindingNumas (r : QoSRegion P) : CPUSet := rBindingNumas r.

Definition SetBindingNumas (r : QoSRegion P) (numas : CPUSet) : QoSRegion P :=
  mkQoSRegion (rName r) (rType r) (rOwnerPoolName r) (rPodSet r) numas
    (rEssentials r) (rPolicy r).

Definition SetEssentials (r : QoSRegion P) (e : ResourceEssentials) : QoSRegion P :=
  mkQoSRegion (rName r) (rType r) (rOwnerPoolName r) (rPodSet r) (rBindingNumas r)
    e (rPolicy r).

Definition policyEnv (mc : MetaCache) (ms : MetaServer) (r : QoSRegion P) : PolicyEnv :=
  mkPolicyEnv (rType r) (rPodSet r) (rBindingNumas r) (rEssentials r) mc ms.

Definition setPolicy (r : QoSRegion P) (p : P) : QoSRegion P :=
  mkQoSRegion (rName r) (rType r) (rOwnerPoolName r) (rPodSet r) (rBindingNumas r)
    (rEssentials r) p.

Definition TryUpdateProvision (mc : MetaCache) (ms : MetaServer) (r : QoSRegion P) : QoSRegion P :=
  setPolicy r (policyUpdateProvision (policyEnv mc ms r) (rPolicy r)).

Definition TryUpdateHeadroom (mc : MetaCache) (ms : MetaServer) (r : QoSRegion P) : QoSRegion P :=
  setPolicy r (policyUpdateHeadroom (policyEnv mc ms r) (rPolicy r)).

Definition GetProvision (r : QoSRegion P) : result ControlKnob :=
  policyGetProvision (rPolicy r).

Definition regionGetHeadroom (r : QoSRegion P) : result Z :=
  policyGetHeadroom (rPolicy r).

Definition GetProvisionPolicy (r : QoSRegion P) : string * string :=
  policyProvisionNames (rPolicy r).

Definition GetHeadRoomPolicy (r : QoSRegion P) : string * string :=
  policyHeadroomNames (rPolicy r).

End Region.

(** ** The advisor ([advisor.go]) *)

(** [30 * time.Second], in nanoseconds. *)
Definition startUpPeriod : Z := 30 * 1000000000.

Definition regionNameSeparator : string := "-".

Inductive LogLevel : Type := LInfo | LWarning | LError.

(** The advisor's observable actions. *)
Inductive Event : Type :=
| EvLog (lvl : LogLevel) (msg : string) (args : list string)
| EvTryUpdateProvision (regionName : string)
| EvUpdateRegionEntries (entries : RegionEntries)
| EvSend (provision : InternalCalculationResult)
| EvTryUpdateHeadroom (regionName : string)
| EvPanic (msg : string).

(** What a call that may also hit a Go run-time panic produces. *)
Inductive outcome (A : Type) : Type :=
| Done (a : A)
| Failed (e : error)
| Panicked (msg : string).
Arguments Done {A} a.
Arguments Failed {A} e.
Arguments Panicked {A} msg.

Record cpuResourceAdvisor (P : Type) : Type := mkAdvisor {
  conf : Configuration;
  (** [time.Time] values are nanoseconds on a common clock *)
  startTime : Z;
  systemNumas : CPUSet;
  regionMap : gmap string (QoSRegion P);
  nonBindingNumas : CPUSet;
  metaCache : MetaCache;
  metaServer : MetaServer;
  (** everything the advisor did so far, oldest first *)
  trace : list Event;
  (** how many identifiers [uuid.NewUUID] has handed out *)
  uuidCount : nat
}.
Arguments mkAdvisor {P}.
Arguments conf {P}.
Arguments startTime {P}.
Arguments systemNumas {P}.
Arguments regionMap {P}.
Arguments nonBindingNumas {P}.
Arguments metaCache {P}.
Arguments metaServer {P}.
Arguments trace {P}.
Arguments uuidCount {P}.

Section Advisor.
Context {P : Type} `{RegionPolicy P}.

Implicit Types (cra : cpuResourceAdvisor P) (r : QoSRegion P) (ci : ContainerInfo).

Definition setRegionMap cra (rm : gmap string (QoSRegion P)) : cpuResourceAdvisor P :=
  mkAdvisor (conf cra) (startTime cra) (systemNumas cra) rm (nonBindingNumas cra)
    (metaCache cra) (metaServer cra) (trace cra) (uuidCount cra).

Definition setNonBindingNumas cra (numas : CPUSet) : cpuResourceAdvisor P :=
  mkAdvisor (conf cra) (startTime cra) (systemNumas cra) (regionMap cra) numas
    (metaCache cra) (metaServer cra) (trace cra) (uuidCount cra).

Definition setMetaCache cra (mc : MetaCache) : cpuResourceAdvisor P :=
  mkAdvisor (conf cra) (startTime cra) (systemNumas cra) (regionMap cra)
    (nonBindingNumas cra) mc (metaServer cra) (trace cra) (uuidCount cra).

Definition emit cra (evs : list Event) : cpuResourceAdvisor P :=
  mkAdvisor (conf cra) (startTime cra) (systemNumas cra) (regionMap cra)
    (nonBindingNumas cra) (metaCache cra) (metaServer cra) (trace cra ++ evs)
    (uuidCount cra).

(** [uuid.NewUUID()]: the identifier is the decimal rendering of the number
    of identifiers drawn before it, so no two draws coincide. *)
Definition NewUUID cra : string * cpuResourceAdvisor P :=
  (pretty (uuidCount cra),
   mkAdvisor (conf cra) (startTime cra) (systemNumas cra) (regionMap cra)
     (nonBindingNumas cra) (metaCache cra) (metaServer cra) (trace cra)
     (S (uuidCount cra))).

Definition NewCPUResourceAdvisor (c : Configuration) (now : Z)
    (mc : MetaCache) (ms : MetaServer) : cpuResourceAdvisor P :=
  mkAdvisor c now (NUMANodes ms) ∅ ∅ mc ms [] 0.

(** *** Region look-up *)

(** The loop shared by [getContainerRegions] and [getPoolRegions]. *)
Fixpoint findRegions (rm : gmap string (QoSRegion P)) (names : list string)
    : result (list (QoSRegion P)) :=
  match names with
  | [] => Ok []
  | regionName :: rest =>
      match rm !! regionName with
      | None => Err ("failed to find region " +:+ regionName)
      | Some r =>
          match findRegions rm rest with
          | Ok regions => Ok (r :: regions)
          | Err e => Err e
          end
      end
  end.

Definition getContainerRegions cra ci : result (list (QoSRegion P)) :=
  findRegions (regionMap cra) (elements (ciRegionNames ci)).

Definition setContainerRegions ci (regions : list (QoSRegion P)) : ContainerInfo :=
  mkContainerInfo (PodUID ci) (ContainerName ci) (ciQoSLevel ci) (ciOwnerPoolName ci)
    (ciTopologyAwareAssignments ci) (ciNumaBinding ci)
    (list_to_set (rName <$> regions)).

Definition getPoolRegions cra (poolName : string) : result (list (QoSRegion P)) :=
  match GetPoolInfo (metaCache cra) poolName with
  | None => Ok []
  | Some pool => findRegions (regionMap cra) (elements (RegionNames pool))
  end.

Definition setPoolRegions cra (poolName : string) (regions : list (QoSRegion P))
    : cpuResourceAdvisor P * option error :=
  match GetPoolInfo (metaCache cra) poolName with
  | None => (cra, Some ("failed to find pool " +:+ poolName))
  | Some pool =>
      let pool' := mkPoolInfo (PoolName pool) (TopologyAwareAssignments pool)
                     (list_to_set (rName <$> regions)) in
      let '(mc, err) := SetPoolInfo (metaCache cra) poolName pool' in
      (setMetaCache cra mc, err)
  end.

(** *** Region assignment *)

(** The loop of [assignToRegions] that creates one region per NUMA node. *)
Fixpoint newDedicatedRegions cra (ownerPoolName : string) (numaIDs : list Z)
    (regions : list (QoSRegion P)) : list (QoSRegion P) * cpuResourceAdvisor P :=
  match numaIDs with
  | [] => (regions, cra)
  | numaID :: rest =>
      let '(uuid, cra') := NewUUID cra in
      let name := QoSRegionType_string QoSRegionTypeDedicatedNumaExclusive
                  +:+ regionNameSeparator +:+ uuid in
      let r := NewQoSRegionDedicatedNumaExclusive name ownerPoolName numaID in
      newDedicatedRegions cra' ownerPoolName rest (regions ++ [r])
  end.

(** A [nil] slice of regions is the empty list. *)
Definition assignToRegions cra ci
    : list (QoSRegion P) * option error * cpuResourceAdvisor P :=
  if decide (ciQoSLevel ci = PodAnnotationQoSLevelSharedCores) then
    match getPoolRegions cra (ciOwnerPoolName ci) with
    | Err e => ([], Some e, cra)
    | Ok regions =>
        if bool_decide (0 < length regions)%nat then (regions, None, cra)
        else
          let '(uuid, cra') := NewUUID cra in
          let name := QoSRegionType_string QoSRegionTypeShare
                      +:+ regionNameSeparator +:+ uuid in
          ([NewQoSRegionShare name (ciOwnerPoolName ci)], None, cra')
    end
  else if ciNumaBinding ci then
    match getContainerRegions cra ci with
    | Err e => ([], Some e, cra)
    | Ok regions =>
        if bool_decide (0 < length regions)%nat then (regions, None, cra)
        else
          let '(regions', cra') :=
            newDedicatedRegions cra (ciOwnerPoolName ci)
              ((map_to_list (ciTopologyAwareAssignments ci)).*1) regions in
          (regions', None, cra')
    end
  else ([], None, cra).

(** The loop of the closure that adds the container to each of its regions
    and (re-)enters the region in the region map. *)
Fixpoint addToRegions ci (regions : list (QoSRegion P)) cra
    : cpuResourceAdvisor P * option error :=
  match regions with
  | [] => (cra, None)
  | r :: rest =>
      match AddContainer r ci with
      | Err e => (cra, Some e)
      | Ok r' => addToRegions ci rest (setRegionMap cra (<[rName r' := r']> (regionMap cra)))
      end
  end.

Definition appendErr (errList : list error) (err : option error) : list error :=
  match err with
  | Some e => errList ++ [e]
  | None => errList
  end.

(** The closure [f] of [assignContainersToRegions]; it runs on one container
    and threads the advisor and [errList]. *)
Definition syncContainer ci (st : cpuResourceAdvisor P * list error)
    : ContainerInfo * (cpuResourceAdvisor P * list error) * bool :=
  let '(cra, errList) := st in
  let '(regions, err, cra1) := assignToRegions cra ci in
  let errList1 := appendErr errList err in
  match regions with
  | [] => (ci, (cra1, errList1), true)
  | _ =>
      match addToRegions ci regions cra1 with
      | (cra2, Some e) => (ci, (cra2, errList1 ++ [e]), true)
      | (cra2, None) =>
          let ci' := setContainerRegions ci regions in
          if decide (ciOwnerPoolName ci' = PoolNameDedicated)
          then (ci', (cra2, errList1), true)
          else
            match setPoolRegions cra2 (ciOwnerPoolName ci') regions with
            | (cra3, Some e) => (ci', (cra3, errList1 ++ [e]), true)
            | (cra3, None) => (ci', (cra3, errList1), true)
            end
      end
  end.

Definition gc cra : cpuResourceAdvisor P :=
  let deleted := (filter (λ kr, IsEmpty kr.2 = true) (map_to_list (regionMap cra))).*1 in
  emit (setRegionMap cra (filter (λ kr, IsEmpty kr.2 = false) (regionMap cra)))
       ((λ regionName, EvLog LInfo "delete region" [regionName]) <$> deleted).

Definition updateNonBindingNumas cra : cpuResourceAdvisor P :=
  let nonBinding :=
    map_fold (λ _ r acc,
                if decide (rType r = QoSRegionTypeDedicatedNumaExclusive)
                then acc ∖ GetBindingNumas r else acc)
             (systemNumas cra) (regionMap cra) in
  let rm := (λ r, if decide (rType r = QoSRegionTypeShare)
                  then SetBindingNumas r nonBinding else r) <$> regionMap cra in
  setRegionMap (setNonBindingNumas cra nonBinding) rm.

Definition assignContainersToRegions cra
    : cpuResourceAdvisor P * option (list error) :=
  let cra1 := setRegionMap cra (Clear <$> regionMap cra) in
  let '(cs, (cra2, errList)) :=
    rangeContainers syncContainer (containers (metaCache cra1)) (cra1, []) in
  let cra3 := setMetaCache cra2 (setContainers (metaCache cra2) cs) in
  let cra4 := gc cra3 in
  let cra5 := updateNonBindingNumas cra4 in
  (cra5, NewAggregate errList).

(** *** Region entries and provision plan *)

Definition regionInfoOf r (controlKnobMap : ControlKnob) : RegionInfo :=
  {| RegionType := rType r;
     BindingNumas := GetBindingNumas r;
     ControlKnobMap := controlKnobMap;
     HeadroomPolicyTopPriority := (GetHeadRoomPolicy r).1;
     HeadroomPolicyInUse := (GetHeadRoomPolicy r).2;
     ProvisionPolicyTopPriority := (GetProvisionPolicy r).1;
     ProvisionPolicyInUse := (GetProvisionPolicy r).2;
     Headroom := 0 |}.

(** The loop of [assembleRegionEntries]. *)
Fixpoint regionEntriesLoop (l : list (string * QoSRegion P)) (entries : RegionEntries)
    : result RegionEntries :=
  match l with
  | [] => Ok entries
  | (regionName, r) :: rest =>
      match GetProvision r with
      | Err e => Err e
      | Ok controlKnobMap =>
          regionEntriesLoop rest (<[regionName := regionInfoOf r controlKnobMap]> entries)
      end
  end.

Definition assembleRegionEntries cra : result RegionEntries :=
  regionEntriesLoop (map_to_list (regionMap cra)) ∅.

(** The loop of [assembleProvision] over the region map; it carries the pool
    entries, [nonNumaBindingRequirement] and the lines logged so far. *)
Fixpoint provisionLoop (l : list (string * QoSRegion P))
    (entries : gmap string (gmap Z Z)) (nonNumaBindingRequirement : Z)
    (logs : list Event) : outcome (gmap string (gmap Z Z) * Z) * list Event :=
  match l with
  | [] => (Done (entries, nonNumaBindingRequirement), logs)
  | (_, r) :: rest =>
      match GetProvision r with
      | Err e => (Failed ("get provision with error: " +:+ e), logs)
      | Ok controlKnob =>
          match rType r with
          | QoSRegionTypeShare =>
              let sharePoolSize :=
                GoInt.of_float64 (Value (knob controlKnob ControlKnobNonReclaimedCPUSetSize)) in
              provisionLoop rest
                (<[PoolNameShare := {[ FakedNumaID := sharePoolSize ]}]> entries)
                (GoInt.add nonNumaBindingRequirement sharePoolSize) logs
          | QoSRegionTypeDedicatedNumaExclusive =>
              let regionNumas := ToSliceInt (GetBindingNumas r) in
              let logs' :=
                if decide (length regionNumas = 1%nat) then logs
                else logs ++ [EvLog LError "region has invalid numa count" [rName r]] in
              let reclaimPoolSize := Value (knob controlKnob ControlKnobReclaimedCPUSupplied) in
              match regionNumas with
              | [] => (Panicked "index out of range", logs')
              | regionNuma :: _ =>
                  let reclaim := default ∅ (entries !! PoolNameReclaim) in
                  provisionLoop rest
                    (<[PoolNameReclaim :=
                         <[regionNuma := GoInt.of_float64 reclaimPoolSize]> reclaim]> entries)
                    nonNumaBindingRequirement logs'
              end
          end
      end
  end.

(** [reservePoolSizeOfNonBindingNumas], computed alike by [assembleProvision]
    and [GetHeadroom]. *)
Definition reserveOfNonBindingNumas cra (reservePoolSize : Z) : Z :=
  GoInt.wrap64
    (GoInt.ceil_div (GoInt.mul reservePoolSize (Size (nonBindingNumas cra)))
                    (NumNUMANodes (metaServer cra))).

Definition assembleProvision cra : outcome InternalCalculationResult * list Event :=
  let reservePoolSize := default 0 (GetPoolSize (metaCache cra) PoolNameReserve) in
  let entries0 : gmap string (gmap Z Z) :=
    {[ PoolNameReserve := {[ FakedNumaID := reservePoolSize ]} ]} in
  match provisionLoop (map_to_list (regionMap cra)) entries0 0 [] with
  | (Done (entries, nonNumaBindingRequirement), logs) =>
      let reservePoolSizeOfNonBindingNumas := reserveOfNonBindingNumas cra reservePoolSize in
      let reclaimPoolSizeOfNonBindingNumas :=
        GoInt.sub
          (GoInt.sub (GoInt.mul (Size (nonBindingNumas cra)) (CPUsPerNuma (metaServer cra)))
                     nonNumaBindingRequirement)
          reservePoolSizeOfNonBindingNumas in
      let reclaim := default ∅ (entries !! PoolNameReclaim) in
      (Done {| PoolEntries :=
                 <[PoolNameReclaim :=
                     <[FakedNumaID := reclaimPoolSizeOfNonBindingNumas]> reclaim]> entries |},
       logs)
  | (Failed e, logs) => (Failed e, logs)
  | (Panicked msg, logs) => (Panicked msg, logs)
  end.

(** *** Headroom *)

(** The loop of [GetHeadroom] over the region map. *)
Fixpoint headroomLoop (l : list (string * QoSRegion P)) (hasShareRegion : bool)
    (totalHeadroom : Z) : result (bool * Z) :=
  match l with
  | [] => Ok (hasShareRegion, totalHeadroom)
  | (_, r) :: rest =>
      match regionGetHeadroom r with
      | Err e => Err e
      | Ok headroom =>
          headroomLoop rest
            (if decide (rType r = QoSRegionTypeShare) then true else hasShareRegion)
            (totalHeadroom + headroom)
      end
  end.

Definition GetHeadroom cra : result Z :=
  match GetPoolSize (metaCache cra) PoolNameReserve with
  | None => Err "reserve pool not exist"
  | Some reservePoolSize =>
      if bool_decide (size (regionMap cra) ≤ 0)%nat
      then Ok (GoInt.sub (NumCPUs (metaServer cra)) reservePoolSize)
      else
        match headroomLoop (map_to_list (regionMap cra)) false 0 with
        | Err e => Err e
        | Ok (hasShareRegion, totalHeadroom) =>
            if negb hasShareRegion then
              let reservePoolSizeOfNonBindingNumas :=
                reserveOfNonBindingNumas cra reservePoolSize in
              let headroomOfNonBindingNumas :=
                GoInt.sub (GoInt.mul (Size (nonBindingNumas cra))
                                     (CPUsPerNuma (metaServer cra)))
                          reservePoolSizeOfNonBindingNumas in
              Ok (totalHeadroom + headroomOfNonBindingNumas)
            else Ok totalHeadroom
        end
  end.

(** *** The update cycle *)

(** Essentials of one region, as computed in the first loop of [update]. *)
Definition regionEssentials cra (reservePoolInfo : PoolInfo) r : ResourceEssentials :=
  let regionNumas := GetBindingNumas r in
  let regionCPULimit := GoInt.mul (Size regionNumas) (CPUsPerNuma (metaServer cra)) in
  let regionReservePoolSize :=
    foldl (λ acc numaID,
             match TopologyAwareAssignments reservePoolInfo !! numaID with
             | Some cpuset => GoInt.add acc (Size cpuset)
             | None => acc
             end) 0 (ToSliceInt regionNumas) in
  let reservedForAllocate := confReservedForAllocateCPU (conf cra) in
  let regionReservedForAllocate :=
    GoInt.wrap64
      (GoInt.ceil_div (GoInt.mul reservedForAllocate (Size regionNumas))
                      (NumNUMANodes (metaServer cra))) in
  {| Total := regionCPULimit;
     ReservePoolSize := regionReservePoolSize;
     ReservedForAllocate := regionReservedForAllocate;
     EnableReclaim := confEnableReclaim (conf cra) |}.

(** The first loop of [update]: an episode of provision policy per region. *)
Definition updateProvisions cra (reservePoolInfo : PoolInfo) : cpuResourceAdvisor P :=
  let rm := (λ r, TryUpdateProvision (metaCache cra) (metaServer cra)
                    (SetEssentials r (regionEssentials cra reservePoolInfo r)))
            <$> regionMap cra in
  emit (setRegionMap cra rm) (EvTryUpdateProvision <$> (map_to_list (regionMap cra)).*1).

(** The last loop of [update]: an episode of headroom policy per region. *)
Definition updateHeadrooms cra : cpuResourceAdvisor P :=
  let rm := TryUpdateHeadroom (metaCache cra) (metaServer cra) <$> regionMap cra in
  emit (setRegionMap cra rm) (EvTryUpdateHeadroom <$> (map_to_list (regionMap cra)).*1).

(** [update]; [now] is what [time.Now()] reads at the start-up check. The
    send on [sendCh] is taken by a ready receiver. *)
Definition update (now : Z) cra : cpuResourceAdvisor P :=
  match GetPoolInfo (metaCache cra) PoolNameReserve with
  | None => emit cra [EvLog LWarning "skip update: reserve pool not exist" []]
  | Some reservePoolInfo =>
      match assignContainersToRegions cra with
      | (cra1, Some errs) =>
          emit cra1 [EvLog LError "assign containers to regions failed" errs]
      | (cra1, None) =>
          let cra2 := emit cra1 [EvLog LInfo "region map" (map_to_list (regionMap cra1)).*1] in
          let cra3 := updateProvisions cra2 reservePoolInfo in
          match assembleRegionEntries cra3 with
          | Err e => emit cra3 [EvLog LError "assemble region entries failed" [e]]
          | Ok regionEntries =>
              let cra4 :=
                emit (setMetaCache cra3 (UpdateRegionEntries (metaCache cra3) regionEntries))
                     [EvUpdateRegionEntries regionEntries] in
              if bool_decide (now < startTime cra4 + startUpPeriod)
              then emit cra4 [EvLog LInfo "skip notifying cpu server: starting up" []]
              else
                match assembleProvision cra4 with
                | (Panicked msg, logs) => emit cra4 (logs ++ [EvPanic msg])
                | (Failed e, logs) =>
                    emit cra4 (logs ++ [EvLog LError "assemble provision failed" [e]])
                | (Done provision, logs) =>
                    let cra5 :=
                      emit cra4 (logs ++ [EvSend provision;
                                          EvLog LInfo "notify cpu server" []]) in
                    updateHeadrooms cra5
                end
          end
      end
  end.

End Advisor.

Arguments syncContainer : simpl never.
Arguments assignToRegions : simpl never.
Arguments assignContainersToRegions : simpl never.
Arguments update : simpl never.
Arguments updateHeadrooms : simpl never.
Arguments updateProvisions : simpl never.
Arguments gc : simpl never.
Arguments updateNonBindingNumas : simpl never.
Arguments GetHeadroom : simpl never.
Arguments assembleProvision : simpl never.
Arguments assembleRegionEntries : simpl never.

(** * Vocabulary of the statements *)

Section Vocabulary.
Context {P : Type} `{RegionPolicy P}.

Implicit Types (cra : cpuResourceAdvisor P) (r : QoSRegion P) (ci : ContainerInfo).
Implicit Types (rm : gmap string (QoSRegion P)).

(** What region assignment leaves alone: everything of the advisor but the
    region map, the pools and containers of the MetaCache and the
    identifier counter. *)
Definition frame cra cra' : Prop :=
  conf cra' = conf cra ∧ startTime cra' = startTime cra ∧
  systemNumas cra' = systemNumas cra ∧ metaServer cra' = metaServer cra ∧
  trace cra' = trace cra ∧ nonBindingNumas cra' = nonBindingNumas cra ∧
  regionEntries (metaCache cra') = regionEntries (metaCache cra).

(** An iteration that visits every container, for comparison. *)
Fixpoint forEachContainer {S : Type} (f : ContainerInfo → S → ContainerInfo * S)
    (cs : list ContainerInfo) (s : S) : list ContainerInfo * S :=
  match cs with
  | [] => ([], s)
  | ci :: rest =>
      let '(ci', s') := f ci s in
      let '(rest', s'') := forEachContainer f rest s' in
      (ci' :: rest', s'')
  end.

(** The NUMA nodes bound by the dedicated_numa_exclusive regions of a region
    map. *)
Definition exclusiveNumas rm : CPUSet :=
  ⋃ ((λ kr : string * QoSRegion P,
        if decide (rType kr.2 = QoSRegionTypeDedicatedNumaExclusive)
        then GetBindingNumas kr.2 else ∅) <$> map_to_list rm).

(** The invariant [updateNonBindingNumas] establishes. *)
Definition nonBindingInv cra : Prop :=
  nonBindingNumas cra = systemNumas cra ∖ exclusiveNumas (regionMap cra) ∧
  ∀ k r, regionMap cra !! k = Some r → rType r = QoSRegionTypeShare →
         GetBindingNumas r = nonBindingNumas cra.

(** What the policy episodes of a cycle leave alone in a region. *)
Definition regionShape r : string * QoSRegionType * gset (string * string) * CPUSet :=
  (rName r, rType r, rPodSet r, rBindingNumas r).

Definition isOk {A : Type} (x : result A) : bool :=
  match x with Ok _ => true | Err _ => false end.

Definition isLog (e : Event) : bool :=
  match e with EvLog _ _ _ => true | _ => false end.

(** Every region sits in the region map under its own name, as
    [cra.regionMap[r.Name()] = r] has it. The Go map holds pointers; with this
    invariant no region is reachable under two keys, and updating the value
    under a key is what mutating the region through its pointer does. *)
Definition wellKeyed rm : Prop :=
  ∀ k r, rm !! k = Some r → rName r = k.

Definition noEmptyRegion rm : Prop :=
  ∀ k r, rm !! k = Some r → IsEmpty r = false.

(** The sum of the regions' headrooms, [h] giving the headroom of a region. *)
Definition sumHeadroom (h : QoSRegion P → Z) rm : Z :=
  foldr Z.add 0 ((λ kr : string * QoSRegion P, h kr.2) <$> map_to_list rm).

(** The summed [non_reclaimed_cpuset_size] knobs of the share regions. *)
Definition shareKnob r : Z :=
  match rType r, GetProvision r with
  | QoSRegionTypeShare, Ok controlKnob =>
      GoInt.trunc (Value (knob controlKnob ControlKnobNonReclaimedCPUSetSize))
  | _, _ => 0
  end.

Definition shareRequirement rm : Z :=
  foldr Z.add 0 ((λ kr : string * QoSRegion P, shareKnob kr.2) <$> map_to_list rm).

(** [|reserve_pool|] as [assembleProvision] reads it. *)
Definition reservePoolSizeOf cra : Z :=
  default 0 (GetPoolSize (metaCache cra) PoolNameReserve).

(** [|non_binding_numas| * cpus_per_numa - non_numa_binding_requirement -
    ceil (|reserve_pool| * |non_binding_numas| / total_numas)], over the
    integers. *)
Definition reclaimBudget cra : Z :=
  Size (nonBindingNumas cra) * CPUsPerNuma (metaServer cra)
  - shareRequirement (regionMap cra)
  - GoInt.ceil_div (reservePoolSizeOf cra * Size (nonBindingNumas cra))
                   (NumNUMANodes (metaServer cra)).

(** [PoolEntries[reclaim][-1]] of a plan. *)
Definition reclaimOfNonBindingNumas (plan : InternalCalculationResult) : option Z :=
  PoolEntries plan !! PoolNameReclaim ≫= (λ m, m !! FakedNumaID).

(** What one run of [update] appends to the trace. *)
Definition cycleEvents (now : Z) cra : list Event :=
  drop (length (trace cra)) (trace (update now cra)).

(** The plans written to the send channel, the region entries handed to the
    MetaCache and the regions whose provision or headroom policy ran an
    episode, among some events. *)
Definition sentPlans (evs : list Event) : list InternalCalculationResult :=
  omap (λ e, match e with EvSend provision => Some provision | _ => None end) evs.

Definition publishedEntries (evs : list Event) : list RegionEntries :=
  omap (λ e, match e with EvUpdateRegionEntries entries => Some entries | _ => None end) evs.

Definition provisionEpisodes (evs : list Event) : list string :=
  omap (λ e, match e with EvTryUpdateProvision regionName => Some regionName
                     | _ => None end) evs.

Definition headroomEpisodes (evs : list Event) : list string :=
  omap (λ e, match e with EvTryUpdateHeadroom regionName => Some regionName
                     | _ => None end) evs.



(** The state in which [update] runs the provision policies, and the one in
    which it assembles the region entries. *)
Definition beforeProvision cra : cpuResourceAdvisor P :=
  let cra1 := (assignContainersToRegions cra).1 in
  emit cra1 [EvLog LInfo "region map" (map_to_list (regionMap cra1)).*1].

Definition afterProvision cra (reservePoolInfo : PoolInfo) : cpuResourceAdvisor P :=
  updateProvisions (beforeProvision cra) reservePoolInfo.

End Vocabulary.

Arguments afterProvision : simpl never.
Arguments beforeProvision : simpl never.

(** * Concrete nodes *)

Module Scenario.

(** A policy that answers with fixed values and counts its episodes. *)
Record fixedPolicy : Type := mkFixedPolicy {
  fpProvision : result ControlKnob;
  fpHeadroom : result Z;
  fpProvisionEpisodes : nat;
  fpHeadroomEpisodes : nat
}.

#[global] Instance fixedPolicy_policy : RegionPolicy fixedPolicy := {|
  policyNew := λ _, mkFixedPolicy (Ok ∅) (Ok 0) 0 0;
  policyUpdateProvision := λ _ p,
    mkFixedPolicy (fpProvision p) (fpHeadroom p)
      (S (fpProvisionEpisodes p)) (fpHeadroomEpisodes p);
  policyGetProvision := fpProvision;
  policyUpdateHeadroom := λ _ p,
    mkFixedPolicy (fpProvision p) (fpHeadroom p)
      (fpProvisionEpisodes p) (S (fpHeadroomEpisodes p));
  policyGetHeadroom := fpHeadroom;
  policyProvisionNames := λ _, ("canonical", "canonical");
  policyHeadroomNames := λ _, ("canonical", "canonical")
|}.

Definition knobOf (name : string) (v : Z) : ControlKnob :=
  {[ name := mkControlKnobValue (inject_Z v) "none" ]}.

(** A machine with 16 CPUs on 2 NUMA nodes. *)
Definition machine : MetaServer :=
  {| NumCPUs := 16; NumNUMANodes := 2; CPUsPerNuma := 8; NUMANodes := {[ 0; 1 ]} |}.

Definition config : Configuration :=
  {| confEnableReclaim := true; confReservedForAllocateCPU := 4 |}.

(** A reserve pool of 2 CPUs, one per NUMA node. *)
Definition reservePool : PoolInfo :=
  {| PoolName := PoolNameReserve;
     TopologyAwareAssignments := {[ 0 := {[ 0 ]}; 1 := {[ 8 ]} ]};
     RegionNames := ∅ |}.

(** A reserve pool of 8 CPUs, four per NUMA node. *)
Definition largeReservePool : PoolInfo :=
  {| PoolName := PoolNameReserve;
     TopologyAwareAssignments := {[ 0 := {[ 0; 1; 2; 3 ]}; 1 := {[ 8; 9; 10; 11 ]} ]};
     RegionNames := ∅ |}.

(** A cache whose state is always persisted. *)
Definition persisted : gmap string PoolInfo → option error := λ _, None.

Definition sharePool (regionNames : gset string) : PoolInfo :=
  {| PoolName := PoolNameShare;
     TopologyAwareAssignments := ∅;
     RegionNames := regionNames |}.

Definition sharedContainer : ContainerInfo :=
  {| PodUID := "pod1"; ContainerName := "main";
     ciQoSLevel := PodAnnotationQoSLevelSharedCores;
     ciOwnerPoolName := PoolNameShare;
     ciTopologyAwareAssignments := ∅;
     ciNumaBinding := false;
     ciRegionNames := ∅ |}.

Definition dedicatedContainer (regionNames : gset string) : ContainerInfo :=
  {| PodUID := "pod2"; ContainerName := "main";
     ciQoSLevel := PodAnnotationQoSLevelDedicatedCores;
     ciOwnerPoolName := PoolNameDedicated;
     ciTopologyAwareAssignments := {[ 0 := {[ 1; 2; 3; 4; 5; 6 ]} ]};
     ciNumaBinding := true;
     ciRegionNames := regionNames |}.

Definition shareRegion (name : string) (p : fixedPolicy) : QoSRegion fixedPolicy :=
  mkQoSRegion name QoSRegionTypeShare PoolNameShare {[ ("pod1", "main") ]}
    {[ 0; 1 ]} ResourceEssentials_zero p.

Definition dedicatedRegion (name : string) (p : fixedPolicy) : QoSRegion fixedPolicy :=
  mkQoSRegion name QoSRegionTypeDedicatedNumaExclusive PoolNameDedicated
    {[ ("pod2", "main") ]} {[ 0 ]} ResourceEssentials_zero p.

(** Only the reserve pool, no container, advisor built at time 0. *)
Definition emptyNode : cpuResourceAdvisor fixedPolicy :=
  NewCPUResourceAdvisor config 0
    {| poolEntries := {[ PoolNameReserve := reservePool ]};
       containers := [];
       regionEntries := ∅; persistErr := persisted |} machine.

(** A node whose MetaCache has no reserve pool. *)
Definition noReserveNode : cpuResourceAdvisor fixedPolicy :=
  NewCPUResourceAdvisor config 0
    {| poolEntries := {[ PoolNameShare := sharePool ∅ ]};
       containers := [sharedContainer];
       regionEntries := ∅; persistErr := persisted |} machine.

(** One shared-cores container, no region yet. *)
Definition freshShareNode : cpuResourceAdvisor fixedPolicy :=
  NewCPUResourceAdvisor config 0
    {| poolEntries := {[ PoolNameReserve := reservePool; PoolNameShare := sharePool ∅ ]};
       containers := [sharedContainer];
       regionEntries := ∅; persistErr := persisted |} machine.

(** One dedicated container on NUMA node 0 in its region, which supplies no
    CPU for reclaim and has headroom 0; NUMA node 1 binds nothing. *)
Definition dedicatedNode : cpuResourceAdvisor fixedPolicy :=
  {| conf := config; startTime := 0; systemNumas := {[ 0; 1 ]};
     regionMap :=
       {[ "dedicated_numa_exclusive-0" :=
            dedicatedRegion "dedicated_numa_exclusive-0"
              (mkFixedPolicy (Ok (knobOf ControlKnobReclaimedCPUSupplied 0)) (Ok 0) 1 1) ]};
     nonBindingNumas := {[ 1 ]};
     metaCache :=
       {| poolEntries := {[ PoolNameReserve := reservePool ]};
          containers := [dedicatedContainer {[ "dedicated_numa_exclusive-0" ]}];
          regionEntries := ∅; persistErr := persisted |};
     metaServer := machine; trace := []; uuidCount := 1 |}.

(** One shared-cores container in its share region, whose policy keeps
    [knobValue] CPUs out of reclaim; [pool] is the reserve pool. *)
Definition shareNode (pool : PoolInfo) (knobValue headroom : Z)
    : cpuResourceAdvisor fixedPolicy :=
  {| conf := config; startTime := 0; systemNumas := {[ 0; 1 ]};
     regionMap :=
       {[ "share-0" :=
            shareRegion "share-0"
              (mkFixedPolicy (Ok (knobOf ControlKnobNonReclaimedCPUSetSize knobValue))
                             (Ok headroom) 1 1) ]};
     nonBindingNumas := {[ 0; 1 ]};
     metaCache :=
       {| poolEntries := {[ PoolNameReserve := pool;
                            PoolNameShare := sharePool {[ "share-0" ]} ]};
          containers := [sharedContainer];
          regionEntries := ∅; persistErr := persisted |};
     metaServer := machine; trace := []; uuidCount := 1 |}.

(** A dedicated container on NUMA node 0 and a shared-cores container, no
    region yet. *)
Definition mixedNode : cpuResourceAdvisor fixedPolicy :=
  NewCPUResourceAdvisor config 0
    {| poolEntries := {[ PoolNameReserve := reservePool; PoolNameShare := sharePool ∅ ]};
       containers := [dedicatedContainer ∅; sharedContainer];
       regionEntries := ∅; persistErr := persisted |} machine.

(** A dedicated container that names a region the advisor does not have,
    followed by a shared-cores container. *)
Definition staleNode : cpuResourceAdvisor fixedPolicy :=
  NewCPUResourceAdvisor config 0
    {| poolEntries := {[ PoolNameReserve := reservePool; PoolNameShare := sharePool ∅ ]};
       containers := [dedicatedContainer {[ "dedicated_numa_exclusive-7" ]};
                      sharedContainer];
       regionEntries := ∅; persistErr := persisted |} machine.

(** A share region that gives its provision next to a dedicated region
    whose provision policy fails; each has its container. *)
Definition failingNode : cpuResourceAdvisor fixedPolicy :=
  {| conf := config; startTime := 0; systemNumas := {[ 0; 1 ]};
     regionMap :=
       {[ "share-0" :=
            shareRegion "share-0"
              (mkFixedPolicy (Ok (knobOf ControlKnobNonReclaimedCPUSetSize 3)) (Ok 5) 1 1);
          "dedicated_numa_exclusive-1" :=
            dedicatedRegion "dedicated_numa_exclusive-1"
              (mkFixedPolicy (Err "provision not ready") (Ok 0) 1 1) ]};
     nonBindingNumas := {[ 1 ]};
     metaCache :=
       {| poolEntries := {[ PoolNameReserve := reservePool;
                            PoolNameShare := sharePool {[ "share-0" ]} ]};
          containers := [sharedContainer;
                         dedicatedContainer {[ "dedicated_numa_exclusive-1" ]}];
          regionEntries := ∅; persistErr := persisted |};
     metaServer := machine; trace := []; uuidCount := 2 |}.

(** Ten seconds and one minute after the advisor was built. *)
Definition tenSeconds : Z := 10 * 1000000000.
Definition oneMinute : Z := 60 * 1000000000.

End Scenario.

(** * The rest of the advisor *)

Section AdvisorRest.
Context {P : Type} `{RegionPolicy P}.

Implicit Types (cra : cpuResourceAdvisor P) (r : QoSRegion P) (ci : ContainerInfo).

(** [r.GetHeadroom()] where [r] is what a look-up in the region map gave: for
    a missing key the look-up yields the nil interface, and calling a method
    on it is a run-time panic. *)
Definition lookedUpGetHeadroom (r : option (QoSRegion P)) : outcome Z :=
  match r with
  | None => Panicked "invalid memory address or nil pointer dereference"
  | Some r =>
      match regionGetHeadroom r with
      | Ok headroom => Done headroom
      | Err e => Failed e
      end
  end.

Definition setEntryHeadroom (info : RegionInfo) (headroom : Z) : RegionInfo :=
  {| RegionType := RegionType info;
     BindingNumas := BindingNumas info;
     ControlKnobMap := ControlKnobMap info;
     HeadroomPolicyTopPriority := HeadroomPolicyTopPriority info;
     HeadroomPolicyInUse := HeadroomPolicyInUse info;
     ProvisionPolicyTopPriority := ProvisionPolicyTopPriority info;
     ProvisionPolicyInUse := ProvisionPolicyInUse info;
     Headroom := headroom |}.

(** The loop of [updateHeadroomForRegionEntries] over the names of the region
    entries; the test on [ok] is the one of the source. *)
Fixpoint headroomEntriesLoop (rm : gmap string (QoSRegion P)) (names : list string)
    (regionEntries : RegionEntries) (logs : list Event)
    : outcome RegionEntries * list Event :=
  match names with
  | [] => (Done regionEntries, logs)
  | regionName :: rest =>
      match rm !! regionName with
      | Some _ =>
          headroomEntriesLoop rm rest regionEntries
            (logs ++ [EvLog LError "region in region entries but not in region map"
                             [regionName]])
      | None =>
          match lookedUpGetHeadroom (rm !! regionName) with
          | Panicked msg => (Panicked msg, logs)
          | Failed e =>
              headroomEntriesLoop rm rest regionEntries
                (logs ++ [EvLog LError "get headroom for region err" [regionName; e]])
          | Done headroom =>
              headroomEntriesLoop rm rest
                (alter (λ info, setEntryHeadroom info headroom) regionName regionEntries)
                logs
          end
      end
  end.

Definition updateHeadroomForRegionEntries cra (regionEntries : RegionEntries)
    : outcome RegionEntries * list Event :=
  headroomEntriesLoop (regionMap cra) (map_to_list regionEntries).*1 regionEntries [].

(** [Run]: every trigger taken from the receive channel starts one [update];
    [triggers] lists what the clock reads in the cycles that run before the
    context is done. *)
Definition Run (triggers : list Z) cra : cpuResourceAdvisor P :=
  foldl (λ cra' now, update now cra') cra triggers.

End AdvisorRest.

Arguments updateHeadroomForRegionEntries : simpl never.

(** * Vocabulary of the further statements *)

Section VocabularyRest.
Context {P : Type} `{RegionPolicy P}.

Implicit Types (cra : cpuResourceAdvisor P) (r : QoSRegion P) (ci : ContainerInfo).
Implicit Types (rm : gmap string (QoSRegion P)).

(** What [update] never changes in a container and in a pool. *)
Definition containerIdentity ci
    : string * string * QoSLevel * string * gmap Z CPUSet * bool :=
  (PodUID ci, ContainerName ci, ciQoSLevel ci, ciOwnerPoolName ci,
   ciTopologyAwareAssignments ci, ciNumaBinding ci).

Definition poolIdentity (p : PoolInfo) : string * gmap Z CPUSet :=
  (PoolName p, TopologyAwareAssignments p).

(** Every dedicated-numa-exclusive region binds exactly one NUMA node. *)
Definition dedicatedOnOneNuma rm : Prop :=
  ∀ k r, rm !! k = Some r → rType r = QoSRegionTypeDedicatedNumaExclusive →
         ∃ numaID, GetBindingNumas r = {[ numaID ]}.

(** The name [assignToRegions] gives to the region it creates on the [n]-th
    identifier. *)
Definition regionNameOf (t : QoSRegionType) (n : nat) : string :=
  QoSRegionType_string t +:+ regionNameSeparator +:+ pretty n.

(** No region of the map carries a name that is still to be drawn. *)
Definition namesDrawn cra : Prop :=
  ∀ t n, (uuidCount cra ≤ n)%nat → regionMap cra !! regionNameOf t n = None.

(** A container that [assignToRegions] gives regions to. *)
Definition assignable ci : Prop :=
  ciQoSLevel ci = PodAnnotationQoSLevelSharedCores ∨ ciNumaBinding ci = true.

(** The container is in the container set of every region it names. *)
Definition placed rm ci : Prop :=
  ∀ n, n ∈ ciRegionNames ci →
       ∃ r, rm !! n = Some r ∧ (PodUID ci, ContainerName ci) ∈ rPodSet r.

(** Every container of a region's container set is a container of [cs] that
    names the region. *)
Definition membersKnown rm (cs : list ContainerInfo) : Prop :=
  ∀ k r pod, rm !! k = Some r → pod ∈ rPodSet r →
             ∃ ci, ci ∈ cs ∧ pod = (PodUID ci, ContainerName ci) ∧ k ∈ ciRegionNames ci.

(** [rm'] has every region of [rm], with at least its containers. *)
Definition grown rm rm' : Prop :=
  ∀ k r, rm !! k = Some r → ∃ r', rm' !! k = Some r' ∧ rPodSet r ⊆ rPodSet r'.

(** The reserve CPUs on one NUMA node. *)
Definition reserveOn (assignments : gmap Z CPUSet) (numaID : Z) : Z :=
  match assignments !! numaID with
  | Some cpuset => Size cpuset
  | None => 0
  end.

End VocabularyRest.

(** * Further concrete nodes *)

Module MoreNodes.
Import Scenario.

(** The share region of [shareNode] with a headroom policy that fails. *)
Definition noHeadroomNode : cpuResourceAdvisor fixedPolicy :=
  {| conf := config; startTime := 0; systemNumas := {[ 0; 1 ]};
     regionMap :=
       {[ "share-0" :=
            shareRegion "share-0"
              (mkFixedPolicy (Ok (knobOf ControlKnobNonReclaimedCPUSetSize 3))
                             (Err "headroom not ready") 1 0) ]};
     nonBindingNumas := {[ 0; 1 ]};
     metaCache :=
       {| poolEntries := {[ PoolNameReserve := reservePool;
                            PoolNameShare := sharePool {[ "share-0" ]} ]};
          containers := [sharedContainer];
          regionEntries := ∅; persistErr := persisted |};
     metaServer := machine; trace := []; uuidCount := 1 |}.

(** The node of [shareNode] once its container has left the MetaCache. *)
Definition desertedNode : cpuResourceAdvisor fixedPolicy :=
  {| conf := config; startTime := 0; systemNumas := {[ 0; 1 ]};
     regionMap :=
       {[ "share-0" :=
            shareRegion "share-0"
              (mkFixedPolicy (Ok (knobOf ControlKnobNonReclaimedCPUSetSize 3)) (Ok 11) 1 1) ]};
     nonBindingNumas := {[ 0; 1 ]};
     metaCache :=
       {| poolEntries := {[ PoolNameReserve := reservePool;
                            PoolNameShare := sharePool {[ "share-0" ]} ]};
          containers := [];
          regionEntries := ∅; persistErr := persisted |};
     metaServer := machine; trace := []; uuidCount := 1 |}.

(** The node of [shareNode] on a cache that cannot persist its state. *)
Definition unpersistedNode : cpuResourceAdvisor fixedPolicy :=
  {| conf := config; startTime := 0; systemNumas := {[ 0; 1 ]};
     regionMap :=
       {[ "share-0" :=
            shareRegion "share-0"
              (mkFixedPolicy (Ok (knobOf ControlKnobNonReclaimedCPUSetSize 3)) (Ok 11) 1 1) ]};
     nonBindingNumas := {[ 0; 1 ]};
     metaCache :=
       {| poolEntries := {[ PoolNameReserve := reservePool; PoolNameShare := sharePool ∅ ]};
          containers := [sharedContainer];
          regionEntries := ∅;
          persistErr := λ _, Some "no space left on device" |};
     metaServer := machine; trace := []; uuidCount := 1 |}.

(** The region of [shareNode]. *)
Definition theShareRegion : QoSRegion fixedPolicy :=
  shareRegion "share-0"
    (mkFixedPolicy (Ok (knobOf ControlKnobNonReclaimedCPUSetSize 3)) (Ok 11) 1 1).

End MoreNodes.

(** * Properties *)

(** ** Machine arithmetic *)

Module GoIntFacts.
Import GoInt.

Lemma wrap64_id z : in_range z → wrap64 z = z.
Proof.
  unfold in_range, wrap64. intros Hz.
  rewrite Z.mod_small; lia.
Qed.

Lemma wrap64_in_range z : in_range (wrap64 z).
Proof.
  unfold in_range, wrap64.
  pose proof (Z.mod_pos_bound (z + 2 ^ 63) (2 ^ 64)). lia.
Qed.

(** [ceil_div a n] is the least integer [k] with [a <= k * n]. *)
Lemma ceil_div_upper a n : 0 < n → a <= ceil_div a n * n.
Proof.
  intros Hn. unfold ceil_div.
  pose proof (Z.mul_div_le (- a) n Hn). nia.
Qed.

Lemma ceil_div_least a n k : 0 < n → a <= k * n → ceil_div a n <= k.
Proof.
  intros Hn Hk. unfold ceil_div.
  assert (- k <= (- a) / n); [|lia].
  apply Z.div_le_lower_bound; nia.
Qed.

Lemma ceil_div_nonneg a n : 0 <= a → 0 < n → 0 <= ceil_div a n.
Proof.
  intros Ha Hn. unfold ceil_div.
  assert ((- a) / n <= 0); [|lia].
  apply Z.div_le_upper_bound; lia.
Qed.

Lemma ceil_div_mono a b n : 0 < n → a <= b → ceil_div a n <= ceil_div b n.
Proof.
  intros Hn Hab. unfold ceil_div.
  assert ((- b) / n <= (- a) / n); [|lia].
  apply Z.div_le_mono; lia.
Qed.

Lemma ceil_div_le a n : 0 <= a → 0 < n → ceil_div a n <= a.
Proof.
  intros Ha Hn. apply ceil_div_least; nia.
Qed.

Lemma ceil_div_exact k n : 0 < n → ceil_div (k * n) n = k.
Proof.
  intros Hn. unfold ceil_div.
  replace (- (k * n)) with ((- k) * n) by lia.
  rewrite Z.div_mul; lia.
Qed.

Lemma of_float64_inject z : in_range z → of_float64 (inject_Z z) = z.
Proof.
  intros Hz. unfold of_float64, trunc. simpl.
  rewrite Z.quot_1_r. by apply wrap64_id.
Qed.

End GoIntFacts.

(** Reading a field of an advisor that was only just written. *)
Ltac fields :=
  cbn [conf startTime systemNumas regionMap nonBindingNumas metaCache metaServer
       trace uuidCount emit setMetaCache setRegionMap setNonBindingNumas fst snd] in *.

Section Properties.
Context {P : Type} `{RegionPolicy P}.

Implicit Types (cra : cpuResourceAdvisor P) (r : QoSRegion P) (ci : ContainerInfo).
Implicit Types (rm : gmap string (QoSRegion P)).

(** ** What region assignment leaves alone *)


Lemma frame_refl cra : frame cra cra.
Proof. by repeat split. Qed.

Lemma frame_trans cra1 cra2 cra3 : frame cra1 cra2 → frame cra2 cra3 → frame cra1 cra3.
Proof. unfold frame. intros (?&?&?&?&?&?&?) (?&?&?&?&?&?&?). repeat split; congruence. Qed.

Lemma frame_newDedicatedRegions numaIDs : ∀ cra owner regions,
  frame cra (newDedicatedRegions cra owner numaIDs regions).2.
Proof.
  induction numaIDs as [|n numaIDs IH]; intros cra owner regions; simpl.
  - apply frame_refl.
  - eapply frame_trans; [|apply IH]. by repeat split.
Qed.

Lemma frame_assignToRegions cra ci : frame cra (assignToRegions cra ci).2.
Proof.
  unfold assignToRegions.
  destruct (decide _).
  - destruct (getPoolRegions _ _); simpl; [|apply frame_refl].
    case_bool_decide; simpl; by repeat split.
  - destruct (ciNumaBinding ci); simpl; [|apply frame_refl].
    destruct (getContainerRegions _ _); simpl; [|apply frame_refl].
    case_bool_decide; simpl; [apply frame_refl|].
    pose proof (frame_newDedicatedRegions
                  ((map_to_list (ciTopologyAwareAssignments ci)).*1)
                  cra (ciOwnerPoolName ci) a) as Hf.
    by destruct (newDedicatedRegions _ _ _ _).
Qed.

Lemma frame_addToRegions ci regions : ∀ cra, frame cra (addToRegions ci regions cra).1.
Proof.
  induction regions as [|r regions IH]; intros cra; simpl.
  - apply frame_refl.
  - eapply frame_trans; [|apply IH]. by repeat split.
Qed.

Lemma setPoolRegions_regionMap cra poolName regions :
  regionMap (setPoolRegions cra poolName regions).1 = regionMap cra.
Proof. unfold setPoolRegions. by destruct (GetPoolInfo _ _). Qed.

Lemma frame_setPoolRegions cra poolName regions :
  frame cra (setPoolRegions cra poolName regions).1.
Proof.
  unfold setPoolRegions. destruct (GetPoolInfo _ _); simpl; by repeat split.
Qed.

Lemma frame_syncContainer ci cra errList :
  frame cra (syncContainer ci (cra, errList)).1.2.1.
Proof.
  unfold syncContainer.
  pose proof (frame_assignToRegions cra ci) as H1.
  destruct (assignToRegions cra ci) as [[regions err] cra1]. simpl in H1.
  destruct regions as [|r regions]; [done|].
  pose proof (frame_addToRegions ci (r :: regions) cra1) as H2.
  destruct (addToRegions ci (r :: regions) cra1) as [cra2 [e|]]; simpl in H2.
  { simpl. by eapply frame_trans. }
  destruct (decide _); simpl; [by eapply frame_trans|].
  pose proof (frame_setPoolRegions cra2
                (ciOwnerPoolName (setContainerRegions ci (r :: regions)))
                (r :: regions)) as H3.
  destruct (setPoolRegions _ _ _) as [cra3 [e|]]; simpl in *;
    eapply frame_trans; eauto using frame_trans.
Qed.

(** The closure never asks the iteration to stop, whatever went wrong. *)
Lemma syncContainer_continue ci st : (syncContainer ci st).2 = true.
Proof.
  destruct st as [cra errList]. unfold syncContainer.
  destruct (assignToRegions cra ci) as [[regions err] cra1].
  destruct regions as [|r regions]; [done|].
  destruct (addToRegions ci (r :: regions) cra1) as [cra2 [e|]]; [done|].
  destruct (decide _); [done|].
  by destruct (setPoolRegions _ _ _) as [cra3 [e|]].
Qed.

(** Errors are only ever appended to [errList]. *)
Lemma syncContainer_errList ci cra errList :
  errList `prefix_of` (syncContainer ci (cra, errList)).1.2.2.
Proof.
  unfold syncContainer.
  destruct (assignToRegions cra ci) as [[regions err] cra1].
  assert (errList `prefix_of` appendErr errList err) as Hp.
  { destruct err; simpl; [by apply prefix_app_r|done]. }
  destruct regions as [|r regions]; [done|].
  destruct (addToRegions ci (r :: regions) cra1) as [cra2 [e|]]; simpl.
  { by apply prefix_app_r. }
  destruct (decide _); [done|].
  destruct (setPoolRegions _ _ _) as [cra3 [e|]]; simpl; [by apply prefix_app_r|done].
Qed.

Lemma rangeContainers_syncContainer cs : ∀ st,
  rangeContainers syncContainer cs st
  = forEachContainer (λ ci st, (syncContainer ci st).1) cs st.
Proof.
  induction cs as [|ci cs IH]; intros st; simpl; [done|].
  pose proof (syncContainer_continue ci st) as Hc.
  destruct (syncContainer ci st) as [[ci' st'] b]. simpl in Hc. subst b.
  by rewrite IH.
Qed.

Lemma rangeContainers_length cs : ∀ st,
  length (rangeContainers syncContainer cs st).1 = length cs.
Proof.
  induction cs as [|ci cs IH]; intros st; simpl; [done|].
  pose proof (syncContainer_continue ci st) as Hc.
  destruct (syncContainer ci st) as [[ci' st'] b]. simpl in Hc. subst b.
  specialize (IH st'). destruct (rangeContainers _ _ _). simpl in *. by rewrite IH.
Qed.

Lemma frame_rangeContainers cs : ∀ cra errList,
  frame cra (rangeContainers syncContainer cs (cra, errList)).2.1.
Proof.
  induction cs as [|ci cs IH]; intros cra errList; simpl; [apply frame_refl|].
  pose proof (syncContainer_continue ci (cra, errList)) as Hc.
  pose proof (frame_syncContainer ci cra errList) as Hf.
  destruct (syncContainer ci _) as [[ci' [cra' errList']] b].
  simpl in Hc, Hf. subst b.
  specialize (IH cra' errList').
  destruct (rangeContainers _ _ _) as [rest' [cra'' errList'']]. simpl in *.
  by eapply frame_trans.
Qed.

Lemma rangeContainers_errList cs : ∀ cra errList,
  errList `prefix_of` (rangeContainers syncContainer cs (cra, errList)).2.2.
Proof.
  induction cs as [|ci cs IH]; intros cra errList; simpl; [done|].
  pose proof (syncContainer_continue ci (cra, errList)) as Hc.
  pose proof (syncContainer_errList ci cra errList) as Hp.
  destruct (syncContainer ci _) as [[ci' [cra' errList']] b].
  simpl in Hc, Hp. subst b.
  specialize (IH cra' errList').
  destruct (rangeContainers _ _ _) as [rest' [cra'' errList'']]. simpl in *.
  by etrans.
Qed.

(** ** The assignment phase *)

Lemma gc_lookup cra k r :
  regionMap (gc cra) !! k = Some r ↔ regionMap cra !! k = Some r ∧ IsEmpty r = false.
Proof. unfold gc. cbn [emit setRegionMap regionMap]. by rewrite map_lookup_filter_Some. Qed.

Lemma gc_noEmptyRegion cra : noEmptyRegion (regionMap (gc cra)).
Proof. intros k r Hk. by apply gc_lookup in Hk as [_ ?]. Qed.

(** The set [updateNonBindingNumas] ends with. *)
Lemma nonBinding_fold (sys : CPUSet) rm :
  map_fold (λ (_ : string) r acc,
              if decide (rType r = QoSRegionTypeDedicatedNumaExclusive)
              then acc ∖ GetBindingNumas r else acc) sys rm
  = sys ∖ exclusiveNumas rm.
Proof.
  apply set_eq. intros x.
  unfold exclusiveNumas.
  rewrite elem_of_difference, elem_of_union_list.
  apply (map_fold_weak_ind
           (λ acc m, x ∈ acc ↔ x ∈ sys ∧
              ¬ ∃ X, X ∈ ((λ kr : string * QoSRegion P,
                             if decide (rType kr.2 = QoSRegionTypeDedicatedNumaExclusive)
                             then GetBindingNumas kr.2 else ∅) <$> map_to_list m) ∧ x ∈ X)).
  - rewrite map_to_list_empty. simpl. split; [|tauto].
    intros Hx. split; [done|]. intros (X & HX & _). by apply elem_of_nil in HX.
  - intros k r m acc Hk IH.
    assert (∀ X, X ∈ ((λ kr : string * QoSRegion P,
                         if decide (rType kr.2 = QoSRegionTypeDedicatedNumaExclusive)
                         then GetBindingNumas kr.2 else ∅) <$> map_to_list (<[k:=r]> m))
                 ↔ X = (if decide (rType r = QoSRegionTypeDedicatedNumaExclusive)
                        then GetBindingNumas r else ∅)
                   ∨ X ∈ ((λ kr : string * QoSRegion P,
                             if decide (rType kr.2 = QoSRegionTypeDedicatedNumaExclusive)
                             then GetBindingNumas kr.2 else ∅) <$> map_to_list m)) as Hin.
    { intros X. rewrite !list_elem_of_fmap. split.
      - intros ([k' r'] & -> & Hkr). apply elem_of_map_to_list in Hkr.
        destruct (decide (k = k')) as [->|Hne].
        + rewrite lookup_insert_eq in Hkr. injection Hkr as ->. by left.
        + rewrite lookup_insert_ne in Hkr by done. right.
          exists (k', r'). split; [done|]. by apply elem_of_map_to_list.
      - intros [->|([k' r'] & -> & Hkr)].
        + exists (k, r). split; [done|]. apply elem_of_map_to_list.
          by rewrite lookup_insert_eq.
        + exists (k', r'). split; [done|]. apply elem_of_map_to_list.
          apply elem_of_map_to_list in Hkr.
          rewrite lookup_insert_ne; [done|]. intros ->. congruence. }
    destruct (decide (rType r = QoSRegionTypeDedicatedNumaExclusive)) as [Hd|Hd].
    + rewrite elem_of_difference, IH. split.
      * intros [[Hs Hn] Hr]. split; [done|]. intros (X & HX & HxX).
        apply Hin in HX as [->|HX]; [done|]. apply Hn. eauto.
      * intros [Hs Hn]. split; [split; [done|]|].
        -- intros (X & HX & HxX). apply Hn. exists X. split; [|done].
           apply Hin. by right.
        -- intros Hr. apply Hn. exists (GetBindingNumas r). split; [|done].
           apply Hin. by left.
    + rewrite IH. split.
      * intros [Hs Hn]. split; [done|]. intros (X & HX & HxX).
        apply Hin in HX as [->|HX]; [by apply not_elem_of_empty in HxX|].
        apply Hn. eauto.
      * intros [Hs Hn]. split; [done|]. intros (X & HX & HxX). apply Hn.
        exists X. split; [|done]. apply Hin. by right.
Qed.

Lemma elem_of_exclusiveNumas rm x :
  x ∈ exclusiveNumas rm ↔
  ∃ k r, rm !! k = Some r ∧ rType r = QoSRegionTypeDedicatedNumaExclusive
         ∧ x ∈ GetBindingNumas r.
Proof.
  unfold exclusiveNumas. rewrite elem_of_union_list. split.
  - intros (X & HX & Hx). apply list_elem_of_fmap in HX as ([k r] & -> & Hkr).
    apply elem_of_map_to_list in Hkr. simpl in Hx.
    destruct (decide _); [|by apply not_elem_of_empty in Hx]. eauto.
  - intros (k & r & Hk & Hd & Hx). exists (GetBindingNumas r). split; [|done].
    apply list_elem_of_fmap. exists (k, r). simpl.
    rewrite decide_True by done. split; [done|]. by apply elem_of_map_to_list.
Qed.

(** Two region maps with the same dedicated regions, as far as type and
    binding NUMAs go, exclude the same NUMAs. *)
Lemma exclusiveNumas_fmap (f : QoSRegion P → QoSRegion P) rm :
  (∀ r, rType (f r) = rType r) →
  (∀ r, rType r = QoSRegionTypeDedicatedNumaExclusive →
        GetBindingNumas (f r) = GetBindingNumas r) →
  exclusiveNumas (f <$> rm) = exclusiveNumas rm.
Proof.
  intros Ht Hn. apply set_eq. intros x. rewrite !elem_of_exclusiveNumas. split.
  - intros (k & r' & Hk & Hd & Hx).
    apply lookup_fmap_Some in Hk as (r & <- & Hk).
    rewrite Ht in Hd. rewrite Hn in Hx by done. eauto.
  - intros (k & r & Hk & Hd & Hx). exists k, (f r).
    rewrite lookup_fmap, Hk, Ht, Hn by done. eauto.
Qed.

Lemma updateNonBindingNumas_inv cra : nonBindingInv (updateNonBindingNumas cra).
Proof.
  unfold nonBindingInv, updateNonBindingNumas. simpl.
  rewrite nonBinding_fold. split.
  - rewrite exclusiveNumas_fmap; [done| |].
    + intros r. by destruct (decide _).
    + intros r Hd. destruct (decide _) as [Hs|]; [congruence|done].
  - intros k r' Hk Hs. apply lookup_fmap_Some in Hk as (r & <- & Hk).
    destruct (decide _) as [|Hn]; [done|]. by destruct Hn.
Qed.

Lemma updateNonBindingNumas_noEmptyRegion cra :
  noEmptyRegion (regionMap cra) → noEmptyRegion (regionMap (updateNonBindingNumas cra)).
Proof.
  intros Hne k r' Hk. unfold updateNonBindingNumas in Hk. simpl in Hk.
  apply lookup_fmap_Some in Hk as (r & <- & Hk).
  specialize (Hne k r Hk). by destruct (decide _).
Qed.

Lemma frame_gc_fields cra :
  conf (gc cra) = conf cra ∧ startTime (gc cra) = startTime cra ∧
  systemNumas (gc cra) = systemNumas cra ∧ metaServer (gc cra) = metaServer cra ∧
  metaCache (gc cra) = metaCache cra ∧
  ∃ logs, trace (gc cra) = trace cra ++ logs ∧ Forall (λ e, isLog e = true) logs.
Proof.
  unfold gc. simpl. repeat split. eexists. split; [done|].
  apply Forall_fmap. by apply Forall_true.
Qed.

Lemma updateNonBindingNumas_fields cra :
  let cra' := updateNonBindingNumas cra in
  conf cra' = conf cra ∧ startTime cra' = startTime cra ∧
  systemNumas cra' = systemNumas cra ∧ metaServer cra' = metaServer cra ∧
  metaCache cra' = metaCache cra ∧ trace cra' = trace cra.
Proof. by repeat split. Qed.

(** What the assignment phase guarantees, errors or not. *)
Lemma assignContainersToRegions_facts cra :
  let cra' := (assignContainersToRegions cra).1 in
  conf cra' = conf cra ∧ startTime cra' = startTime cra ∧
  systemNumas cra' = systemNumas cra ∧ metaServer cra' = metaServer cra ∧
  regionEntries (metaCache cra') = regionEntries (metaCache cra) ∧
  (∃ logs, trace cra' = trace cra ++ logs ∧ Forall (λ e, isLog e = true) logs) ∧
  noEmptyRegion (regionMap cra') ∧ nonBindingInv cra'.
Proof.
  unfold assignContainersToRegions.
  set (cra1 := setRegionMap cra (Clear <$> regionMap cra)).
  pose proof (frame_rangeContainers (containers (metaCache cra1)) cra1 [])
    as (Hc & Ht & Hs & Hm & Htr & _ & Hre).
  destruct (rangeContainers _ _ _) as [cs [cra2 errList]].
  cbn [fst snd] in *.
  set (cra3 := setMetaCache cra2 (setContainers (metaCache cra2) cs)).
  destruct (frame_gc_fields cra3) as (Gc & Gt & Gs & Gm & Gmc & logs & Gtr & Glog).
  destruct (updateNonBindingNumas_fields (gc cra3)) as (Uc & Ut & Us & Um & Umc & Utr).
  pose proof (updateNonBindingNumas_inv (gc cra3)) as Hinv.
  pose proof (updateNonBindingNumas_noEmptyRegion (gc cra3) (gc_noEmptyRegion cra3)) as Hne.
  cbv zeta. rewrite Uc, Ut, Us, Um, Umc, Utr, Gc, Gt, Gs, Gm, Gmc, Gtr.
  repeat split; try done; [|apply Hinv..].
  exists logs. split; [|done]. f_equal. exact Htr.
Qed.

(** ** The shape of a cycle *)

Lemma update_reserve_missing now cra :
  GetPoolInfo (metaCache cra) PoolNameReserve = None →
  update now cra = emit cra [EvLog LWarning "skip update: reserve pool not exist" []].
Proof. intros Hr. unfold update. by rewrite Hr. Qed.

Lemma update_assign_failed now cra reservePoolInfo cra1 errs :
  GetPoolInfo (metaCache cra) PoolNameReserve = Some reservePoolInfo →
  assignContainersToRegions cra = (cra1, Some errs) →
  update now cra = emit cra1 [EvLog LError "assign containers to regions failed" errs].
Proof. intros Hr Ha. unfold update. by rewrite Hr, Ha. Qed.

Lemma update_assign_ok now cra reservePoolInfo cra1 :
  GetPoolInfo (metaCache cra) PoolNameReserve = Some reservePoolInfo →
  assignContainersToRegions cra = (cra1, None) →
  update now cra =
    let cra3 := afterProvision cra reservePoolInfo in
    match assembleRegionEntries cra3 with
    | Err e => emit cra3 [EvLog LError "assemble region entries failed" [e]]
    | Ok regionEntries =>
        let cra4 :=
          emit (setMetaCache cra3 (UpdateRegionEntries (metaCache cra3) regionEntries))
               [EvUpdateRegionEntries regionEntries] in
        if bool_decide (now < startTime cra4 + startUpPeriod)
        then emit cra4 [EvLog LInfo "skip notifying cpu server: starting up" []]
        else
          match assembleProvision cra4 with
          | (Panicked msg, logs) => emit cra4 (logs ++ [EvPanic msg])
          | (Failed e, logs) =>
              emit cra4 (logs ++ [EvLog LError "assemble provision failed" [e]])
          | (Done provision, logs) =>
              updateHeadrooms
                (emit cra4 (logs ++ [EvSend provision; EvLog LInfo "notify cpu server" []]))
          end
    end.
Proof.
  intros Hr Ha. unfold update, afterProvision, beforeProvision. by rewrite Hr, Ha.
Qed.

(** The provision episodes touch the policies only. *)
Lemma afterProvision_lookup cra reservePoolInfo k r' :
  regionMap (afterProvision cra reservePoolInfo) !! k = Some r' →
  ∃ r, regionMap (assignContainersToRegions cra).1 !! k = Some r ∧
       rName r' = rName r ∧ rType r' = rType r ∧ rPodSet r' = rPodSet r ∧
       rBindingNumas r' = rBindingNumas r.
Proof.
  unfold afterProvision, updateProvisions, beforeProvision. simpl.
  intros Hk. apply lookup_fmap_Some in Hk as (r & <- & Hk). by exists r.
Qed.

Lemma afterProvision_fields cra reservePoolInfo :
  let cra1 := (assignContainersToRegions cra).1 in
  let cra3 := afterProvision cra reservePoolInfo in
  conf cra3 = conf cra1 ∧ startTime cra3 = startTime cra1 ∧
  systemNumas cra3 = systemNumas cra1 ∧ metaServer cra3 = metaServer cra1 ∧
  metaCache cra3 = metaCache cra1 ∧ nonBindingNumas cra3 = nonBindingNumas cra1 ∧
  dom (regionMap cra3) = dom (regionMap cra1) ∧
  trace cra3 = trace cra1
               ++ EvLog LInfo "region map" (map_to_list (regionMap cra1)).*1
               :: (EvTryUpdateProvision <$> (map_to_list (regionMap cra1)).*1).
Proof.
  unfold afterProvision, updateProvisions, beforeProvision. simpl.
  repeat split; [by rewrite dom_fmap_L|]. by rewrite <- app_assoc.
Qed.

Lemma updateHeadrooms_lookup cra k r' :
  regionMap (updateHeadrooms cra) !! k = Some r' →
  ∃ r, regionMap cra !! k = Some r ∧
       rName r' = rName r ∧ rType r' = rType r ∧ rPodSet r' = rPodSet r ∧
       rBindingNumas r' = rBindingNumas r.
Proof.
  unfold updateHeadrooms. simpl.
  intros Hk. apply lookup_fmap_Some in Hk as (r & <- & Hk). by exists r.
Qed.

(** ** Node headroom *)

Lemma headroomLoop_ok (h : QoSRegion P → Z) l : ∀ b t,
  (∀ kr, kr ∈ l → regionGetHeadroom kr.2 = Ok (h kr.2)) →
  headroomLoop l b t
  = Ok (b || existsb (λ kr, bool_decide (rType kr.2 = QoSRegionTypeShare)) l,
        t + foldr Z.add 0 ((λ kr : string * QoSRegion P, h kr.2) <$> l)).
Proof.
  induction l as [|[k r] l IH]; intros b t Hh; simpl.
  - by rewrite orb_false_r, Z.add_0_r.
  - pose proof (Hh (k, r) (list_elem_of_here _ _)) as Hr. simpl in Hr. rewrite Hr.
    rewrite IH by (intros kr Hkr; apply Hh; by apply list_elem_of_further).
    simpl. f_equal. f_equal; [|by rewrite <- Z.add_assoc].
    destruct (decide _).
    + rewrite bool_decide_eq_true_2 by done. by destruct b.
    + by rewrite bool_decide_eq_false_2.
Qed.

Lemma existsb_share_map rm :
  existsb (λ kr : string * QoSRegion P, bool_decide (rType kr.2 = QoSRegionTypeShare))
          (map_to_list rm) = true
  ↔ ∃ k r, rm !! k = Some r ∧ rType r = QoSRegionTypeShare.
Proof.
  rewrite existsb_exists. split.
  - intros ([k r] & Hin & Hs). apply list_elem_of_In, elem_of_map_to_list in Hin.
    apply bool_decide_eq_true in Hs. eauto.
  - intros (k & r & Hk & Hs). exists (k, r). split.
    + by apply list_elem_of_In, elem_of_map_to_list.
    + by apply bool_decide_eq_true.
Qed.

Lemma GetHeadroom_regions cra reservePoolSize (h : QoSRegion P → Z) :
  regionMap cra ≠ ∅ →
  GetPoolSize (metaCache cra) PoolNameReserve = Some reservePoolSize →
  (∀ k r, regionMap cra !! k = Some r → regionGetHeadroom r = Ok (h r)) →
  GetHeadroom cra =
    Ok (if existsb (λ kr : string * QoSRegion P,
                      bool_decide (rType kr.2 = QoSRegionTypeShare))
                   (map_to_list (regionMap cra))
        then sumHeadroom h (regionMap cra)
        else sumHeadroom h (regionMap cra)
             + GoInt.sub (GoInt.mul (Size (nonBindingNumas cra))
                                    (CPUsPerNuma (metaServer cra)))
                         (reserveOfNonBindingNumas cra reservePoolSize)).
Proof.
  intros Hne Hr Hh. unfold GetHeadroom. rewrite Hr.
  rewrite bool_decide_eq_false_2.
  2:{ intros Hs. apply Hne, map_size_empty_iff. lia. }
  rewrite (headroomLoop_ok h).
  2:{ intros [k r] Hkr. apply elem_of_map_to_list in Hkr. by apply (Hh k). }
  simpl. unfold sumHeadroom. by destruct (existsb _ _).
Qed.

(** C6: with an empty region map and the reserve pool in the MetaCache,
    [GetHeadroom] returns exactly the total number of CPUs minus the size of
    the reserve pool, and no error. *)
Theorem GetHeadroom_no_region cra reservePoolSize :
  regionMap cra = ∅ →
  GetPoolSize (metaCache cra) PoolNameReserve = Some reservePoolSize →
  GoInt.in_range (NumCPUs (metaServer cra) - reservePoolSize) →
  GetHeadroom cra = Ok (NumCPUs (metaServer cra) - reservePoolSize).
Proof.
  intros Hrm Hr Hrange. unfold GetHeadroom. rewrite Hr, Hrm.
  rewrite map_size_empty. rewrite bool_decide_eq_true_2 by lia.
  unfold GoInt.sub. by rewrite GoIntFacts.wrap64_id.
Qed.

(** C9: with a non-empty region map, every region's headroom available and
    the reserve pool in the MetaCache, [GetHeadroom] returns the sum of the
    regions' headrooms, plus, when no share region exists,
    [|non_binding_numas| * cpus_per_numa - ceil (|reserve_pool| *
    |non_binding_numas| / total_numas)]; with a share region in the map the
    extra term is not added. *)
Theorem GetHeadroom_sum_of_regions cra reservePoolSize (h : QoSRegion P → Z) :
  regionMap cra ≠ ∅ →
  GetPoolSize (metaCache cra) PoolNameReserve = Some reservePoolSize →
  (∀ k r, regionMap cra !! k = Some r → regionGetHeadroom r = Ok (h r)) →
  0 < NumNUMANodes (metaServer cra) →
  0 <= reservePoolSize * Size (nonBindingNumas cra) < 2 ^ 53 →
  GoInt.in_range (Size (nonBindingNumas cra) * CPUsPerNuma (metaServer cra)) →
  GoInt.in_range (Size (nonBindingNumas cra) * CPUsPerNuma (metaServer cra)
                  - GoInt.ceil_div (reservePoolSize * Size (nonBindingNumas cra))
                                   (NumNUMANodes (metaServer cra))) →
  ((∀ k r, regionMap cra !! k = Some r → rType r ≠ QoSRegionTypeShare) →
   GetHeadroom cra =
     Ok (sumHeadroom h (regionMap cra)
         + (Size (nonBindingNumas cra) * CPUsPerNuma (metaServer cra)
            - GoInt.ceil_div (reservePoolSize * Size (nonBindingNumas cra))
                             (NumNUMANodes (metaServer cra))))) ∧
  ((∃ k r, regionMap cra !! k = Some r ∧ rType r = QoSRegionTypeShare) →
   GetHeadroom cra = Ok (sumHeadroom h (regionMap cra))).
Proof.
  intros Hne Hr Hh Hn Hprod Hmul Hsub.
  rewrite (GetHeadroom_regions cra reservePoolSize h) by done.
  split.
  - intros Hnoshare.
    destruct (existsb _ _) eqn:Hex.
    { apply existsb_share_map in Hex as (k & r & Hk & Hs). by destruct (Hnoshare k r). }
    do 2 f_equal. unfold reserveOfNonBindingNumas, GoInt.sub, GoInt.mul.
    assert (GoInt.in_range (reservePoolSize * Size (nonBindingNumas cra))) as Hp.
    { unfold GoInt.in_range. lia. }
    rewrite (GoIntFacts.wrap64_id (reservePoolSize * _)) by done.
    rewrite (GoIntFacts.wrap64_id (Size _ * _)) by done.
    rewrite (GoIntFacts.wrap64_id (GoInt.ceil_div _ _)).
    + by apply GoIntFacts.wrap64_id.
    + pose proof (GoIntFacts.ceil_div_nonneg _ _ (proj1 Hprod) Hn).
      pose proof (GoIntFacts.ceil_div_le _ _ (proj1 Hprod) Hn).
      unfold GoInt.in_range. lia.
  - intros Hshare. apply existsb_share_map in Hshare. by rewrite Hshare.
Qed.

(** C10: while the reserve pool is absent from the MetaCache, [GetHeadroom]
    returns the error "reserve pool not exist" whatever the region map holds,
    whereas [update] meets the same condition with a warning and a skip. *)
Theorem GetHeadroom_reserve_pool_missing now cra :
  GetPoolInfo (metaCache cra) PoolNameReserve = None →
  GetHeadroom cra = Err "reserve pool not exist" ∧
  update now cra = emit cra [EvLog LWarning "skip update: reserve pool not exist" []].
Proof.
  intros Hr. split; [|by apply update_reserve_missing].
  unfold GetHeadroom, GetPoolSize. by rewrite Hr.
Qed.

(** C7: when the reserve pool is absent from the MetaCache, [update] is a
    no-op: region map, non-binding NUMA set and MetaCache (the region names
    of containers and pools, the region entries) are unchanged, and the only
    thing the cycle does is log a warning, so no region entries are written,
    no plan is sent and no error is raised. *)
Theorem update_reserve_pool_missing_noop now cra :
  GetPoolInfo (metaCache cra) PoolNameReserve = None →
  regionMap (update now cra) = regionMap cra ∧
  nonBindingNumas (update now cra) = nonBindingNumas cra ∧
  metaCache (update now cra) = metaCache cra ∧
  cycleEvents now cra = [EvLog LWarning "skip update: reserve pool not exist" []].
Proof.
  intros Hr. unfold cycleEvents. rewrite update_reserve_missing by done. simpl.
  repeat split. by rewrite drop_app_length.
Qed.

(** ** Regions across the policy episodes *)

Lemma shape_lookup rm rm' k r' :
  regionShape <$> rm' = regionShape <$> rm →
  rm' !! k = Some r' →
  ∃ r, rm !! k = Some r ∧ regionShape r' = regionShape r.
Proof.
  intros Hs Hk.
  assert ((regionShape <$> rm) !! k = Some (regionShape r')) as Hl.
  { by rewrite <- Hs, lookup_fmap, Hk. }
  apply lookup_fmap_Some in Hl as (r & Hr & Hk'). eauto.
Qed.

Lemma regionShape_inv r r' :
  regionShape r' = regionShape r →
  rName r' = rName r ∧ rType r' = rType r ∧ rPodSet r' = rPodSet r ∧
  GetBindingNumas r' = GetBindingNumas r.
Proof. unfold regionShape, GetBindingNumas. intros Hs. by injection Hs. Qed.

Lemma shape_noEmptyRegion rm rm' :
  regionShape <$> rm' = regionShape <$> rm → noEmptyRegion rm → noEmptyRegion rm'.
Proof.
  intros Hs Hne k r' Hk.
  destruct (shape_lookup rm rm' k r' Hs Hk) as (r & Hr & Hsh).
  specialize (Hne k r Hr). unfold IsEmpty in *.
  apply regionShape_inv in Hsh as (_ & _ & Hp & _). by rewrite Hp.
Qed.

Lemma shape_exclusiveNumas rm rm' :
  regionShape <$> rm' = regionShape <$> rm → exclusiveNumas rm' = exclusiveNumas rm.
Proof.
  intros Hs. apply set_eq. intros x. rewrite !elem_of_exclusiveNumas.
  split; intros (k & r & Hk & Hd & Hx).
  - destruct (shape_lookup rm rm' k r Hs Hk) as (r0 & Hr0 & Hsh).
    apply regionShape_inv in Hsh as (_ & Ht & _ & Hb).
    exists k, r0. repeat split; congruence.
  - destruct (shape_lookup rm' rm k r (eq_sym Hs) Hk) as (r0 & Hr0 & Hsh).
    apply regionShape_inv in Hsh as (_ & Ht & _ & Hb).
    exists k, r0. repeat split; congruence.
Qed.

Lemma shape_fmap (f : QoSRegion P → QoSRegion P) rm :
  (∀ r, regionShape (f r) = regionShape r) →
  regionShape <$> (f <$> rm) = regionShape <$> rm.
Proof.
  intros Hf. rewrite <- map_fmap_compose. apply map_fmap_ext. intros k r _. apply Hf.
Qed.

Lemma afterProvision_shape cra reservePoolInfo :
  regionShape <$> regionMap (afterProvision cra reservePoolInfo)
  = regionShape <$> regionMap (assignContainersToRegions cra).1.
Proof.
  unfold afterProvision, updateProvisions, beforeProvision. simpl.
  by apply shape_fmap.
Qed.

Lemma updateHeadrooms_shape cra :
  regionShape <$> regionMap (updateHeadrooms cra) = regionShape <$> regionMap cra.
Proof. unfold updateHeadrooms. simpl. by apply shape_fmap. Qed.

Lemma updateHeadrooms_fields cra :
  let cra' := updateHeadrooms cra in
  conf cra' = conf cra ∧ startTime cra' = startTime cra ∧
  systemNumas cra' = systemNumas cra ∧ metaServer cra' = metaServer cra ∧
  metaCache cra' = metaCache cra ∧ nonBindingNumas cra' = nonBindingNumas cra ∧
  dom (regionMap cra') = dom (regionMap cra) ∧
  trace cra' = trace cra ++ (EvTryUpdateHeadroom <$> (map_to_list (regionMap cra)).*1).
Proof. unfold updateHeadrooms. simpl. repeat split. by rewrite dom_fmap_L. Qed.

(** Once the reserve pool is seen, the regions a cycle ends with are those
    of its assignment phase, up to the state of their policies; the system
    NUMA set and the non-binding NUMA set are those of the assignment
    phase. *)
Lemma update_shape now cra :
  is_Some (GetPoolInfo (metaCache cra) PoolNameReserve) →
  regionShape <$> regionMap (update now cra)
  = regionShape <$> regionMap (assignContainersToRegions cra).1 ∧
  systemNumas (update now cra) = systemNumas cra ∧
  nonBindingNumas (update now cra) = nonBindingNumas (assignContainersToRegions cra).1.
Proof.
  intros [reservePoolInfo Hr].
  destruct (assignContainersToRegions_facts cra) as (_ & _ & Hsys & _).
  pose proof (afterProvision_shape cra reservePoolInfo) as Hsh.
  destruct (afterProvision_fields cra reservePoolInfo)
    as (_ & _ & Hsys3 & _ & _ & Hnb3 & _).
  destruct (assignContainersToRegions cra) as [cra1 [errs|]] eqn:Ha.
  { rewrite (update_assign_failed now cra reservePoolInfo cra1 errs) by done.
    fields. by rewrite Hsys. }
  rewrite (update_assign_ok now cra reservePoolInfo cra1) by done.
  cbv zeta.
  destruct (assembleRegionEntries _) as [entries|e]; fields.
  2:{ by rewrite Hsh, Hsys3, Hnb3, Hsys. }
  case_bool_decide; fields.
  { by rewrite Hsh, Hsys3, Hnb3, Hsys. }
  destruct (assembleProvision _) as [[provision|e|msg] logs]; fields;
    try by rewrite Hsh, Hsys3, Hnb3, Hsys.
  rewrite updateHeadrooms_shape.
  destruct (updateHeadrooms_fields
              (emit (emit (setMetaCache (afterProvision cra reservePoolInfo)
                             (UpdateRegionEntries
                                (metaCache (afterProvision cra reservePoolInfo)) entries))
                          [EvUpdateRegionEntries entries])
                    (logs ++ [EvSend provision; EvLog LInfo "notify cpu server" []])))
    as (_ & _ & Hs5 & _ & _ & Hn5 & _).
  rewrite Hs5, Hn5. fields. by rewrite Hsh, Hsys3, Hnb3, Hsys.
Qed.

(** ** Regions and their keys *)

Lemma assignToRegions_regionMap cra ci :
  regionMap (assignToRegions cra ci).2 = regionMap cra.
Proof.
  unfold assignToRegions.
  destruct (decide _).
  - destruct (getPoolRegions _ _); [|done]. by case_bool_decide.
  - destruct (ciNumaBinding ci); [|done].
    destruct (getContainerRegions _ _) as [regions|]; [|done].
    case_bool_decide; [done|].
    assert (∀ numaIDs cra0 owner rs,
              regionMap (newDedicatedRegions cra0 owner numaIDs rs).2 = regionMap cra0) as Hn.
    { induction numaIDs as [|numaID numaIDs IH]; intros cra0 owner rs; [done|].
      cbn [newDedicatedRegions NewUUID]. by rewrite IH. }
    specialize (Hn ((map_to_list (ciTopologyAwareAssignments ci)).*1)
                   cra (ciOwnerPoolName ci) regions).
    by destruct (newDedicatedRegions _ _ _ _).
Qed.

Lemma addToRegions_wellKeyed ci regions : ∀ cra,
  wellKeyed (regionMap cra) → wellKeyed (regionMap (addToRegions ci regions cra).1).
Proof.
  induction regions as [|r regions IH]; intros cra Hwk; [done|].
  cbn [addToRegions AddContainer]. apply IH. fields.
  intros k r' Hk. destruct (decide (k = rName r)) as [->|Hne].
  - cbn [rName] in Hk. rewrite lookup_insert_eq in Hk. by injection Hk as <-.
  - cbn [rName] in Hk. rewrite lookup_insert_ne in Hk by done. by apply Hwk.
Qed.

Lemma syncContainer_wellKeyed ci cra errList :
  wellKeyed (regionMap cra) →
  wellKeyed (regionMap (syncContainer ci (cra, errList)).1.2.1).
Proof.
  intros Hwk. unfold syncContainer.
  pose proof (assignToRegions_regionMap cra ci) as H1.
  destruct (assignToRegions cra ci) as [[regions err] cra1]. cbn [snd] in H1.
  rewrite <- H1 in Hwk.
  destruct regions as [|r regions]; [done|].
  pose proof (addToRegions_wellKeyed ci (r :: regions) cra1 Hwk) as H2.
  destruct (addToRegions ci (r :: regions) cra1) as [cra2 [e|]]; [done|].
  cbn [fst] in H2. destruct (decide _); [done|].
  pose proof (setPoolRegions_regionMap cra2
                (ciOwnerPoolName (setContainerRegions ci (r :: regions))) (r :: regions))
    as H3.
  destruct (setPoolRegions _ _ _) as [cra3 [e|]]; cbn [fst snd] in *; by rewrite H3.
Qed.

Lemma rangeContainers_wellKeyed cs : ∀ cra errList,
  wellKeyed (regionMap cra) →
  wellKeyed (regionMap (rangeContainers syncContainer cs (cra, errList)).2.1).
Proof.
  induction cs as [|ci cs IH]; intros cra errList Hwk; [done|].
  cbn [rangeContainers].
  pose proof (syncContainer_continue ci (cra, errList)) as Hc.
  pose proof (syncContainer_wellKeyed ci cra errList Hwk) as Hs.
  destruct (syncContainer ci _) as [[ci' [cra' errList']] b].
  cbn [fst snd] in Hc, Hs. subst b.
  specialize (IH cra' errList' Hs).
  by destruct (rangeContainers _ _ _) as [rest' [cra'' errList'']].
Qed.

Lemma shape_wellKeyed rm rm' :
  regionShape <$> rm' = regionShape <$> rm → wellKeyed rm → wellKeyed rm'.
Proof.
  intros Hs Hwk k r' Hk.
  destruct (shape_lookup rm rm' k r' Hs Hk) as (r & Hr & Hsh).
  apply regionShape_inv in Hsh as (Hn & _). rewrite Hn. by apply Hwk.
Qed.

Lemma assignContainersToRegions_wellKeyed cra :
  wellKeyed (regionMap cra) → wellKeyed (regionMap (assignContainersToRegions cra).1).
Proof.
  intros Hwk. unfold assignContainersToRegions.
  assert (wellKeyed (regionMap (setRegionMap cra (Clear <$> regionMap cra)))) as Hwk1.
  { fields. intros k r' Hk. apply lookup_fmap_Some in Hk as (r & <- & Hk).
    exact (Hwk k r Hk). }
  pose proof (rangeContainers_wellKeyed
                (containers (metaCache (setRegionMap cra (Clear <$> regionMap cra))))
                _ [] Hwk1) as Hwk2.
  destruct (rangeContainers _ _ _) as [cs [cra2 errList]]. cbn [fst snd] in *.
  intros k r' Hk. unfold updateNonBindingNumas in Hk. fields.
  apply lookup_fmap_Some in Hk as (r & <- & Hk).
  apply gc_lookup in Hk as [Hk _]. fields.
  specialize (Hwk2 k r Hk). by destruct (decide _).
Qed.

(** All the region maps the advisor ever holds are well keyed. *)
Lemma update_wellKeyed now cra :
  wellKeyed (regionMap cra) → wellKeyed (regionMap (update now cra)).
Proof.
  intros Hwk.
  destruct (GetPoolInfo (metaCache cra) PoolNameReserve) as [reservePoolInfo|] eqn:Hr.
  - destruct (update_shape now cra) as (Hsh & _); [by eexists|].
    eapply shape_wellKeyed; [exact Hsh|]. by apply assignContainersToRegions_wellKeyed.
  - by rewrite update_reserve_missing.
Qed.

(** C8: at the end of the assignment phase of every cycle, and hence at the
    end of the cycle, the region map holds no region whose container set is
    empty. *)
Theorem no_empty_region_after_assignment cra :
  noEmptyRegion (regionMap (assignContainersToRegions cra).1) ∧
  ∀ now, is_Some (GetPoolInfo (metaCache cra) PoolNameReserve) →
         noEmptyRegion (regionMap (update now cra)).
Proof.
  destruct (assignContainersToRegions_facts cra) as (_ & _ & _ & _ & _ & _ & Hne & _).
  split; [done|]. intros now Hr.
  destruct (update_shape now cra Hr) as (Hsh & _).
  by eapply shape_noEmptyRegion.
Qed.

(** C5: at the end of every cycle that saw the reserve pool, so of every
    successful cycle, the binding NUMA set of each share region of the
    region map is the system NUMA set minus the NUMAs bound by the
    dedicated_numa_exclusive regions of the region map, and so is the
    advisor's non-binding NUMA set; neither depends on what these sets were
    before the cycle. *)
Theorem share_regions_bind_non_binding_numas now cra :
  is_Some (GetPoolInfo (metaCache cra) PoolNameReserve) →
  nonBindingNumas (update now cra)
  = systemNumas cra ∖ exclusiveNumas (regionMap (update now cra)) ∧
  ∀ k r, regionMap (update now cra) !! k = Some r →
         rType r = QoSRegionTypeShare →
         GetBindingNumas r
         = systemNumas cra ∖ exclusiveNumas (regionMap (update now cra)).
Proof.
  intros Hr.
  destruct (assignContainersToRegions_facts cra)
    as (_ & _ & Hsys & _ & _ & _ & _ & Hnb & Hshare).
  destruct (update_shape now cra Hr) as (Hsh & _ & Hnb').
  rewrite (shape_exclusiveNumas _ _ Hsh), Hnb', Hnb, Hsys.
  split; [done|]. intros k r' Hk Hs.
  destruct (shape_lookup _ _ k r' Hsh Hk) as (r & Hkr & Hshape).
  apply regionShape_inv in Hshape as (_ & Ht & _ & Hb).
  rewrite Hb, <- Hsys, <- Hnb.
  apply (Hshare k r Hkr). congruence.
Qed.

(** ** The events of a cycle *)

Lemma logs_silent (logs : list Event) :
  Forall (λ e, isLog e = true) logs →
  sentPlans logs = [] ∧ publishedEntries logs = [] ∧
  provisionEpisodes logs = [] ∧ headroomEpisodes logs = [].
Proof.
  induction 1 as [|e logs He _ (IH1 & IH2 & IH3 & IH4)]; [done|].
  destruct e; try discriminate He.
  cbn. repeat split; assumption.
Qed.

Lemma provisionEpisodes_silent (names : list string) :
  sentPlans (EvTryUpdateProvision <$> names) = [] ∧
  publishedEntries (EvTryUpdateProvision <$> names) = [] ∧
  provisionEpisodes (EvTryUpdateProvision <$> names) = names ∧
  headroomEpisodes (EvTryUpdateProvision <$> names) = [].
Proof.
  unfold sentPlans, publishedEntries, provisionEpisodes, headroomEpisodes.
  induction names as [|n names (IH1 & IH2 & IH3 & IH4)]; [done|].
  cbn. repeat split; try assumption. f_equal. assumption.
Qed.

(** The trace up to the point where the region entries are assembled. *)
Lemma afterProvision_trace cra reservePoolInfo :
  ∃ pre, trace (afterProvision cra reservePoolInfo) = trace cra ++ pre ∧
         sentPlans pre = [] ∧ publishedEntries pre = [] ∧ headroomEpisodes pre = [] ∧
         provisionEpisodes pre = (map_to_list (regionMap (assignContainersToRegions cra).1)).*1.
Proof.
  destruct (assignContainersToRegions_facts cra)
    as (_ & _ & _ & _ & _ & (logs & Htr & Hlogs) & _).
  destruct (afterProvision_fields cra reservePoolInfo) as (_ & _ & _ & _ & _ & _ & _ & Htr3).
  apply logs_silent in Hlogs as (L1 & L2 & L3 & L4).
  set (names := (map_to_list (regionMap (assignContainersToRegions cra).1)).*1) in *.
  destruct (provisionEpisodes_silent names) as (E1 & E2 & E3 & E4).
  exists (logs ++ [EvLog LInfo "region map" names] ++ (EvTryUpdateProvision <$> names)).
  split.
  { rewrite Htr3, Htr, <- app_assoc. reflexivity. }
  unfold sentPlans, publishedEntries, provisionEpisodes, headroomEpisodes in *.
  rewrite !omap_app, L1, L2, L3, L4, E1, E2, E3, E4. by repeat split.
Qed.

Lemma cycleEvents_eq now cra evs :
  trace (update now cra) = trace cra ++ evs → cycleEvents now cra = evs.
Proof. intros Ht. unfold cycleEvents. by rewrite Ht, drop_app_length. Qed.

(** ** Region entries *)

Lemma regionEntriesLoop_ok l : ∀ acc,
  (∀ kr, kr ∈ l → ∃ controlKnob, GetProvision kr.2 = Ok controlKnob) →
  ∃ entries, regionEntriesLoop l acc = Ok entries ∧
             dom entries = list_to_set l.*1 ∪ dom acc.
Proof.
  induction l as [|[k r] l IH]; intros acc Hok; simpl.
  - exists acc. split; [done|]. by rewrite (left_id_L ∅ (∪)).
  - destruct (Hok (k, r) (list_elem_of_here _ _)) as [ck Hck]. simpl in Hck. rewrite Hck.
    destruct (IH (<[k := regionInfoOf r ck]> acc)) as (entries & He & Hd).
    { intros kr Hkr. apply Hok. by apply list_elem_of_further. }
    exists entries. split; [done|].
    change (list_fmap _ _ fst l) with (l.*1).
    rewrite Hd, dom_insert_L, (assoc_L (∪)). f_equal. apply (comm_L (∪)).
Qed.

Lemma regionEntriesLoop_err l : ∀ acc kr e,
  kr ∈ l → GetProvision kr.2 = Err e →
  ∃ e', regionEntriesLoop l acc = Err e'.
Proof.
  induction l as [|[k r] l IH]; intros acc kr e Hin He; [by apply elem_of_nil in Hin|].
  simpl. destruct (GetProvision r) as [ck|e0] eqn:Hr; [|by eexists].
  apply elem_of_cons in Hin as [->|Hin]; [simpl in He; congruence|].
  by eapply IH.
Qed.

Lemma assembleRegionEntries_ok cra :
  (∀ k r, regionMap cra !! k = Some r → ∃ controlKnob, GetProvision r = Ok controlKnob) →
  ∃ entries, assembleRegionEntries cra = Ok entries ∧ dom entries = dom (regionMap cra).
Proof.
  intros Hok. unfold assembleRegionEntries.
  destruct (regionEntriesLoop_ok (map_to_list (regionMap cra)) ∅) as (entries & He & Hd).
  { intros [k r] Hkr. apply elem_of_map_to_list in Hkr. by apply (Hok k). }
  exists entries. split; [done|]. rewrite Hd, dom_empty_L.
  apply set_eq. intros k.
  rewrite elem_of_union, elem_of_list_to_set, elem_of_dom, list_elem_of_fmap. split.
  - intros [([k' r] & -> & Hkr)|Hk]; [|by apply not_elem_of_empty in Hk].
    apply elem_of_map_to_list in Hkr. by exists r.
  - intros [r Hr]. left. exists (k, r). split; [done|]. by apply elem_of_map_to_list.
Qed.

Lemma assembleRegionEntries_err cra k r e :
  regionMap cra !! k = Some r → GetProvision r = Err e →
  ∃ e', assembleRegionEntries cra = Err e'.
Proof.
  intros Hk He. unfold assembleRegionEntries.
  apply (regionEntriesLoop_err _ ∅ (k, r) e); [|done]. by apply elem_of_map_to_list.
Qed.

(** ** Cycles that end early *)

(** C1 (amended): in a cycle that starts within the start-up window, with
    the reserve pool present, the assignment succeeding and every region
    able to give its provision, the plan is not sent, the region entries of
    exactly the regions of the region map are handed to the MetaCache, and
    the cycle returns there: no headroom policy runs, the regions are left
    as the provision episodes made them. *)
Theorem startup_cycle_publishes_and_returns now cra reservePoolInfo :
  GetPoolInfo (metaCache cra) PoolNameReserve = Some reservePoolInfo →
  (assignContainersToRegions cra).2 = None →
  now < startTime cra + startUpPeriod →
  (∀ k r, regionMap (afterProvision cra reservePoolInfo) !! k = Some r →
          ∃ controlKnob, GetProvision r = Ok controlKnob) →
  ∃ entries,
    assembleRegionEntries (afterProvision cra reservePoolInfo) = Ok entries ∧
    dom entries = dom (regionMap (update now cra)) ∧
    regionEntries (metaCache (update now cra)) = entries ∧
    publishedEntries (cycleEvents now cra) = [entries] ∧
    sentPlans (cycleEvents now cra) = [] ∧
    headroomEpisodes (cycleEvents now cra) = [] ∧
    regionMap (update now cra) = regionMap (afterProvision cra reservePoolInfo).
Proof.
  intros Hr Ha Hnow Hok.
  destruct (assembleRegionEntries_ok _ Hok) as (entries & He & Hd).
  destruct (afterProvision_trace cra reservePoolInfo) as (pre & Htr & S1 & S2 & S3 & _).
  destruct (assignContainersToRegions_facts cra) as (_ & Hst & _).
  destruct (afterProvision_fields cra reservePoolInfo) as (_ & Hst3 & _).
  destruct (assignContainersToRegions cra) as [cra1 errs] eqn:Hassign.
  simpl in Ha. subst errs.
  exists entries. split; [done|].
  assert (update now cra
          = emit (emit (setMetaCache (afterProvision cra reservePoolInfo)
                          (UpdateRegionEntries
                             (metaCache (afterProvision cra reservePoolInfo)) entries))
                       [EvUpdateRegionEntries entries])
                 [EvLog LInfo "skip notifying cpu server: starting up" []]) as Hu.
  { rewrite (update_assign_ok now cra reservePoolInfo cra1) by done.
    cbv zeta. rewrite He. fields.
    rewrite bool_decide_eq_true_2; [done|]. fields. lia. }
  rewrite (cycleEvents_eq now cra
             (pre ++ [EvUpdateRegionEntries entries;
                      EvLog LInfo "skip notifying cpu server: starting up" []])).
  2:{ rewrite Hu. fields. rewrite Htr, <- !app_assoc. reflexivity. }
  rewrite Hu. fields.
  unfold sentPlans, publishedEntries, headroomEpisodes in *.
  rewrite !omap_app, S1, S2, S3. by repeat split.
Qed.




(** C3 (amended): if a region of the region map cannot give its provision
    when the region entries are assembled, the region stays in the region
    map, but the cycle stops there: no region entries are handed to the
    MetaCache, not even those of the other regions, and no plan is assembled
    or sent. *)
Theorem provision_error_ends_cycle now cra reservePoolInfo k r e :
  GetPoolInfo (metaCache cra) PoolNameReserve = Some reservePoolInfo →
  (assignContainersToRegions cra).2 = None →
  regionMap (afterProvision cra reservePoolInfo) !! k = Some r →
  GetProvision r = Err e →
  regionMap (update now cra) !! k = Some r ∧
  regionEntries (metaCache (update now cra)) = regionEntries (metaCache cra) ∧
  publishedEntries (cycleEvents now cra) = [] ∧
  sentPlans (cycleEvents now cra) = [] ∧
  headroomEpisodes (cycleEvents now cra) = [] ∧
  ∃ e', update now cra
        = emit (afterProvision cra reservePoolInfo)
               [EvLog LError "assemble region entries failed" [e']].
Proof.
  intros Hr Ha Hk He.
  destruct (assembleRegionEntries_err _ k r e Hk He) as [e' He'].
  destruct (afterProvision_trace cra reservePoolInfo) as (pre & Htr & S1 & S2 & S3 & _).
  destruct (assignContainersToRegions_facts cra) as (_ & _ & _ & _ & Hre & _).
  destruct (afterProvision_fields cra reservePoolInfo) as (_ & _ & _ & _ & Hmc & _).
  destruct (assignContainersToRegions cra) as [cra1 errs] eqn:Hassign.
  simpl in Ha. subst errs. fields.
  assert (update now cra
          = emit (afterProvision cra reservePoolInfo)
                 [EvLog LError "assemble region entries failed" [e']]) as Hu.
  { rewrite (update_assign_ok now cra reservePoolInfo cra1) by done.
    cbv zeta. by rewrite He'. }
  rewrite (cycleEvents_eq now cra
             (pre ++ [EvLog LError "assemble region entries failed" [e']])).
  2:{ rewrite Hu. fields. by rewrite Htr, <- app_assoc. }
  rewrite Hu. fields. rewrite Hmc, Hre.
  unfold sentPlans, publishedEntries, headroomEpisodes in *.
  rewrite !omap_app, S1, S2, S3. repeat split; try done. by exists e'.
Qed.

(** ** The provision plan *)

Lemma ToSliceInt_nil (s : CPUSet) : ToSliceInt s = [] → s = ∅.
Proof.
  unfold ToSliceInt. intros Hs.
  pose proof (merge_sort_Permutation Z.le (elements s)) as Hp.
  rewrite Hs in Hp. apply Permutation_nil_l in Hp.
  apply leibniz_equiv. by apply elements_empty_inv.
Qed.

Lemma trunc_nonneg (q : Q) : (0 <= q)%Q → 0 <= GoInt.trunc q.
Proof.
  unfold Qle, GoInt.trunc. simpl. intros Hq.
  apply Z.quot_pos; lia.
Qed.

Lemma foldr_add_nonneg (l : list Z) :
  Forall (λ z, 0 <= z) l → 0 <= foldr Z.add 0 l.
Proof. induction 1; simpl; lia. Qed.

Lemma provisionLoop_done l : ∀ entries req logs,
  (∀ kr, kr ∈ l → ∃ controlKnob, GetProvision kr.2 = Ok controlKnob) →
  (∀ kr, kr ∈ l → rType kr.2 = QoSRegionTypeDedicatedNumaExclusive →
         GetBindingNumas kr.2 ≠ ∅) →
  (∀ kr, kr ∈ l → 0 <= shareKnob kr.2) →
  0 <= req →
  req + foldr Z.add 0 ((λ kr : string * QoSRegion P, shareKnob kr.2) <$> l) < 2 ^ 63 →
  ∃ entries' logs',
    provisionLoop l entries req logs
    = (Done (entries',
             req + foldr Z.add 0 ((λ kr : string * QoSRegion P, shareKnob kr.2) <$> l)),
       logs').
Proof.
  induction l as [|[k r] l IH]; intros entries req logs Hok Hnuma Hknob Hreq Hsum.
  - simpl. rewrite Z.add_0_r. by eexists _, _.
  - assert (0 <= foldr Z.add 0 ((λ kr : string * QoSRegion P, shareKnob kr.2) <$> l))
      as Hrest.
    { apply foldr_add_nonneg, Forall_fmap, Forall_forall. intros kr Hin.
      apply Hknob. by apply list_elem_of_further. }
    pose proof (Hknob (k, r) (list_elem_of_here _ _)) as Hk0.
    destruct (Hok (k, r) (list_elem_of_here _ _)) as [ck Hck].
    rewrite fmap_cons in Hsum |- *. cbn [foldr snd] in Hsum, Hk0, Hck |- *.
    set (rest := foldr Z.add 0 (_ <$> l)) in *.
    assert (∃ entries' logs',
              provisionLoop l
                (match rType r with
                 | QoSRegionTypeShare =>
                     <[PoolNameShare := {[FakedNumaID := shareKnob r]}]> entries
                 | QoSRegionTypeDedicatedNumaExclusive =>
                     <[PoolNameReclaim :=
                         <[default 0 (head (ToSliceInt (GetBindingNumas r))) :=
                             GoInt.of_float64
                               (Value (knob ck ControlKnobReclaimedCPUSupplied))]>
                           (default ∅ (entries !! PoolNameReclaim))]> entries
                 end)
                (req + shareKnob r)
                (if decide (length (ToSliceInt (GetBindingNumas r)) = 1%nat) then logs
                 else match rType r with
                      | QoSRegionTypeShare => logs
                      | QoSRegionTypeDedicatedNumaExclusive =>
                          logs ++ [EvLog LError "region has invalid numa count" [rName r]]
                      end)
              = (Done (entries', req + shareKnob r + rest), logs')) as (entries' & logs' & Hloop).
    { apply IH.
      - intros kr Hin. apply Hok. by apply list_elem_of_further.
      - intros kr Hin. apply Hnuma. by apply list_elem_of_further.
      - intros kr Hin. apply Hknob. by apply list_elem_of_further.
      - lia.
      - fold rest. lia. }
    exists entries', logs'. rewrite Z.add_assoc, <- Hloop.
    cbn [provisionLoop]. rewrite Hck.
    unfold shareKnob in *. rewrite Hck in *.
    destruct (rType r) eqn:Ht.
    + set (v := GoInt.trunc (Value (knob ck ControlKnobNonReclaimedCPUSetSize))) in *.
      assert (GoInt.of_float64 (Value (knob ck ControlKnobNonReclaimedCPUSetSize)) = v)
        as ->.
      { unfold GoInt.of_float64. apply GoIntFacts.wrap64_id.
        unfold GoInt.in_range. fold v. lia. }
      assert (GoInt.add req v = req + v) as ->.
      { unfold GoInt.add. apply GoIntFacts.wrap64_id. unfold GoInt.in_range. lia. }
      by destruct (decide _).
    + destruct (ToSliceInt (GetBindingNumas r)) as [|regionNuma others] eqn:Hslice.
      { apply ToSliceInt_nil in Hslice. by destruct (Hnuma (k, r) (list_elem_of_here _ _)). }
      rewrite Z.add_0_r. cbn [head default]. by destruct (decide _).
Qed.

(** C4 (amended): when every region gives its provision, every
    dedicated-numa-exclusive region binds some NUMA node, the machine has a
    NUMA node, the knobs, the reserve pool size and the CPUs per NUMA are
    non-negative and no machine number overflows, the plan is assembled and
    its [PoolEntries[reclaim][-1]] is [|non_binding_numas| * cpus_per_numa]
    minus the summed [non_reclaimed_cpuset_size] knobs of the share regions
    minus [ceil (|reserve_pool| * |non_binding_numas| / total_numas)]. That
    value is non-negative when the summed knobs stay within the upper bound
    of the canonical policy for a region on the non-binding NUMA nodes,
    [|non_binding_numas| * cpus_per_numa
     - ceil (reserved_for_allocate * |non_binding_numas| / total_numas)], and
    the reserve pool is no larger than [reserved_for_allocate]. *)
Theorem reclaim_of_non_binding_numas cra :
  (∀ k r, regionMap cra !! k = Some r → ∃ controlKnob, GetProvision r = Ok controlKnob) →
  (∀ k r, regionMap cra !! k = Some r →
          rType r = QoSRegionTypeDedicatedNumaExclusive → GetBindingNumas r ≠ ∅) →
  (∀ k r controlKnob,
     regionMap cra !! k = Some r → GetProvision r = Ok controlKnob →
     (0 <= Value (knob controlKnob ControlKnobNonReclaimedCPUSetSize))%Q) →
  0 < NumNUMANodes (metaServer cra) →
  0 <= CPUsPerNuma (metaServer cra) →
  0 <= reservePoolSizeOf cra * Size (nonBindingNumas cra) < 2 ^ 53 →
  Size (nonBindingNumas cra) * CPUsPerNuma (metaServer cra) < 2 ^ 63 →
  shareRequirement (regionMap cra)
  <= Size (nonBindingNumas cra) * CPUsPerNuma (metaServer cra)
     - GoInt.ceil_div (confReservedForAllocateCPU (conf cra) * Size (nonBindingNumas cra))
                      (NumNUMANodes (metaServer cra)) →
  reservePoolSizeOf cra <= confReservedForAllocateCPU (conf cra) →
  ∃ plan logs,
    assembleProvision cra = (Done plan, logs) ∧
    reclaimOfNonBindingNumas plan = Some (reclaimBudget cra) ∧
    0 <= reclaimBudget cra.
Proof.
  intros Hok Hnuma Hknob Hn Hcpn Hprod Hmul Hbound Hreserve.
  assert (shareRequirement (regionMap cra)
          + GoInt.ceil_div (reservePoolSizeOf cra * Size (nonBindingNumas cra))
                           (NumNUMANodes (metaServer cra))
          <= Size (nonBindingNumas cra) * CPUsPerNuma (metaServer cra)) as Hfit.
  { assert (0 <= Size (nonBindingNumas cra)) by (unfold Size, GoInt.len; lia).
    pose proof (GoIntFacts.ceil_div_mono
                  (reservePoolSizeOf cra * Size (nonBindingNumas cra))
                  (confReservedForAllocateCPU (conf cra) * Size (nonBindingNumas cra))
                  (NumNUMANodes (metaServer cra)) Hn ltac:(nia)).
    lia. }
  assert (∀ kr, kr ∈ map_to_list (regionMap cra) → 0 <= shareKnob kr.2) as Hk0.
  { intros [k r] Hin. apply elem_of_map_to_list in Hin. simpl.
    unfold shareKnob. destruct (rType r); [|done].
    destruct (GetProvision r) as [ck|] eqn:Hck; [|done].
    apply trunc_nonneg. by apply (Hknob k r). }
  pose proof (GoIntFacts.ceil_div_nonneg _ _ (proj1 Hprod) Hn) as Hc0.
  pose proof (GoIntFacts.ceil_div_le _ _ (proj1 Hprod) Hn) as Hc1.
  assert (0 <= Size (nonBindingNumas cra)) as Hnb by (unfold Size, GoInt.len; lia).
  destruct (provisionLoop_done (map_to_list (regionMap cra))
              {[PoolNameReserve := {[FakedNumaID := reservePoolSizeOf cra]}]} 0 [])
    as (entries & logs & Hloop); try done.
  - intros [k r] Hin. apply elem_of_map_to_list in Hin. by apply (Hok k).
  - intros [k r] Hin. apply elem_of_map_to_list in Hin. by apply (Hnuma k).
  - fold (shareRequirement (regionMap cra)). lia.
  - fold (shareRequirement (regionMap cra)) in Hloop. rewrite Z.add_0_l in Hloop.
    eexists _, logs. split; [|split].
    + unfold assembleProvision. fold (reservePoolSizeOf cra). rewrite Hloop. reflexivity.
    + unfold reclaimOfNonBindingNumas. cbn [PoolEntries].
      rewrite lookup_insert_eq. cbn. rewrite lookup_insert_eq.
      f_equal. unfold reclaimBudget, reserveOfNonBindingNumas, GoInt.sub, GoInt.mul.
      rewrite (GoIntFacts.wrap64_id (reservePoolSizeOf cra * _))
        by (unfold GoInt.in_range; lia).
      rewrite (GoIntFacts.wrap64_id (Size _ * _)) by (unfold GoInt.in_range; nia).
      rewrite (GoIntFacts.wrap64_id (GoInt.ceil_div _ _))
        by (unfold GoInt.in_range; lia).
      assert (0 <= shareRequirement (regionMap cra)).
      { unfold shareRequirement.
        apply foldr_add_nonneg, Forall_fmap, Forall_forall. intros kr Hin. by apply Hk0. }
      rewrite (GoIntFacts.wrap64_id (_ - shareRequirement _))
        by (unfold GoInt.in_range; nia).
      apply GoIntFacts.wrap64_id. unfold GoInt.in_range. nia.
    + unfold reclaimBudget. lia.
Qed.

(** ** Checking a concrete region map *)

Lemma isOk_true {A : Type} (x : result A) : isOk x = true → ∃ a, x = Ok a.
Proof. destruct x; [by eexists|discriminate]. Qed.

Lemma map_forallb {A : Type} (f : string → A → bool) (m : gmap string A) :
  forallb (λ kv, f kv.1 kv.2) (map_to_list m) = true →
  ∀ k v, m !! k = Some v → f k v = true.
Proof.
  intros Hf k v Hk. rewrite forallb_forall in Hf.
  apply (Hf (k, v)). by apply list_elem_of_In, elem_of_map_to_list.
Qed.

End Properties.

(** * The properties on concrete nodes *)


Section Concrete.
Import Scenario.

(** The one region of a node that has a single region. *)
Local Ltac only_region Hk :=
  unfold dedicatedNode, shareNode in Hk; cbn [regionMap] in Hk;
  apply lookup_singleton_Some in Hk as [_ <-].

(** S1: the empty node has headroom 16 - 2. *)
Lemma GetHeadroom_no_region_witness :
  regionMap emptyNode = ∅ ∧
  GetPoolSize (metaCache emptyNode) PoolNameReserve = Some 2 ∧
  GetHeadroom emptyNode = Ok 14.
Proof.
  split; [reflexivity|]. split; [vm_compute; reflexivity|].
  apply (GetHeadroom_no_region emptyNode 2).
  - reflexivity.
  - vm_compute; reflexivity.
  - unfold GoInt.in_range. simpl. lia.
Defined.

(** S3 and S2: a node with one dedicated region has headroom
    [0 + 8 - ceil (2 * 1 / 2) = 7]; with a share region of headroom 11 the
    headroom is 11. *)
Lemma GetHeadroom_sum_of_regions_witness :
  GetHeadroom dedicatedNode = Ok 7 ∧
  GetHeadroom (shareNode reservePool 3 11) = Ok 11.
Proof.
  split.
  - apply (GetHeadroom_sum_of_regions dedicatedNode 2 (λ _, 0)).
    + intros He. apply (f_equal size) in He. vm_compute in He. discriminate.
    + vm_compute; reflexivity.
    + intros k r Hk. only_region Hk. reflexivity.
    + simpl. lia.
    + vm_compute. split; [discriminate|reflexivity].
    + vm_compute. split; [discriminate|reflexivity].
    + vm_compute. split; [discriminate|reflexivity].
    + intros k r Hk. only_region Hk. discriminate.
  - apply (GetHeadroom_sum_of_regions (shareNode reservePool 3 11) 2 (λ _, 11)).
    + intros He. apply (f_equal size) in He. vm_compute in He. discriminate.
    + vm_compute; reflexivity.
    + intros k r Hk. only_region Hk. reflexivity.
    + simpl. lia.
    + vm_compute. split; [discriminate|reflexivity].
    + vm_compute. split; [discriminate|reflexivity].
    + vm_compute. split; [discriminate|reflexivity].
    + exists "share-0", (shareRegion "share-0"
               (mkFixedPolicy (Ok (knobOf ControlKnobNonReclaimedCPUSetSize 3))
                              (Ok 11) 1 1)).
      split; [apply lookup_singleton_eq|reflexivity].
Defined.

(** S5: without a reserve pool the getter fails. *)
Lemma GetHeadroom_reserve_pool_missing_witness :
  GetPoolInfo (metaCache noReserveNode) PoolNameReserve = None ∧
  GetHeadroom noReserveNode = Err "reserve pool not exist".
Proof.
  split; [vm_compute; reflexivity|].
  apply (GetHeadroom_reserve_pool_missing oneMinute noReserveNode).
  vm_compute; reflexivity.
Defined.

(** S5: without a reserve pool the cycle changes nothing. *)
Lemma update_reserve_pool_missing_noop_witness :
  GetPoolInfo (metaCache noReserveNode) PoolNameReserve = None ∧
  regionMap (update oneMinute noReserveNode) = regionMap noReserveNode ∧
  nonBindingNumas (update oneMinute noReserveNode) = nonBindingNumas noReserveNode ∧
  metaCache (update oneMinute noReserveNode) = metaCache noReserveNode ∧
  cycleEvents oneMinute noReserveNode
  = [EvLog LWarning "skip update: reserve pool not exist" []].
Proof.
  split; [vm_compute; reflexivity|].
  apply (update_reserve_pool_missing_noop oneMinute noReserveNode).
  vm_compute; reflexivity.
Defined.

Lemma no_empty_region_after_assignment_witness :
  is_Some (GetPoolInfo (metaCache mixedNode) PoolNameReserve) ∧
  noEmptyRegion (regionMap (update oneMinute mixedNode)).
Proof.
  assert (is_Some (GetPoolInfo (metaCache mixedNode) PoolNameReserve)) as Hr.
  { exists reservePool. vm_compute; reflexivity. }
  split; [exact Hr|].
  exact (proj2 (no_empty_region_after_assignment mixedNode) oneMinute Hr).
Defined.

Lemma share_regions_bind_non_binding_numas_witness :
  is_Some (GetPoolInfo (metaCache mixedNode) PoolNameReserve) ∧
  nonBindingNumas (update oneMinute mixedNode)
  = systemNumas mixedNode ∖ exclusiveNumas (regionMap (update oneMinute mixedNode)) ∧
  ∀ k r, regionMap (update oneMinute mixedNode) !! k = Some r →
         rType r = QoSRegionTypeShare →
         GetBindingNumas r
         = systemNumas mixedNode ∖ exclusiveNumas (regionMap (update oneMinute mixedNode)).
Proof.
  assert (is_Some (GetPoolInfo (metaCache mixedNode) PoolNameReserve)) as Hr.
  { exists reservePool. vm_compute; reflexivity. }
  split; [exact Hr|].
  exact (share_regions_bind_non_binding_numas oneMinute mixedNode Hr).
Defined.

(** On the mixed node the dedicated region takes NUMA node 0 and the share
    region is left with NUMA node 1. *)
Example mixedNode_non_binding :
  nonBindingNumas (update oneMinute mixedNode) = {[ 1 ]} ∧
  GetBindingNumas <$> regionMap (update oneMinute mixedNode)
  = {[ "dedicated_numa_exclusive-0" := {[ 0 ]}; "share-1" := {[ 1 ]} ]}.
Proof. split; vm_compute; reflexivity. Qed.

(** S4: ten seconds after construction the entries of the new share region
    are published and nothing is sent. *)
Lemma startup_cycle_publishes_and_returns_witness :
  ∃ entries,
    assembleRegionEntries (afterProvision freshShareNode reservePool) = Ok entries ∧
    dom entries = dom (regionMap (update tenSeconds freshShareNode)) ∧
    regionEntries (metaCache (update tenSeconds freshShareNode)) = entries ∧
    publishedEntries (cycleEvents tenSeconds freshShareNode) = [entries] ∧
    sentPlans (cycleEvents tenSeconds freshShareNode) = [] ∧
    headroomEpisodes (cycleEvents tenSeconds freshShareNode) = [] ∧
    regionMap (update tenSeconds freshShareNode)
    = regionMap (afterProvision freshShareNode reservePool).
Proof.
  apply (startup_cycle_publishes_and_returns tenSeconds freshShareNode reservePool).
  - vm_compute; reflexivity.
  - vm_compute; reflexivity.
  - vm_compute; reflexivity.
  - intros k r Hk. apply isOk_true.
    refine (map_forallb (λ _ r, isOk (GetProvision r))
              (regionMap (afterProvision freshShareNode reservePool)) _ k r Hk).
    vm_compute; reflexivity.
Defined.

(** C1 fails on the code: the cycle of S4 creates the region [share-0] and
    publishes its entries, but no headroom policy runs in it; and on the node
    whose dedicated region cannot give its provision, a cycle in the start-up
    window publishes no region entries although the reserve pool is present
    and the assignment succeeds. *)
Lemma startup_cycle_skips_headroom :
  (GetPoolInfo (metaCache freshShareNode) PoolNameReserve = Some reservePool ∧
   (assignContainersToRegions freshShareNode).2 = None ∧
   tenSeconds < startTime freshShareNode + startUpPeriod ∧
   "share-0" ∈ dom (regionMap (update tenSeconds freshShareNode)) ∧
   ¬ (∀ k, k ∈ dom (regionMap (update tenSeconds freshShareNode)) →
           k ∈ headroomEpisodes (cycleEvents tenSeconds freshShareNode))) ∧
  (GetPoolInfo (metaCache failingNode) PoolNameReserve = Some reservePool ∧
   (assignContainersToRegions failingNode).2 = None ∧
   tenSeconds < startTime failingNode + startUpPeriod ∧
   publishedEntries (cycleEvents tenSeconds failingNode) = []).
Proof.
  split.
  - assert ("share-0" ∈ dom (regionMap (update tenSeconds freshShareNode))) as Hd.
    { apply elem_of_dom. eexists. vm_compute; reflexivity. }
    split; [vm_compute; reflexivity|]. split; [vm_compute; reflexivity|].
    split; [vm_compute; reflexivity|]. split; [exact Hd|].
    intros Hall. specialize (Hall "share-0" Hd).
    assert (headroomEpisodes (cycleEvents tenSeconds freshShareNode) = []) as He
      by (vm_compute; reflexivity).
    rewrite He in Hall. by apply elem_of_nil in Hall.
  - repeat split; vm_compute; reflexivity.
Qed.



Lemma provision_error_ends_cycle_witness :
  ∃ r, regionMap (update oneMinute failingNode) !! "dedicated_numa_exclusive-1" = Some r ∧
       GetProvision r = Err "provision not ready" ∧
       regionEntries (metaCache (update oneMinute failingNode))
       = regionEntries (metaCache failingNode) ∧
       publishedEntries (cycleEvents oneMinute failingNode) = [] ∧
       sentPlans (cycleEvents oneMinute failingNode) = [].
Proof.
  eexists.
  edestruct (provision_error_ends_cycle oneMinute failingNode reservePool
               "dedicated_numa_exclusive-1") as (Hk & Hre & Hp & Hs & _).
  - vm_compute; reflexivity.
  - vm_compute; reflexivity.
  - vm_compute; reflexivity.
  - vm_compute; reflexivity.
  - split; [exact Hk|]. split; [vm_compute; reflexivity|].
    split; [exact Hre|]. split; [exact Hp|exact Hs].
Defined.

(** C3 fails on the code: only the dedicated region of the node fails to
    give its provision, yet the entries of the share region are not
    published either. *)
Lemma provision_error_publishes_nothing :
  GetPoolInfo (metaCache failingNode) PoolNameReserve = Some reservePool ∧
  (assignContainersToRegions failingNode).2 = None ∧
  isOk ∘ GetProvision <$> regionMap (afterProvision failingNode reservePool)
  = {[ "share-0" := true; "dedicated_numa_exclusive-1" := false ]} ∧
  publishedEntries (cycleEvents oneMinute failingNode) = [] ∧
  regionEntries (metaCache (update oneMinute failingNode)) !! "share-0" = None.
Proof. repeat split; vm_compute; reflexivity. Qed.

(** S2: with a knob of 3 CPUs and a reserve pool of 2 the reclaim pool of
    the non-binding NUMA nodes gets [16 - 3 - 2 = 11] CPUs. *)
Lemma reclaim_of_non_binding_numas_witness :
  ∃ plan logs,
    assembleProvision (shareNode reservePool 3 11) = (Done plan, logs) ∧
    reclaimOfNonBindingNumas plan = Some 11 ∧ 0 <= 11.
Proof.
  assert (reclaimBudget (shareNode reservePool 3 11) = 11) as Hb
    by (vm_compute; reflexivity).
  rewrite <- Hb.
  apply (reclaim_of_non_binding_numas (shareNode reservePool 3 11)).
  - intros k r Hk. only_region Hk. by eexists.
  - intros k r Hk. only_region Hk. discriminate.
  - intros k r ck Hk. only_region Hk. intros [= <-]. vm_compute. discriminate.
  - simpl. lia.
  - simpl. lia.
  - vm_compute. split; [discriminate|reflexivity].
  - vm_compute. reflexivity.
  - vm_compute. discriminate.
  - vm_compute. discriminate.
Defined.

(** C4 fails on the code: every input is non-negative and reclaim is
    enabled, the share region keeps 12 CPUs out of reclaim and the reserve
    pool has 8 CPUs, so the plan carries [16 - 12 - 8 = -4] as
    [PoolEntries[reclaim][-1]]. *)
Lemma reclaim_of_non_binding_numas_negative :
  confEnableReclaim (conf (shareNode largeReservePool 12 0)) = true ∧
  GetPoolSize (metaCache (shareNode largeReservePool 12 0)) PoolNameReserve = Some 8 ∧
  GetProvision <$> regionMap (shareNode largeReservePool 12 0)
  = {[ "share-0" := Ok (knobOf ControlKnobNonReclaimedCPUSetSize 12) ]} ∧
  ∃ plan,
    assembleProvision (shareNode largeReservePool 12 0) = (Done plan, []) ∧
    sentPlans (cycleEvents oneMinute (shareNode largeReservePool 12 0)) = [plan] ∧
    reclaimOfNonBindingNumas plan = Some (-4) ∧
    ¬ (∃ v, reclaimOfNonBindingNumas plan = Some v ∧ 0 <= v).
Proof.
  split; [reflexivity|]. split; [vm_compute; reflexivity|].
  split; [vm_compute; reflexivity|].
  eexists. split; [vm_compute; reflexivity|].
  split; [vm_compute; reflexivity|].
  split; [vm_compute; reflexivity|].
  intros (v & Hv & Hpos). vm_compute in Hv. injection Hv as <-. lia.
Qed.

End Concrete.

(** * Further properties of the advisor *)

Section Coverage.
Context {P : Type} `{RegionPolicy P}.

Implicit Types (cra : cpuResourceAdvisor P) (r : QoSRegion P) (ci : ContainerInfo).
Implicit Types (rm : gmap string (QoSRegion P)).

(** ** Looking regions up by name *)

Lemma findRegions_ok rm names :
  (∀ n, n ∈ names → is_Some (rm !! n)) →
  ∃ regions, findRegions rm names = Ok regions ∧
             Forall2 (λ n r, rm !! n = Some r) names regions.
Proof.
  induction names as [|n names IH]; intros Hall.
  - exists []. by split.
  - destruct (Hall n (list_elem_of_here _ _)) as [r Hr].
    destruct IH as (regions & Hf & Hall2).
    { intros m Hm. apply Hall. by apply list_elem_of_further. }
    exists (r :: regions). cbn [findRegions]. rewrite Hr, Hf. split; [done|].
    by constructor.
Qed.

Lemma findRegions_Ok_inv rm names regions :
  findRegions rm names = Ok regions →
  Forall2 (λ n r, rm !! n = Some r) names regions.
Proof.
  revert regions. induction names as [|n names IH]; intros regions Hf.
  - cbn in Hf. injection Hf as <-. constructor.
  - cbn [findRegions] in Hf. destruct (rm !! n) as [r|] eqn:Hr; [|discriminate].
    destruct (findRegions rm names) as [rs|] eqn:Hrs; [|discriminate].
    injection Hf as <-. constructor; [done|]. by apply IH.
Qed.

Lemma findRegions_err rm names n :
  n ∈ names → rm !! n = None →
  ∃ m, findRegions rm names = Err ("failed to find region " +:+ m) ∧
       m ∈ names ∧ rm !! m = None.
Proof.
  induction names as [|n' names IH]; intros Hin Hn; [by apply elem_of_nil in Hin|].
  cbn [findRegions]. destruct (rm !! n') as [r|] eqn:Hr.
  - apply elem_of_cons in Hin as [->|Hin]; [congruence|].
    destruct (IH Hin Hn) as (m & Hf & Hm & Hnone).
    exists m. rewrite Hf. split; [done|]. split; [by apply list_elem_of_further|done].
  - exists n'. split; [done|]. split; [apply list_elem_of_here|done].
Qed.

Lemma found_names rm names regions :
  wellKeyed rm → Forall2 (λ n r, rm !! n = Some r) names regions →
  rName <$> regions = names.
Proof.
  intros Hwk. induction 1 as [|n r names regions Hn _ IH]; [done|].
  cbn. by rewrite IH, (Hwk n r Hn).
Qed.

(** X1: when every region a container names sits in a well-keyed region map,
    [getContainerRegions] returns these regions without an error, and writing
    them back with [setContainerRegions] gives the container as it was. *)
Theorem getContainerRegions_round_trip cra ci :
  wellKeyed (regionMap cra) →
  ciRegionNames ci ⊆ dom (regionMap cra) →
  ∃ regions,
    getContainerRegions cra ci = Ok regions ∧
    (∀ r, r ∈ regions → rName r ∈ ciRegionNames ci ∧ regionMap cra !! rName r = Some r) ∧
    length regions = size (ciRegionNames ci) ∧
    setContainerRegions ci regions = ci.
Proof.
  intros Hwk Hsub. unfold getContainerRegions.
  destruct (findRegions_ok (regionMap cra) (elements (ciRegionNames ci)))
    as (regions & Hf & Hall).
  { intros n Hn. apply elem_of_dom, Hsub. by apply elem_of_elements. }
  pose proof (found_names _ _ _ Hwk Hall) as Hnames.
  exists regions. split; [done|]. split; [|split].
  - intros r Hr. apply list_elem_of_lookup in Hr as [i Hi].
    destruct (Forall2_lookup_r _ _ _ _ _ Hall Hi) as (n & Hn & Hlook).
    rewrite (Hwk n r Hlook). split; [|done].
    apply elem_of_elements. by eapply list_elem_of_lookup_2.
  - by rewrite <- (Forall2_length _ _ _ Hall).
  - unfold setContainerRegions. rewrite Hnames, list_to_set_elements_L. by destruct ci.
Qed.

(** X2: a NUMA-binding container that is not shared-cores and names a region
    the region map does not hold is skipped: its sync appends the one error
    "failed to find region ..." for a missing name, creates no region, and
    leaves the container and the advisor as they were. *)
Theorem syncContainer_stale_region cra ci errList n :
  ciQoSLevel ci ≠ PodAnnotationQoSLevelSharedCores →
  ciNumaBinding ci = true →
  n ∈ ciRegionNames ci → regionMap cra !! n = None →
  ∃ m, m ∈ ciRegionNames ci ∧ regionMap cra !! m = None ∧
       syncContainer ci (cra, errList)
       = (ci, (cra, errList ++ ["failed to find region " +:+ m]), true).
Proof.
  intros Hq Hb Hn Hnone.
  destruct (findRegions_err (regionMap cra) (elements (ciRegionNames ci)) n)
    as (m & Hf & Hm & Hmnone); [by apply elem_of_elements|done|].
  exists m. split; [by apply elem_of_elements|]. split; [done|].
  unfold syncContainer, assignToRegions.
  rewrite decide_False by done. rewrite Hb.
  unfold getContainerRegions. by rewrite Hf.
Qed.

(** ** Pools and their regions *)

(** X3: for a pool the MetaCache holds, [setPoolRegions] returns what
    persisting the pool entries it has written gives, an error or none;
    either way the pool then names exactly the regions handed over and keeps
    its name and its CPU assignment, and when these are regions of a
    well-keyed region map [getPoolRegions] finds exactly them again. *)
Theorem setPoolRegions_getPoolRegions cra poolName pool regions :
  GetPoolInfo (metaCache cra) poolName = Some pool →
  wellKeyed (regionMap cra) →
  (∀ r, r ∈ regions → regionMap cra !! rName r = Some r) →
  (setPoolRegions cra poolName regions).2
  = persistErr (metaCache cra)
      (poolEntries (metaCache (setPoolRegions cra poolName regions).1)) ∧
  (∃ pool', GetPoolInfo (metaCache (setPoolRegions cra poolName regions).1) poolName
            = Some pool' ∧
            poolIdentity pool' = poolIdentity pool ∧
            RegionNames pool' = list_to_set (rName <$> regions)) ∧
  ∃ regions',
    getPoolRegions (setPoolRegions cra poolName regions).1 poolName = Ok regions' ∧
    ∀ r, r ∈ regions' ↔ r ∈ regions.
Proof.
  intros Hp Hwk Hin. unfold setPoolRegions, SetPoolInfo. rewrite Hp. cbn [fst snd].
  fields. cbn [poolEntries].
  split; [done|]. split.
  { eexists. unfold GetPoolInfo. fields. cbn [poolEntries].
    rewrite lookup_insert_eq. by repeat split. }
  unfold getPoolRegions, GetPoolInfo. fields. cbn [poolEntries].
  rewrite lookup_insert_eq. cbn [RegionNames].
  destruct (findRegions_ok (regionMap cra)
              (elements (list_to_set (C := gset string) (rName <$> regions))))
    as (regions' & Hf & Hall).
  { intros n Hn. apply elem_of_elements, elem_of_list_to_set, list_elem_of_fmap in Hn
      as (r & -> & Hr). rewrite (Hin r Hr). by eexists. }
  exists regions'. split; [done|]. intros r. split.
  - intros Hr. apply list_elem_of_lookup in Hr as [i Hi].
    destruct (Forall2_lookup_r _ _ _ _ _ Hall Hi) as (n & Hn & Hlook).
    apply list_elem_of_lookup_2, elem_of_elements, elem_of_list_to_set,
      list_elem_of_fmap in Hn as (r0 & -> & Hr0).
    rewrite (Hin r0 Hr0) in Hlook. by injection Hlook as <-.
  - intros Hr.
    assert (rName r ∈ elements (list_to_set (C := gset string) (rName <$> regions)))
      as Hn.
    { apply elem_of_elements, elem_of_list_to_set, list_elem_of_fmap. eauto. }
    apply list_elem_of_lookup in Hn as [i Hi].
    destruct (Forall2_lookup_l _ _ _ _ _ Hall Hi) as (r' & Hr' & Hlook).
    rewrite (Hin r Hr) in Hlook. injection Hlook as <-.
    by eapply list_elem_of_lookup_2.
Qed.

(** ** What a cycle never changes *)

Lemma emit_emit cra evs1 evs2 : emit (emit cra evs1) evs2 = emit cra (evs1 ++ evs2).
Proof. unfold emit. fields. by rewrite app_assoc. Qed.

(** The states a cycle can end in. *)
Lemma update_elim now cra (Q : cpuResourceAdvisor P → Prop) :
  (∀ evs, Q (emit cra evs)) →
  (∀ evs, Q (emit (assignContainersToRegions cra).1 evs)) →
  (∀ reservePoolInfo evs, Q (emit (afterProvision cra reservePoolInfo) evs)) →
  (∀ reservePoolInfo entries evs,
     Q (emit (setMetaCache (afterProvision cra reservePoolInfo)
                (UpdateRegionEntries (metaCache (afterProvision cra reservePoolInfo))
                   entries)) evs)) →
  (∀ reservePoolInfo entries evs,
     Q (updateHeadrooms
          (emit (setMetaCache (afterProvision cra reservePoolInfo)
                   (UpdateRegionEntries (metaCache (afterProvision cra reservePoolInfo))
                      entries)) evs))) →
  Q (update now cra).
Proof.
  intros Q1 Q2 Q3 Q4 Q5.
  destruct (GetPoolInfo (metaCache cra) PoolNameReserve) as [reservePoolInfo|] eqn:Hr.
  2:{ rewrite update_reserve_missing by done. apply Q1. }
  destruct (assignContainersToRegions cra) as [cra1 [errs|]] eqn:Ha.
  { rewrite (update_assign_failed now cra reservePoolInfo cra1 errs) by done.
    apply (Q2 [EvLog LError "assign containers to regions failed" errs]). }
  rewrite (update_assign_ok now cra reservePoolInfo cra1) by done. cbv zeta.
  destruct (assembleRegionEntries _) as [entries|e]; [|apply Q3].
  case_bool_decide.
  { rewrite emit_emit. apply Q4. }
  destruct (assembleProvision _) as [[provision|e|msg] logs]; rewrite emit_emit;
    [apply Q5|apply Q4..].
Qed.

Lemma assignToRegions_metaCache cra ci :
  metaCache (assignToRegions cra ci).2 = metaCache cra ∧
  (uuidCount cra ≤ uuidCount (assignToRegions cra ci).2)%nat.
Proof.
  unfold assignToRegions.
  destruct (decide _).
  - destruct (getPoolRegions _ _); [|done]. case_bool_decide; [done|].
    unfold NewUUID. fields. split; [done|lia].
  - destruct (ciNumaBinding ci); [|done].
    destruct (getContainerRegions _ _) as [regions|]; [|done].
    case_bool_decide; [done|].
    assert (∀ numaIDs cra0 owner rs,
              metaCache (newDedicatedRegions cra0 owner numaIDs rs).2 = metaCache cra0 ∧
              (uuidCount cra0 ≤ uuidCount (newDedicatedRegions cra0 owner numaIDs rs).2)%nat)
      as Hn.
    { induction numaIDs as [|numaID numaIDs IH]; intros cra0 owner rs; [done|].
      cbn [newDedicatedRegions]. unfold NewUUID at 1 2.
      match goal with
      | |- context [newDedicatedRegions ?c ?o numaIDs ?l] =>
          destruct (IH c o l) as [IH1 IH2]
      end.
      rewrite IH1. split; [done|]. fields. lia. }
    specialize (Hn ((map_to_list (ciTopologyAwareAssignments ci)).*1)
                   cra (ciOwnerPoolName ci) regions).
    by destruct (newDedicatedRegions _ _ _ _).
Qed.

Lemma addToRegions_metaCache ci regions : ∀ cra,
  metaCache (addToRegions ci regions cra).1 = metaCache cra ∧
  uuidCount (addToRegions ci regions cra).1 = uuidCount cra.
Proof.
  induction regions as [|r regions IH]; intros cra; [done|].
  cbn [addToRegions AddContainer].
  match goal with
  | |- context [addToRegions ci regions ?c] => destruct (IH c) as [IH1 IH2]
  end.
  by rewrite IH1, IH2.
Qed.

Lemma setPoolRegions_identity cra poolName regions :
  poolIdentity <$> poolEntries (metaCache (setPoolRegions cra poolName regions).1)
  = poolIdentity <$> poolEntries (metaCache cra) ∧
  uuidCount (setPoolRegions cra poolName regions).1 = uuidCount cra.
Proof.
  unfold setPoolRegions, GetPoolInfo, SetPoolInfo.
  destruct (poolEntries (metaCache cra) !! poolName) as [pool|] eqn:Hp; [|done].
  fields. cbn [poolEntries]. split; [|done].
  rewrite fmap_insert. apply insert_id. by rewrite lookup_fmap, Hp.
Qed.

Lemma syncContainer_identity ci cra errList :
  containerIdentity (syncContainer ci (cra, errList)).1.1 = containerIdentity ci ∧
  poolIdentity <$> poolEntries (metaCache (syncContainer ci (cra, errList)).1.2.1)
  = poolIdentity <$> poolEntries (metaCache cra) ∧
  (uuidCount cra ≤ uuidCount (syncContainer ci (cra, errList)).1.2.1)%nat.
Proof.
  unfold syncContainer.
  destruct (assignToRegions_metaCache cra ci) as [H1 U1].
  destruct (assignToRegions cra ci) as [[regions err] cra1]. cbn [snd] in H1, U1.
  destruct regions as [|r regions]; [cbn [fst snd]; by rewrite H1|].
  destruct (addToRegions_metaCache ci (r :: regions) cra1) as [H2 U2].
  destruct (addToRegions ci (r :: regions) cra1) as [cra2 [e|]]; cbn [fst snd] in *.
  { rewrite H2, H1. repeat split; try done; lia. }
  destruct (decide _); cbn [fst snd].
  { rewrite H2, H1. repeat split; try done; lia. }
  destruct (setPoolRegions_identity cra2
              (ciOwnerPoolName (setContainerRegions ci (r :: regions))) (r :: regions))
    as [H3 U3].
  destruct (setPoolRegions _ _ _) as [cra3 [e|]]; cbn [fst snd] in *;
    rewrite H3, H2, H1; (repeat split; try done; lia).
Qed.

Lemma rangeContainers_identity cs : ∀ cra errList,
  containerIdentity <$> (rangeContainers syncContainer cs (cra, errList)).1
  = containerIdentity <$> cs ∧
  poolIdentity <$> poolEntries (metaCache (rangeContainers syncContainer cs (cra, errList)).2.1)
  = poolIdentity <$> poolEntries (metaCache cra) ∧
  (uuidCount cra ≤ uuidCount (rangeContainers syncContainer cs (cra, errList)).2.1)%nat.
Proof.
  induction cs as [|ci cs IH]; intros cra errList; [done|].
  cbn [rangeContainers].
  pose proof (syncContainer_continue ci (cra, errList)) as Hc.
  destruct (syncContainer_identity ci cra errList) as (I1 & I2 & I3).
  destruct (syncContainer ci _) as [[ci' [cra' errList']] b].
  cbn [fst snd] in *. subst b.
  destruct (IH cra' errList') as (J1 & J2 & J3).
  destruct (rangeContainers _ _ _) as [rest' [cra'' errList'']]. cbn [fst snd] in *.
  rewrite fmap_cons, J1, I1, J2, I2. repeat split; try done; lia.
Qed.

Lemma assignContainersToRegions_identity cra :
  containerIdentity <$> containers (metaCache (assignContainersToRegions cra).1)
  = containerIdentity <$> containers (metaCache cra) ∧
  poolIdentity <$> poolEntries (metaCache (assignContainersToRegions cra).1)
  = poolIdentity <$> poolEntries (metaCache cra) ∧
  (uuidCount cra ≤ uuidCount (assignContainersToRegions cra).1)%nat.
Proof.
  unfold assignContainersToRegions.
  destruct (rangeContainers_identity
              (containers (metaCache (setRegionMap cra (Clear <$> regionMap cra))))
              (setRegionMap cra (Clear <$> regionMap cra)) []) as (I1 & I2 & I3).
  destruct (rangeContainers _ _ _) as [cs [cra2 errList]]. cbn [fst snd] in *.
  unfold updateNonBindingNumas, gc. fields. cbn [setContainers containers poolEntries].
  by rewrite I1, I2.
Qed.

Lemma GetPoolSize_identity (mc mc' : MetaCache) :
  poolIdentity <$> poolEntries mc' = poolIdentity <$> poolEntries mc →
  ∀ poolName, GetPoolSize mc' poolName = GetPoolSize mc poolName.
Proof.
  intros Hid poolName. unfold GetPoolSize, GetPoolInfo.
  assert ((poolIdentity <$> poolEntries mc') !! poolName
          = (poolIdentity <$> poolEntries mc) !! poolName) as Hl by by rewrite Hid.
  rewrite !lookup_fmap in Hl.
  destruct (poolEntries mc' !! poolName) as [p'|], (poolEntries mc !! poolName) as [p|];
    try done.
  cbn in Hl |- *. unfold poolIdentity in Hl. injection Hl as _ Ht. by rewrite Ht.
Qed.

Lemma update_identity now cra :
  poolIdentity <$> poolEntries (metaCache (update now cra))
  = poolIdentity <$> poolEntries (metaCache cra) ∧
  containerIdentity <$> containers (metaCache (update now cra))
  = containerIdentity <$> containers (metaCache cra).
Proof.
  destruct (assignContainersToRegions_identity cra) as (I1 & I2 & _).
    apply (update_elim now cra
             (λ cra', poolIdentity <$> poolEntries (metaCache cra')
                      = poolIdentity <$> poolEntries (metaCache cra) ∧
                      containerIdentity <$> containers (metaCache cra')
                      = containerIdentity <$> containers (metaCache cra))).
    - done.
    - intros evs. fields. by rewrite I1, I2.
    - intros rpi evs. fields.
      destruct (afterProvision_fields cra rpi) as (_ & _ & _ & _ & Hmc & _).
      by rewrite Hmc, I1, I2.
    - intros rpi entries evs. fields. cbn [UpdateRegionEntries poolEntries containers].
      destruct (afterProvision_fields cra rpi) as (_ & _ & _ & _ & Hmc & _).
      by rewrite Hmc, I1, I2.
    - intros rpi entries evs.
      match goal with
      | |- context [updateHeadrooms ?c] =>
          destruct (updateHeadrooms_fields c) as (_ & _ & _ & _ & Hmc5 & _)
      end.
      rewrite Hmc5. fields. cbn [UpdateRegionEntries poolEntries containers].
      destruct (afterProvision_fields cra rpi) as (_ & _ & _ & _ & Hmc & _).
      by rewrite Hmc, I1, I2.
Qed.

(** X4: a cycle, however it ends, neither adds nor removes a pool or a
    container of the MetaCache and changes nothing of them but their region
    names: pool names and CPU assignments, hence every pool size, and the
    identity, QoS level, owner pool and NUMA assignment of every container are
    as before. *)
Theorem update_keeps_pools_and_containers now cra :
  poolIdentity <$> poolEntries (metaCache (update now cra))
  = poolIdentity <$> poolEntries (metaCache cra) ∧
  containerIdentity <$> containers (metaCache (update now cra))
  = containerIdentity <$> containers (metaCache cra) ∧
  ∀ poolName, GetPoolSize (metaCache (update now cra)) poolName
              = GetPoolSize (metaCache cra) poolName.
Proof.
  destruct (update_identity now cra) as [Hp Hc].
  split; [done|]. split; [done|]. by apply GetPoolSize_identity.
Qed.

Lemma update_fields now cra :
  conf (update now cra) = conf cra ∧
  startTime (update now cra) = startTime cra ∧
  systemNumas (update now cra) = systemNumas cra ∧
  metaServer (update now cra) = metaServer cra ∧
  trace cra `prefix_of` trace (update now cra) ∧
  (uuidCount cra ≤ uuidCount (update now cra))%nat.
Proof.
  destruct (assignContainersToRegions_facts cra)
      as (A1 & A2 & A3 & A4 & _ & (logs & A5 & _) & _).
    destruct (assignContainersToRegions_identity cra) as (_ & _ & A6).
    assert (∀ rpi, uuidCount (afterProvision cra rpi)
                   = uuidCount (assignContainersToRegions cra).1) as U3 by done.
    apply (update_elim now cra
             (λ cra', conf cra' = conf cra ∧ startTime cra' = startTime cra ∧
                      systemNumas cra' = systemNumas cra ∧
                      metaServer cra' = metaServer cra ∧
                      trace cra `prefix_of` trace cra' ∧
                      (uuidCount cra ≤ uuidCount cra')%nat)).
    - intros evs. fields. repeat split; try done. by apply prefix_app_r.
    - intros evs. fields. rewrite A1, A2, A3, A4, A5, <- app_assoc.
      repeat split; try done. by apply prefix_app_r.
    - intros rpi evs. fields.
      destruct (afterProvision_fields cra rpi) as (B1 & B2 & B3 & B4 & _ & _ & _ & B5).
      rewrite B1, B2, B3, B4, B5, A1, A2, A3, A4, A5, U3, <- !app_assoc.
      repeat split; try done. by apply prefix_app_r.
    - intros rpi entries evs. fields.
      destruct (afterProvision_fields cra rpi) as (B1 & B2 & B3 & B4 & _ & _ & _ & B5).
      rewrite B1, B2, B3, B4, B5, A1, A2, A3, A4, A5, U3, <- !app_assoc.
      repeat split; try done. by apply prefix_app_r.
    - intros rpi entries evs.
      match goal with
      | |- context [updateHeadrooms ?c] =>
          destruct (updateHeadrooms_fields c) as (C1 & C2 & C3 & C4 & _ & _ & _ & C5);
          assert (uuidCount (updateHeadrooms c) = uuidCount c) as C6 by done
      end.
      rewrite C1, C2, C3, C4, C5, C6. fields.
      destruct (afterProvision_fields cra rpi) as (B1 & B2 & B3 & B4 & _ & _ & _ & B5).
      rewrite B1, B2, B3, B4, B5, A1, A2, A3, A4, A5, U3, <- !app_assoc.
      repeat split; try done. by apply prefix_app_r.
Qed.

(** X5: a cycle, however it ends, leaves the configuration, the start time,
    the system NUMA set and the machine topology of the advisor alone, only
    appends to what the advisor has done so far, and never takes back an
    identifier it has drawn. *)
Theorem update_frame now cra :
  conf (update now cra) = conf cra ∧
  startTime (update now cra) = startTime cra ∧
  systemNumas (update now cra) = systemNumas cra ∧
  metaServer (update now cra) = metaServer cra ∧
  trace cra `prefix_of` trace (update now cra) ∧
  trace (update now cra) = trace cra ++ cycleEvents now cra ∧
  (uuidCount cra ≤ uuidCount (update now cra))%nat.
Proof.
  destruct (update_fields now cra) as (F1 & F2 & F3 & F4 & F5 & F6).
  repeat split; try done.
  destruct F5 as [evs Hevs]. unfold cycleEvents. by rewrite Hevs, drop_app_length.
Qed.



(** ** Properties every region of the map keeps *)

Lemma assignToRegions_regions (Q : QoSRegion P → Prop) cra ci :
  (∀ name owner, Q (NewQoSRegionShare name owner)) →
  (∀ name owner numaID, Q (NewQoSRegionDedicatedNumaExclusive name owner numaID)) →
  map_Forall (λ _, Q) (regionMap cra) →
  Forall Q (assignToRegions cra ci).1.1.
Proof.
  intros Qs Qd Qm.
  assert (∀ names regions, findRegions (regionMap cra) names = Ok regions → Forall Q regions)
    as Hfound.
  { intros names regions Hf. apply findRegions_Ok_inv in Hf.
    induction Hf as [|n r names regions Hn _ IH]; constructor; [|done].
    by apply (Qm n r). }
  unfold assignToRegions.
  destruct (decide _).
  - unfold getPoolRegions. destruct (GetPoolInfo _ _) as [pool|].
    + destruct (findRegions _ _) as [regions|] eqn:Hf; [|by constructor].
      case_bool_decide; [by eapply Hfound|]. cbn. constructor; [apply Qs|constructor].
    + cbn. constructor; [apply Qs|constructor].
  - destruct (ciNumaBinding ci); [|by constructor].
    unfold getContainerRegions.
    destruct (findRegions _ _) as [regions|] eqn:Hf; [|by constructor].
    apply Hfound in Hf.
    case_bool_decide; [done|].
    assert (∀ numaIDs cra0 owner rs,
              Forall Q rs → Forall Q (newDedicatedRegions cra0 owner numaIDs rs).1) as Hn.
    { induction numaIDs as [|numaID numaIDs IH]; intros cra0 owner rs Hrs; [done|].
      cbn [newDedicatedRegions]. unfold NewUUID at 1. apply IH.
      apply Forall_app. split; [done|]. constructor; [apply Qd|constructor]. }
    specialize (Hn ((map_to_list (ciTopologyAwareAssignments ci)).*1)
                   cra (ciOwnerPoolName ci) regions Hf).
    by destruct (newDedicatedRegions _ _ _ _).
Qed.

Lemma addToRegions_regions (Q : QoSRegion P → Prop) ci regions : ∀ cra,
  (∀ r, Q r → Q (mkQoSRegion (rName r) (rType r) (rOwnerPoolName r)
                   ({[ (PodUID ci, ContainerName ci) ]} ∪ rPodSet r) (rBindingNumas r)
                   (rEssentials r) (rPolicy r))) →
  Forall Q regions →
  map_Forall (λ _, Q) (regionMap cra) →
  map_Forall (λ _, Q) (regionMap (addToRegions ci regions cra).1).
Proof.
  induction regions as [|r regions IH]; intros cra Qa Qr Qm; [done|].
  cbn [addToRegions AddContainer]. apply Forall_cons in Qr as [Q1 Q2].
  apply IH; [done..|]. fields. apply map_Forall_insert_2; [by apply Qa|done].
Qed.

(** A property of regions that does not depend on their containers and that
    the regions have when they are created holds of every region of the map
    through the assignment phase, if binding a share region anew keeps it. *)
Lemma assignContainersToRegions_regions (Q : QoSRegion P → Prop) cra :
  (∀ r pods, Q r → Q (mkQoSRegion (rName r) (rType r) (rOwnerPoolName r) pods
                        (rBindingNumas r) (rEssentials r) (rPolicy r))) →
  (∀ r numas, rType r = QoSRegionTypeShare → Q r → Q (SetBindingNumas r numas)) →
  (∀ name owner, Q (NewQoSRegionShare name owner)) →
  (∀ name owner numaID, Q (NewQoSRegionDedicatedNumaExclusive name owner numaID)) →
  map_Forall (λ _, Q) (regionMap cra) →
  map_Forall (λ _, Q) (regionMap (assignContainersToRegions cra).1).
Proof.
  intros Qp Qb Qs Qd Qm.
  assert (∀ ci cra0 errList,
            map_Forall (λ _, Q) (regionMap cra0) →
            map_Forall (λ _, Q) (regionMap (syncContainer ci (cra0, errList)).1.2.1))
    as Hsync.
  { intros ci cra0 errList Q0. unfold syncContainer.
    pose proof (assignToRegions_regions Q cra0 ci Qs Qd Q0) as Hregions.
    pose proof (assignToRegions_regionMap cra0 ci) as Hrm.
    destruct (assignToRegions cra0 ci) as [[regions err] cra1]. cbn [fst snd] in *.
    rewrite <- Hrm in Q0.
    destruct regions as [|r regions]; [done|].
    pose proof (addToRegions_regions Q ci (r :: regions) cra1
                  (λ r0 Hr0, Qp r0 _ Hr0) Hregions Q0) as Hadd.
    destruct (addToRegions ci (r :: regions) cra1) as [cra2 [e|]]; [done|].
    cbn [fst] in Hadd. destruct (decide _); [done|].
    pose proof (setPoolRegions_regionMap cra2
                  (ciOwnerPoolName (setContainerRegions ci (r :: regions))) (r :: regions))
      as Hpool.
    destruct (setPoolRegions _ _ _) as [cra3 [e|]]; cbn [fst snd] in *; by rewrite Hpool. }
  assert (∀ cs cra0 errList,
            map_Forall (λ _, Q) (regionMap cra0) →
            map_Forall (λ _, Q)
              (regionMap (rangeContainers syncContainer cs (cra0, errList)).2.1)) as Hrange.
  { induction cs as [|ci cs IH]; intros cra0 errList Q0; [done|].
    cbn [rangeContainers].
    pose proof (syncContainer_continue ci (cra0, errList)) as Hc.
    pose proof (Hsync ci cra0 errList Q0) as Hs.
    destruct (syncContainer ci _) as [[ci' [cra' errList']] b].
    cbn [fst snd] in Hc, Hs. subst b.
    specialize (IH cra' errList' Hs).
    by destruct (rangeContainers _ _ _) as [rest' [cra'' errList'']]. }
  unfold assignContainersToRegions.
  assert (map_Forall (λ _, Q) (regionMap (setRegionMap cra (Clear <$> regionMap cra))))
    as Q1.
  { fields. intros k r' Hk. apply lookup_fmap_Some in Hk as (r & <- & Hk).
    apply Qp. by apply (Qm k r). }
  pose proof (Hrange (containers (metaCache (setRegionMap cra (Clear <$> regionMap cra))))
                _ [] Q1) as Q2.
  destruct (rangeContainers _ _ _) as [cs [cra2 errList]]. cbn [fst snd] in *.
  intros k r' Hk. unfold updateNonBindingNumas in Hk. fields.
  apply lookup_fmap_Some in Hk as (r & <- & Hk).
  apply gc_lookup in Hk as [Hk _]. fields.
  specialize (Q2 k r Hk). destruct (decide _); [by apply Qb|done].
Qed.

Lemma shape_dedicatedOnOneNuma rm rm' :
  regionShape <$> rm' = regionShape <$> rm → dedicatedOnOneNuma rm → dedicatedOnOneNuma rm'.
Proof.
  intros Hs Hd k r' Hk Ht.
  destruct (shape_lookup rm rm' k r' Hs Hk) as (r & Hr & Hsh).
  apply regionShape_inv in Hsh as (_ & Hty & _ & Hb).
  rewrite Hb. apply (Hd k r Hr). congruence.
Qed.

Lemma update_dedicatedOnOneNuma now cra :
  dedicatedOnOneNuma (regionMap cra) → dedicatedOnOneNuma (regionMap (update now cra)).
Proof.
  intros Hd.
  destruct (GetPoolInfo (metaCache cra) PoolNameReserve) as [reservePoolInfo|] eqn:Hr.
  2:{ by rewrite update_reserve_missing. }
  destruct (update_shape now cra) as (Hsh & _); [by eexists|].
  eapply shape_dedicatedOnOneNuma; [exact Hsh|].
  pose proof (assignContainersToRegions_regions
                (λ r, rType r = QoSRegionTypeDedicatedNumaExclusive →
                      ∃ numaID, GetBindingNumas r = {[ numaID ]}) cra) as Hall.
  apply Hall.
  - intros r0 pods Hq. exact Hq.
  - intros r0 numas Hs Hq Ht. cbn in Ht. congruence.
  - intros name owner Ht. discriminate.
  - intros name owner numaID _. by exists numaID.
  - intros k0 r0 Hk0. by apply (Hd k0 r0).
Qed.

Lemma update_noEmptyRegion now cra :
  noEmptyRegion (regionMap cra) → noEmptyRegion (regionMap (update now cra)).
Proof.
  intros Hne.
  destruct (GetPoolInfo (metaCache cra) PoolNameReserve) as [reservePoolInfo|] eqn:Hr.
  2:{ by rewrite update_reserve_missing. }
  destruct (update_shape now cra) as (Hsh & _); [by eexists|].
  eapply shape_noEmptyRegion; [exact Hsh|].
  by destruct (assignContainersToRegions_facts cra) as (_ & _ & _ & _ & _ & _ & ? & _).
Qed.

(** ** Headroom *)

Lemma headroomLoop_err l : ∀ b t kr e,
  kr ∈ l → regionGetHeadroom kr.2 = Err e →
  ∃ kr' e', kr' ∈ l ∧ regionGetHeadroom kr'.2 = Err e' ∧ headroomLoop l b t = Err e'.
Proof.
  induction l as [|[k r] l IH]; intros b t kr e Hin He; [by apply elem_of_nil in Hin|].
  cbn [headroomLoop]. destruct (regionGetHeadroom r) as [h|e0] eqn:Hr.
  - apply elem_of_cons in Hin as [->|Hin]; [cbn in He; congruence|].
    destruct (IH (if decide (rType r = QoSRegionTypeShare) then true else b) (t + h) kr e Hin He)
      as (kr' & e' & Hin' & He' & Hl).
    exists kr', e'. split; [by apply list_elem_of_further|done].
  - exists (k, r), e0. split; [apply list_elem_of_here|done].
Qed.

(** X7: when the reserve pool is in the MetaCache and some region of the
    region map cannot give its headroom, [GetHeadroom] returns no sum but the
    error of a region of the map that fails. *)
Theorem GetHeadroom_region_error cra reservePoolSize k r e :
  GetPoolSize (metaCache cra) PoolNameReserve = Some reservePoolSize →
  regionMap cra !! k = Some r → regionGetHeadroom r = Err e →
  ∃ k' r' e', regionMap cra !! k' = Some r' ∧ regionGetHeadroom r' = Err e' ∧
              GetHeadroom cra = Err e'.
Proof.
  intros Hr Hk He. unfold GetHeadroom. rewrite Hr.
  rewrite bool_decide_eq_false_2.
  2:{ intros Hs. assert (regionMap cra = ∅) as Hempty by (apply map_size_empty_iff; lia).
      by rewrite Hempty in Hk. }
  destruct (headroomLoop_err (map_to_list (regionMap cra)) false 0 (k, r) e)
    as ([k' r'] & e' & Hin & He' & Hl); [by apply elem_of_map_to_list|done|].
  exists k', r', e'. rewrite Hl. split; [by apply elem_of_map_to_list|done].
Qed.

Lemma headroomEntriesLoop_found rm names : ∀ regionEntries logs,
  (∀ n, n ∈ names → is_Some (rm !! n)) →
  headroomEntriesLoop rm names regionEntries logs
  = (Done regionEntries,
     logs ++ ((λ n, EvLog LError "region in region entries but not in region map" [n])
              <$> names)).
Proof.
  induction names as [|n names IH]; intros regionEntries logs Hall.
  - cbn. by rewrite app_nil_r.
  - cbn [headroomEntriesLoop]. destruct (Hall n (list_elem_of_here _ _)) as [r Hr].
    rewrite Hr, IH by (intros m Hm; apply Hall; by apply list_elem_of_further).
    by rewrite fmap_cons, <- app_assoc.
Qed.

Lemma headroomEntriesLoop_missing rm names : ∀ regionEntries logs n,
  n ∈ names → rm !! n = None →
  ∃ logs', headroomEntriesLoop rm names regionEntries logs
           = (Panicked "invalid memory address or nil pointer dereference", logs').
Proof.
  induction names as [|n' names IH]; intros regionEntries logs n Hin Hn;
    [by apply elem_of_nil in Hin|].
  cbn [headroomEntriesLoop]. destruct (rm !! n') as [r|] eqn:Hr.
  - apply elem_of_cons in Hin as [->|Hin]; [congruence|]. by eapply IH.
  - cbn. by eexists.
Qed.

(** X8: [updateHeadroomForRegionEntries] never writes a headroom into a
    region entry. When every entry names a region of the region map it logs
    one error per entry and leaves the entries as they are; when an entry
    names a region the map does not hold it panics, calling [GetHeadroom] on
    the nil region the look-up gave. *)
Theorem updateHeadroomForRegionEntries_writes_nothing cra (regionEntries : RegionEntries) :
  (dom regionEntries ⊆ dom (regionMap cra) ∧
   updateHeadroomForRegionEntries cra regionEntries
   = (Done regionEntries,
      (λ n, EvLog LError "region in region entries but not in region map" [n])
      <$> (map_to_list regionEntries).*1)) ∨
  (¬ dom regionEntries ⊆ dom (regionMap cra) ∧
   ∃ logs, updateHeadroomForRegionEntries cra regionEntries
           = (Panicked "invalid memory address or nil pointer dereference", logs)).
Proof.
  unfold updateHeadroomForRegionEntries.
  assert (∀ n, n ∈ (map_to_list regionEntries).*1 ↔ n ∈ dom regionEntries) as Hnames.
  { intros n. rewrite list_elem_of_fmap, elem_of_dom. split.
    - intros ([n' info] & -> & Hin). apply elem_of_map_to_list in Hin. by eexists.
    - intros [info Hinfo]. exists (n, info). split; [done|]. by apply elem_of_map_to_list. }
  destruct (decide (Forall (λ n, is_Some (regionMap cra !! n))
                      (map_to_list regionEntries).*1)) as [Hall|Hnot].
  - left. rewrite Forall_forall in Hall. split.
    + intros n Hn. apply elem_of_dom, Hall, Hnames, Hn.
    + by rewrite headroomEntriesLoop_found.
  - right. apply not_Forall_Exists in Hnot; [|apply _].
    apply Exists_exists in Hnot as (n & Hn & Hnone).
    apply eq_None_not_Some in Hnone. split.
    + intros Hsub. apply Hnames, Hsub, elem_of_dom in Hn. rewrite Hnone in Hn.
      by destruct Hn.
    + by apply (headroomEntriesLoop_missing _ _ _ _ n).
Qed.

(** ** Region entries *)

Lemma regionEntriesLoop_lookup l : ∀ acc entries,
  NoDup l.*1 → regionEntriesLoop l acc = Ok entries →
  ∀ k info,
    entries !! k = Some info ↔
    (∃ r controlKnob, (k, r) ∈ l ∧ GetProvision r = Ok controlKnob ∧
                      info = regionInfoOf r controlKnob) ∨
    ((k ∉ l.*1) ∧ acc !! k = Some info).
Proof.
  induction l as [|[k0 r0] l IH]; intros acc entries Hnd Hloop k info.
  - cbn in Hloop. injection Hloop as <-. split.
    + intros Hk. right. split; [apply not_elem_of_nil|done].
    + intros [(r & ck & Hin & _)|[_ Hk]]; [by apply elem_of_nil in Hin|done].
  - cbn [regionEntriesLoop] in Hloop. rewrite fmap_cons in Hnd. cbn [fst] in Hnd.
    apply NoDup_cons in Hnd as [Hk0 Hnd].
    destruct (GetProvision r0) as [ck0|] eqn:Hck0; [|discriminate].
    rewrite (IH _ _ Hnd Hloop k info). rewrite fmap_cons. cbn [fst]. split.
    + intros [(r & ck & Hin & Hck & ->)|[Hnot Hacc]].
      * left. exists r, ck. split; [by apply list_elem_of_further|done].
      * destruct (decide (k = k0)) as [->|Hne].
        -- rewrite lookup_insert_eq in Hacc. injection Hacc as <-.
           left. exists r0, ck0. split; [apply list_elem_of_here|done].
        -- rewrite lookup_insert_ne in Hacc by done. right. split; [|done].
           intros Hin. apply elem_of_cons in Hin as [->|Hin]; done.
    + intros [(r & ck & Hin & Hck & ->)|[Hnot Hacc]].
      * apply elem_of_cons in Hin as [Heq|Hin].
        -- injection Heq as -> ->. right. split; [done|].
           rewrite lookup_insert_eq. congruence.
        -- left. by exists r, ck.
      * right. apply not_elem_of_cons in Hnot as [Hne Hnot]. split; [done|].
        by rewrite lookup_insert_ne.
Qed.

(** X9: when [assembleRegionEntries] succeeds, the entries mirror the region
    map: there is one entry per region, under the region's key, and it holds
    the type, the binding NUMAs, the provision and the policy names of that
    region, with a headroom that is still zero. *)
Theorem assembleRegionEntries_mirror cra entries :
  assembleRegionEntries cra = Ok entries →
  dom entries = dom (regionMap cra) ∧
  ∀ k info,
    entries !! k = Some info ↔
    ∃ r controlKnob, regionMap cra !! k = Some r ∧ GetProvision r = Ok controlKnob ∧
                     info = {| RegionType := rType r;
                               BindingNumas := GetBindingNumas r;
                               ControlKnobMap := controlKnob;
                               HeadroomPolicyTopPriority := (GetHeadRoomPolicy r).1;
                               HeadroomPolicyInUse := (GetHeadRoomPolicy r).2;
                               ProvisionPolicyTopPriority := (GetProvisionPolicy r).1;
                               ProvisionPolicyInUse := (GetProvisionPolicy r).2;
                               Headroom := 0 |}.
Proof.
  intros Hok. unfold assembleRegionEntries in Hok.
  pose proof (regionEntriesLoop_lookup _ _ _ (NoDup_fst_map_to_list (regionMap cra)) Hok)
    as Hl.
  assert (∀ k info,
            entries !! k = Some info ↔
            ∃ r ck, regionMap cra !! k = Some r ∧ GetProvision r = Ok ck ∧
                    info = regionInfoOf r ck) as Hl'.
  { intros k info. rewrite Hl. split.
    - intros [(r & ck & Hin & Hck & ->)|[_ Hacc]]; [|by rewrite lookup_empty in Hacc].
      exists r, ck. split; [by apply elem_of_map_to_list|done].
    - intros (r & ck & Hk & Hck & ->). left. exists r, ck.
      split; [by apply elem_of_map_to_list|done]. }
  split; [|exact Hl'].
  apply set_eq. intros k. rewrite !elem_of_dom. split.
  - intros [info Hinfo]. apply Hl' in Hinfo as (r & _ & Hk & _). by exists r.
  - intros [r Hk].
    destruct (GetProvision r) as [ck|e] eqn:Hck.
    + exists (regionInfoOf r ck). apply Hl'. by exists r, ck.
    + destruct (assembleRegionEntries_err cra k r e Hk Hck) as [e' He'].
      unfold assembleRegionEntries in He'. congruence.
Qed.

(** ** The pools of a plan *)

Lemma provisionLoop_pools l : ∀ entries req logs entries' req' logs',
  provisionLoop l entries req logs = (Done (entries', req'), logs') →
  (∀ poolName, poolName ≠ PoolNameShare → poolName ≠ PoolNameReclaim →
               entries' !! poolName = entries !! poolName) ∧
  (∀ m, entries' !! PoolNameShare = Some m →
        entries !! PoolNameShare = Some m ∨
        ∃ kr controlKnob,
          kr ∈ l ∧ rType kr.2 = QoSRegionTypeShare ∧ GetProvision kr.2 = Ok controlKnob ∧
          m = {[ FakedNumaID :=
                   GoInt.of_float64
                     (Value (knob controlKnob ControlKnobNonReclaimedCPUSetSize)) ]}) ∧
  ((∃ kr, kr ∈ l ∧ rType kr.2 = QoSRegionTypeShare) → is_Some (entries' !! PoolNameShare)) ∧
  (is_Some (entries !! PoolNameShare) → is_Some (entries' !! PoolNameShare)).
Proof.
  induction l as [|[k r] l IH]; intros entries req logs entries' req' logs' Hloop.
  - cbn in Hloop. injection Hloop as <- <- <-. repeat split; try done.
    + intros m Hm. by left.
    + intros (kr & Hin & _). by apply elem_of_nil in Hin.
  - cbn [provisionLoop] in Hloop.
    destruct (GetProvision r) as [ck|] eqn:Hck; [|discriminate].
    destruct (rType r) eqn:Ht.
    + apply IH in Hloop as (I1 & I2 & I3 & I4). repeat split.
      * intros p Hp1 Hp2. rewrite I1 by done. by rewrite lookup_insert_ne.
      * intros m Hm. destruct (I2 m Hm) as [Hm0|(kr & ck' & Hin & Hs & Hck' & ->)].
        -- rewrite lookup_insert_eq in Hm0. injection Hm0 as <-.
           right. exists (k, r), ck. split; [apply list_elem_of_here|done].
        -- right. exists kr, ck'. split; [by apply list_elem_of_further|done].
      * intros _. apply I4. rewrite lookup_insert_eq. by eexists.
      * intros _. apply I4. rewrite lookup_insert_eq. by eexists.
    + destruct (ToSliceInt (GetBindingNumas r)) as [|regionNuma others]; [discriminate|].
      apply IH in Hloop as (I1 & I2 & I3 & I4).
      assert (PoolNameShare ≠ PoolNameReclaim) as Hne by discriminate.
      repeat split.
      * intros p Hp1 Hp2. rewrite I1 by done. by rewrite lookup_insert_ne.
      * intros m Hm. destruct (I2 m Hm) as [Hm0|(kr & ck' & Hin & Hs & Hck' & ->)].
        -- rewrite lookup_insert_ne in Hm0 by done. by left.
        -- right. exists kr, ck'. split; [by apply list_elem_of_further|done].
      * intros (kr & Hin & Hs). apply I3.
        apply elem_of_cons in Hin as [->|Hin]; [cbn in Hs; congruence|]. by exists kr.
      * intros Hs. apply I4. by rewrite lookup_insert_ne.
Qed.

(** X10: every plan [assembleProvision] produces names no pool but reserve,
    share and reclaim; its reserve entry is the size of the reserve pool under
    the NUMA id -1, its reclaim entry always has a value under -1, and it has
    a share entry exactly when the region map holds a share region, that entry
    being the [non_reclaimed_cpuset_size] knob of one share region. *)
Theorem assembleProvision_pools cra plan logs :
  assembleProvision cra = (Done plan, logs) →
  dom (PoolEntries plan) ⊆ {[ PoolNameReserve; PoolNameShare; PoolNameReclaim ]} ∧
  PoolEntries plan !! PoolNameReserve
  = Some {[ FakedNumaID := default 0 (GetPoolSize (metaCache cra) PoolNameReserve) ]} ∧
  is_Some (reclaimOfNonBindingNumas plan) ∧
  (is_Some (PoolEntries plan !! PoolNameShare) ↔
   ∃ k r, regionMap cra !! k = Some r ∧ rType r = QoSRegionTypeShare) ∧
  ∀ m, PoolEntries plan !! PoolNameShare = Some m →
       ∃ k r controlKnob,
         regionMap cra !! k = Some r ∧ rType r = QoSRegionTypeShare ∧
         GetProvision r = Ok controlKnob ∧
         m = {[ FakedNumaID :=
                  GoInt.of_float64
                    (Value (knob controlKnob ControlKnobNonReclaimedCPUSetSize)) ]}.
Proof.
  unfold assembleProvision. intros Hdone.
  destruct (provisionLoop _ _ _ _) as [[[entries req]|e|msg] logs0] eqn:Hloop;
    [|discriminate..].
  injection Hdone as <- <-.
  apply provisionLoop_pools in Hloop as (I1 & I2 & I3 & I4).
  assert (PoolNameReserve ≠ PoolNameShare) as N1 by discriminate.
  assert (PoolNameReserve ≠ PoolNameReclaim) as N2 by discriminate.
  assert (PoolNameShare ≠ PoolNameReclaim) as N3 by discriminate.
  cbn [PoolEntries]. split; [|split; [|split; [|split]]].
  - intros p Hp. apply elem_of_dom in Hp as [m Hm].
    rewrite !elem_of_union, !elem_of_singleton.
    destruct (decide (p = PoolNameReclaim)) as [->|Hp1]; [by right|].
    destruct (decide (p = PoolNameShare)) as [->|Hp2]; [by left; right|].
    rewrite lookup_insert_ne in Hm by done. rewrite I1 in Hm by done.
    destruct (decide (p = PoolNameReserve)) as [->|Hp3]; [by left; left|].
    by rewrite lookup_singleton_ne in Hm.
  - rewrite lookup_insert_ne by done. rewrite I1 by done. by rewrite lookup_singleton_eq.
  - unfold reclaimOfNonBindingNumas. cbn [PoolEntries].
    rewrite lookup_insert_eq. cbn. rewrite lookup_insert_eq. by eexists.
  - rewrite lookup_insert_ne by done. split.
    + intros [m Hm]. destruct (I2 m Hm) as [Hm0|([k r] & ck & Hin & Hs & _)].
      * by rewrite lookup_singleton_ne in Hm0.
      * exists k, r. split; [by apply elem_of_map_to_list|done].
    + intros (k & r & Hk & Hs). apply I3. exists (k, r).
      split; [by apply elem_of_map_to_list|done].
  - intros m Hm. rewrite lookup_insert_ne in Hm by done.
    destruct (I2 m Hm) as [Hm0|([k r] & ck & Hin & Hs & Hck & ->)].
    + by rewrite lookup_singleton_ne in Hm0.
    + exists k, r, ck. split; [by apply elem_of_map_to_list|done].
Qed.

(** ** Cycles that run to the end *)

Lemma ToSliceInt_singleton (n : Z) : ToSliceInt {[ n ]} = [n].
Proof. unfold ToSliceInt. by rewrite elements_singleton. Qed.

Lemma provisionLoop_total l : ∀ entries req logs,
  (∀ kr, kr ∈ l → ∃ controlKnob, GetProvision kr.2 = Ok controlKnob) →
  (∀ kr, kr ∈ l → rType kr.2 = QoSRegionTypeDedicatedNumaExclusive →
         ∃ numaID, GetBindingNumas kr.2 = {[ numaID ]}) →
  ∃ entries' req', provisionLoop l entries req logs = (Done (entries', req'), logs).
Proof.
  induction l as [|[k r] l IH]; intros entries req logs Hok Hone.
  - by eexists _, _.
  - cbn [provisionLoop].
    destruct (Hok (k, r) (list_elem_of_here _ _)) as [ck Hck]. cbn in Hck. rewrite Hck.
    assert (∀ kr, kr ∈ l → ∃ controlKnob, GetProvision kr.2 = Ok controlKnob) as Hok'
      by (intros kr Hin; apply Hok; by apply list_elem_of_further).
    assert (∀ kr, kr ∈ l → rType kr.2 = QoSRegionTypeDedicatedNumaExclusive →
                  ∃ numaID, GetBindingNumas kr.2 = {[ numaID ]}) as Hone'
      by (intros kr Hin; apply Hone; by apply list_elem_of_further).
    destruct (rType r) eqn:Ht; [by apply IH|].
    destruct (Hone (k, r) (list_elem_of_here _ _) Ht) as [numaID Hn]. cbn in Hn.
    rewrite Hn, ToSliceInt_singleton. cbn [length]. rewrite decide_True by done.
    by apply IH.
Qed.

Lemma assembleProvision_total cra :
  (∀ k r, regionMap cra !! k = Some r → ∃ controlKnob, GetProvision r = Ok controlKnob) →
  dedicatedOnOneNuma (regionMap cra) →
  ∃ plan, assembleProvision cra = (Done plan, []).
Proof.
  intros Hok Hone. unfold assembleProvision.
  match goal with
  | |- context [provisionLoop ?l ?e ?q ?g] =>
      destruct (provisionLoop_total l e q g) as (entries & req & Hloop)
  end.
  - intros [k r] Hin. apply elem_of_map_to_list in Hin. by apply (Hok k).
  - intros [k r] Hin. apply elem_of_map_to_list in Hin. by apply (Hone k).
  - rewrite Hloop. by eexists.
Qed.

Lemma assignContainersToRegions_dedicatedOnOneNuma cra :
  dedicatedOnOneNuma (regionMap cra) →
  dedicatedOnOneNuma (regionMap (assignContainersToRegions cra).1).
Proof.
  intros Hd.
  pose proof (assignContainersToRegions_regions
                (λ r, rType r = QoSRegionTypeDedicatedNumaExclusive →
                      ∃ numaID, GetBindingNumas r = {[ numaID ]}) cra) as Hall.
  apply Hall.
  - intros r0 pods Hq. exact Hq.
  - intros r0 numas Hs Hq Ht. cbn in Ht. congruence.
  - intros name owner Ht. discriminate.
  - intros name owner numaID _. by exists numaID.
  - intros k0 r0 Hk0. by apply (Hd k0 r0).
Qed.

(** X11: once the start-up window is over, a cycle that sees the reserve
    pool, assigns without an error and finds every region able to give its
    provision runs to its end, provided the dedicated regions it started with
    bind one NUMA node each: it publishes the region entries, then sends
    exactly one plan, the one [assembleProvision] builds from the regions as
    provisioned, and only then runs the headroom policy of every region of the
    region map, once each. *)
Theorem steady_cycle_sends_plan now cra reservePoolInfo :
  GetPoolInfo (metaCache cra) PoolNameReserve = Some reservePoolInfo →
  (assignContainersToRegions cra).2 = None →
  startTime cra + startUpPeriod <= now →
  (∀ k r, regionMap (afterProvision cra reservePoolInfo) !! k = Some r →
          ∃ controlKnob, GetProvision r = Ok controlKnob) →
  dedicatedOnOneNuma (regionMap cra) →
  ∃ entries plan pre,
    assembleRegionEntries (afterProvision cra reservePoolInfo) = Ok entries ∧
    assembleProvision (afterProvision cra reservePoolInfo) = (Done plan, []) ∧
    cycleEvents now cra
    = pre ++ [EvUpdateRegionEntries entries; EvSend plan; EvLog LInfo "notify cpu server" []]
          ++ (EvTryUpdateHeadroom
              <$> (map_to_list (regionMap (afterProvision cra reservePoolInfo))).*1) ∧
    sentPlans pre = [] ∧ publishedEntries pre = [] ∧ headroomEpisodes pre = [] ∧
    regionEntries (metaCache (update now cra)) = entries ∧
    regionMap (update now cra)
    = TryUpdateHeadroom
        (UpdateRegionEntries (metaCache (afterProvision cra reservePoolInfo)) entries)
        (metaServer cra)
      <$> regionMap (afterProvision cra reservePoolInfo).
Proof.
  intros Hr Ha Hnow Hok Hone.
  destruct (assembleRegionEntries_ok _ Hok) as (entries & He & _).
  destruct (assembleProvision_total (afterProvision cra reservePoolInfo)) as [plan Hplan].
  { done. }
  { eapply shape_dedicatedOnOneNuma; [apply afterProvision_shape|].
    by apply assignContainersToRegions_dedicatedOnOneNuma. }
  destruct (afterProvision_trace cra reservePoolInfo) as (pre & Htr & S1 & S2 & S3 & _).
  destruct (assignContainersToRegions_facts cra) as (_ & Hst & _ & Hms & _).
  destruct (afterProvision_fields cra reservePoolInfo) as (_ & Hst3 & _ & Hms3 & _).
  destruct (assignContainersToRegions cra) as [cra1 errs] eqn:Hassign.
  cbn [snd] in Ha. subst errs. cbn [fst] in *.
  exists entries, plan, pre. split; [done|]. split; [done|].
  assert (update now cra
          = updateHeadrooms
              (emit (emit (setMetaCache (afterProvision cra reservePoolInfo)
                             (UpdateRegionEntries
                                (metaCache (afterProvision cra reservePoolInfo)) entries))
                          [EvUpdateRegionEntries entries])
                    ([] ++ [EvSend plan; EvLog LInfo "notify cpu server" []]))) as Hu.
  { rewrite (update_assign_ok now cra reservePoolInfo cra1) by done.
    cbv zeta. rewrite He. fields.
    rewrite bool_decide_eq_false_2 by (fields; lia).
    change (assembleProvision
              (emit (setMetaCache (afterProvision cra reservePoolInfo)
                       (UpdateRegionEntries
                          (metaCache (afterProvision cra reservePoolInfo)) entries))
                    [EvUpdateRegionEntries entries]))
      with (assembleProvision (afterProvision cra reservePoolInfo)).
    by rewrite Hplan. }
  match type of Hu with
  | _ = updateHeadrooms ?c =>
      destruct (updateHeadrooms_fields c) as (_ & _ & _ & _ & Hmc5 & _ & _ & Htr5)
  end.
  split; [|split; [done|]; split; [done|]; split; [done|]; split].
  - apply cycleEvents_eq. rewrite Hu, Htr5. fields. rewrite Htr, <- !app_assoc. done.
  - rewrite Hu, Hmc5. by fields.
  - rewrite Hu. unfold updateHeadrooms. fields. by rewrite Hms3, Hms.
Qed.

(** ** A MetaCache without containers *)

Lemma assignContainersToRegions_no_container cra :
  containers (metaCache cra) = [] →
  regionMap (assignContainersToRegions cra).1 = ∅ ∧
  (assignContainersToRegions cra).2 = None.
Proof.
  intros Hcs. unfold assignContainersToRegions. fields. rewrite Hcs.
  cbn [rangeContainers fst snd NewAggregate]. split; [|done].
  unfold updateNonBindingNumas. fields.
  assert (regionMap (gc (setMetaCache (setRegionMap cra (Clear <$> regionMap cra))
                           (setContainers (metaCache cra) []))) = ∅) as ->.
  { apply map_empty. intros k. apply eq_None_not_Some. intros [r' Hk].
    apply gc_lookup in Hk as [Hk Hne]. fields.
    apply lookup_fmap_Some in Hk as (r & <- & _). by cbn in Hne. }
  apply fmap_empty.
Qed.

(** X12: when the MetaCache holds the reserve pool and no container, a cycle
    empties the region map, whatever regions the advisor had, and makes every
    system NUMA node a non-binding one; [GetHeadroom] then answers the number
    of CPUs of the machine minus the size of the reserve pool. *)
Theorem update_without_containers now cra reservePoolInfo :
  GetPoolInfo (metaCache cra) PoolNameReserve = Some reservePoolInfo →
  containers (metaCache cra) = [] →
  regionMap (update now cra) = ∅ ∧
  nonBindingNumas (update now cra) = systemNumas cra ∧
  (GoInt.in_range (NumCPUs (metaServer cra)
                   - CountCPUAssignmentCPUs (TopologyAwareAssignments reservePoolInfo)) →
   GetHeadroom (update now cra)
   = Ok (NumCPUs (metaServer cra)
         - CountCPUAssignmentCPUs (TopologyAwareAssignments reservePoolInfo))).
Proof.
  intros Hr Hcs.
  destruct (assignContainersToRegions_no_container cra Hcs) as [Hempty _].
  destruct (update_shape now cra) as (Hsh & _ & Hnb); [by eexists|].
  destruct (assignContainersToRegions_facts cra) as (_ & _ & Hsys & _ & _ & _ & _ & Hinv & _).
  rewrite Hempty in Hsh. rewrite fmap_empty in Hsh. apply fmap_empty_inv in Hsh.
  rewrite Hempty, Hsys in Hinv.
  assert (exclusiveNumas (∅ : gmap string (QoSRegion P)) = ∅) as Hex.
  { unfold exclusiveNumas. by rewrite map_to_list_empty. }
  rewrite Hex, difference_empty_L in Hinv.
  split; [done|]. split; [by rewrite Hnb|].
  intros Hrange. unfold GetHeadroom.
  destruct (update_identity now cra) as [Hid _].
  rewrite (GetPoolSize_identity _ _ Hid). unfold GetPoolSize. rewrite Hr. cbn [fmap option_fmap option_map].
  rewrite Hsh, map_size_empty, bool_decide_eq_true_2 by lia.
  destruct (update_fields now cra) as (_ & _ & _ & Hms & _). rewrite Hms.
  unfold GoInt.sub. by rewrite GoIntFacts.wrap64_id.
Qed.

(** ** Regions created for a container *)

Lemma regionNameOf_inj t : Inj (=) (=) (regionNameOf t).
Proof.
  intros n m Hnm. unfold regionNameOf in Hnm.
  apply String.app_inj, String.app_inj in Hnm. by apply pretty_nat_inj.
Qed.

Lemma newDedicatedRegions_spec numaIDs : ∀ cra owner regions,
  (newDedicatedRegions cra owner numaIDs regions).1
  = regions ++ zip_with (λ n numaID,
                           NewQoSRegionDedicatedNumaExclusive
                             (regionNameOf QoSRegionTypeDedicatedNumaExclusive n)
                             owner numaID)
                        (seq (uuidCount cra) (length numaIDs)) numaIDs ∧
  uuidCount (newDedicatedRegions cra owner numaIDs regions).2
  = (uuidCount cra + length numaIDs)%nat ∧
  regionMap (newDedicatedRegions cra owner numaIDs regions).2 = regionMap cra ∧
  metaCache (newDedicatedRegions cra owner numaIDs regions).2 = metaCache cra.
Proof.
  induction numaIDs as [|numaID numaIDs IH]; intros cra owner regions.
  - cbn. rewrite app_nil_r. repeat split. lia.
  - cbn [newDedicatedRegions]. unfold NewUUID.
    match goal with
    | |- context [newDedicatedRegions ?c ?o numaIDs ?l] =>
        destruct (IH c o l) as (I1 & I2 & I3 & I4)
    end.
    rewrite I1, I2, I3, I4. fields. cbn [length seq zip_with].
    rewrite <- app_assoc. repeat split. lia.
Qed.

(** X13: for a NUMA-binding container that is not shared-cores and names no
    region yet, [assignToRegions] creates one dedicated-numa-exclusive region
    per NUMA node of the container's assignment, each owned by the
    container's pool and bound to that one node, under pairwise distinct
    names made of the type, the separator and a fresh identifier; it reports
    no error and leaves region map and MetaCache alone. *)
Theorem assignToRegions_new_dedicated cra ci :
  ciQoSLevel ci ≠ PodAnnotationQoSLevelSharedCores →
  ciNumaBinding ci = true →
  ciRegionNames ci = ∅ →
  ∃ regions cra',
    assignToRegions cra ci = (regions, None, cra') ∧
    regions = zip_with (λ n numaID,
                          NewQoSRegionDedicatedNumaExclusive
                            (regionNameOf QoSRegionTypeDedicatedNumaExclusive n)
                            (ciOwnerPoolName ci) numaID)
                       (seq (uuidCount cra) (size (ciTopologyAwareAssignments ci)))
                       (map_to_list (ciTopologyAwareAssignments ci)).*1 ∧
    length regions = size (ciTopologyAwareAssignments ci) ∧
    NoDup (rName <$> regions) ∧
    (∀ numaID, numaID ∈ dom (ciTopologyAwareAssignments ci) ↔
               ∃ r, r ∈ regions ∧ GetBindingNumas r = {[ numaID ]}) ∧
    uuidCount cra' = (uuidCount cra + size (ciTopologyAwareAssignments ci))%nat ∧
    regionMap cra' = regionMap cra ∧ metaCache cra' = metaCache cra.
Proof.
  intros Hq Hb Hnames. unfold assignToRegions.
  rewrite decide_False by done. rewrite Hb.
  unfold getContainerRegions. rewrite Hnames, elements_empty. cbn [findRegions length].
  rewrite bool_decide_eq_false_2 by lia.
  set (numaIDs := (map_to_list (ciTopologyAwareAssignments ci)).*1).
  assert (length numaIDs = size (ciTopologyAwareAssignments ci)) as Hlen.
  { unfold numaIDs. by rewrite length_fmap, length_map_to_list. }
  destruct (newDedicatedRegions_spec numaIDs cra (ciOwnerPoolName ci) [])
    as (N1 & N2 & N3 & N4).
  destruct (newDedicatedRegions cra (ciOwnerPoolName ci) numaIDs []) as [regions cra'].
  cbn [fst snd app] in *. rewrite Hlen in N1, N2.
  exists regions, cra'. split; [done|]. split; [done|].
  assert (rName <$> regions
          = regionNameOf QoSRegionTypeDedicatedNumaExclusive
            <$> seq (uuidCount cra) (size (ciTopologyAwareAssignments ci))) as Hrn.
  { rewrite N1, <- Hlen. clear. generalize (uuidCount cra).
    induction numaIDs as [|numaID numaIDs IH]; intros n; [done|].
    cbn [length seq zip_with fmap list_fmap]. f_equal. apply IH. }
  assert (GetBindingNumas <$> regions = (λ numaID : Z, {[ numaID ]}) <$> numaIDs) as Hbn.
  { rewrite N1, <- Hlen. clear. generalize (uuidCount cra).
    induction numaIDs as [|numaID numaIDs IH]; intros n; [done|].
    cbn [length seq zip_with fmap list_fmap]. f_equal. apply IH. }
  split; [|split; [|split; [|done]]].
  - rewrite <- (length_fmap rName), Hrn, length_fmap, length_seq. done.
  - rewrite Hrn. apply NoDup_fmap_2; [apply regionNameOf_inj|apply NoDup_seq].
  - intros numaID. split.
    + intros Hin. apply elem_of_dom in Hin as [cpus Hcpus].
      assert (({[ numaID ]} : CPUSet) ∈ GetBindingNumas <$> regions) as Hmem.
      { rewrite Hbn. apply list_elem_of_fmap. exists numaID. split; [done|].
        apply list_elem_of_fmap. exists (numaID, cpus). split; [done|].
        by apply elem_of_map_to_list. }
      apply list_elem_of_fmap in Hmem as (r & Hr & Hin). by exists r.
    + intros (r & Hin & Hr).
      assert (GetBindingNumas r ∈ GetBindingNumas <$> regions) as Hmem
        by (apply list_elem_of_fmap; eauto).
      rewrite Hbn, Hr in Hmem.
      apply list_elem_of_fmap in Hmem as (numaID' & Heq & Hin').
      assert (numaID = numaID') as <-.
      { apply (elem_of_singleton (C := CPUSet)). rewrite <- Heq.
        by apply elem_of_singleton. }
      apply list_elem_of_fmap in Hin' as ([n cpus] & -> & Hin').
      apply elem_of_map_to_list in Hin'. apply elem_of_dom. by eexists.
Qed.

(** ** The essentials handed to a region *)

Lemma sum_fmap_perm (g : Z → Z) (l1 l2 : list Z) :
  l1 ≡ₚ l2 → foldr Z.add 0 (g <$> l1) = foldr Z.add 0 (g <$> l2).
Proof.
  induction 1 as [|x l1 l2 _ IH|x y l|l1 l2 l3 _ IH1 _ IH2]; cbn; [done|lia|lia|congruence].
Qed.

Lemma sum_elements_split (g : Z → Z) (numas : CPUSet) (i : Z) :
  i ∈ numas →
  foldr Z.add 0 (g <$> elements numas)
  = g i + foldr Z.add 0 (g <$> elements (numas ∖ {[ i ]})).
Proof.
  intros Hi.
  rewrite (sum_fmap_perm g (elements numas) (i :: elements (numas ∖ {[ i ]}))); [done|].
  rewrite (union_difference_singleton_L i numas Hi) at 1.
  apply elements_union_singleton. rewrite elem_of_difference, elem_of_singleton. tauto.
Qed.

Lemma sum_fmap_ext (g1 g2 : Z → Z) (l : list Z) :
  (∀ n, n ∈ l → g1 n = g2 n) →
  foldr Z.add 0 (g1 <$> l) = foldr Z.add 0 (g2 <$> l).
Proof.
  induction l as [|n l IH]; intros Hext; [done|]. cbn.
  rewrite (Hext n) by apply list_elem_of_here.
  rewrite IH; [done|]. intros m Hm. apply Hext. by apply list_elem_of_further.
Qed.

Lemma CountCPUAssignmentCPUs_insert (m : gmap Z CPUSet) i x :
  m !! i = None →
  CountCPUAssignmentCPUs (<[i := x]> m) = Size x + CountCPUAssignmentCPUs m.
Proof.
  intros Hi. unfold CountCPUAssignmentCPUs.
  rewrite map_fold_insert_L; [done| |done]. intros. lia.
Qed.

Lemma CountCPUAssignmentCPUs_nonneg (m : gmap Z CPUSet) : 0 <= CountCPUAssignmentCPUs m.
Proof.
  induction m as [|i x m Hi IH] using map_ind; [done|].
  rewrite CountCPUAssignmentCPUs_insert by done. unfold Size, GoInt.len. lia.
Qed.

(** The reserve CPUs on the NUMA nodes of a set, counted node by node, are the
    CPUs of the part of the assignment that lies on these nodes. *)
Lemma reserve_on_numas (assignments : gmap Z CPUSet) (numas : CPUSet) :
  foldr Z.add 0 (reserveOn assignments <$> elements numas)
  = CountCPUAssignmentCPUs (filter (λ kv, kv.1 ∈ numas) assignments).
Proof.
  induction assignments as [|i x m Hi IH] using map_ind.
  - rewrite map_filter_empty.
    rewrite (sum_fmap_ext _ (λ _, 0)) by done.
    induction (elements numas) as [|n l IHl]; [done|]. cbn in *. by rewrite IHl.
  - destruct (decide (i ∈ numas)) as [Hin|Hnot].
    + rewrite map_filter_insert_True by done.
      rewrite CountCPUAssignmentCPUs_insert
        by (apply map_lookup_filter_None; by left).
      rewrite <- IH.
      rewrite (sum_elements_split _ numas i Hin), (sum_elements_split (reserveOn m) numas i Hin).
      unfold reserveOn at 1 3. rewrite lookup_insert_eq, Hi, Z.add_0_l. f_equal.
      apply sum_fmap_ext. intros n Hn. apply elem_of_elements in Hn.
      unfold reserveOn. rewrite lookup_insert_ne; [done|].
      apply elem_of_difference in Hn as [_ Hn]. rewrite elem_of_singleton in Hn. congruence.
    + rewrite map_filter_insert_False by done.
      rewrite delete_id by done. rewrite <- IH.
      apply sum_fmap_ext. intros n Hn. apply elem_of_elements in Hn.
      unfold reserveOn. rewrite lookup_insert_ne; [done|]. by intros ->.
Qed.

Lemma CountCPUAssignmentCPUs_filter_le (assignments : gmap Z CPUSet) (numas : CPUSet) :
  CountCPUAssignmentCPUs (filter (λ kv, kv.1 ∈ numas) assignments)
  <= CountCPUAssignmentCPUs assignments.
Proof.
  induction assignments as [|i x m Hi IH] using map_ind.
  - by rewrite map_filter_empty.
  - rewrite (CountCPUAssignmentCPUs_insert m) by done.
    destruct (decide (i ∈ numas)) as [Hin|Hnot].
    + rewrite map_filter_insert_True by done.
      rewrite CountCPUAssignmentCPUs_insert by (apply map_lookup_filter_None; by left).
      lia.
    + rewrite map_filter_insert_False by done. rewrite delete_id by done.
      unfold Size, GoInt.len. lia.
Qed.

Lemma reservePoolSize_loop (assignments : gmap Z CPUSet) (l : list Z) : ∀ acc,
  0 <= acc →
  acc + foldr Z.add 0 (reserveOn assignments <$> l) < 2 ^ 63 →
  foldl (λ acc numaID,
           match assignments !! numaID with
           | Some cpuset => GoInt.add acc (Size cpuset)
           | None => acc
           end) acc l
  = acc + foldr Z.add 0 (reserveOn assignments <$> l).
Proof.
  assert (∀ l', 0 <= foldr Z.add 0 (reserveOn assignments <$> l')) as Hnn.
  { intros l'. apply foldr_add_nonneg, Forall_fmap, Forall_forall. intros n _.
    cbn. unfold reserveOn. destruct (assignments !! n); [|done].
    unfold Size, GoInt.len. lia. }
  induction l as [|n l IH]; intros acc Hacc Hsum; [cbn; lia|].
  rewrite fmap_cons in Hsum |- *. cbn [foldl foldr] in Hsum |- *.
  specialize (Hnn l). unfold reserveOn at 1 in Hsum. unfold reserveOn at 1.
  destruct (assignments !! n) as [cpuset|].
  - assert (0 <= Size cpuset) by (unfold Size, GoInt.len; lia).
    unfold GoInt.add. rewrite GoIntFacts.wrap64_id by (unfold GoInt.in_range; lia).
    rewrite IH by lia. lia.
  - rewrite IH by lia. lia.
Qed.

(** X14: as long as the reserve pool has fewer than 2^63 CPUs, the
    [ReservePoolSize] among the essentials of a region is the number of
    reserve CPUs on the NUMA nodes the region binds; it never exceeds the
    size of the reserve pool and equals it when the region binds every NUMA
    node that holds reserve CPUs. *)
Theorem regionEssentials_reserve cra (reservePoolInfo : PoolInfo) r :
  CountCPUAssignmentCPUs (TopologyAwareAssignments reservePoolInfo) < 2 ^ 63 →
  ReservePoolSize (regionEssentials cra reservePoolInfo r)
  = CountCPUAssignmentCPUs
      (filter (λ kv, kv.1 ∈ GetBindingNumas r) (TopologyAwareAssignments reservePoolInfo)) ∧
  0 <= ReservePoolSize (regionEssentials cra reservePoolInfo r)
    <= CountCPUAssignmentCPUs (TopologyAwareAssignments reservePoolInfo) ∧
  (dom (TopologyAwareAssignments reservePoolInfo) ⊆ GetBindingNumas r →
   ReservePoolSize (regionEssentials cra reservePoolInfo r)
   = CountCPUAssignmentCPUs (TopologyAwareAssignments reservePoolInfo)).
Proof.
  intros Hsize. unfold regionEssentials. cbn [ReservePoolSize].
  pose proof (CountCPUAssignmentCPUs_filter_le (TopologyAwareAssignments reservePoolInfo)
                (GetBindingNumas r)) as Hle.
  pose proof (CountCPUAssignmentCPUs_nonneg
                (filter (λ kv, kv.1 ∈ GetBindingNumas r)
                   (TopologyAwareAssignments reservePoolInfo))) as Hnn.
  assert (foldr Z.add 0 (reserveOn (TopologyAwareAssignments reservePoolInfo)
                         <$> ToSliceInt (GetBindingNumas r))
          = CountCPUAssignmentCPUs
              (filter (λ kv, kv.1 ∈ GetBindingNumas r)
                 (TopologyAwareAssignments reservePoolInfo))) as Hsum.
  { rewrite <- reserve_on_numas. apply sum_fmap_perm.
    unfold ToSliceInt. apply merge_sort_Permutation. }
  rewrite reservePoolSize_loop by (rewrite ?Hsum; lia).
  rewrite Hsum, Z.add_0_l. split; [done|]. split; [lia|].
  intros Hdom. f_equal. apply map_filter_id. intros i x Hix. cbn.
  apply Hdom, elem_of_dom. by eexists.
Qed.

(** X15: with a positive number of NUMA nodes, a non-negative configured
    reserve and no overflow, the [ReservedForAllocate] among the essentials of
    a region that binds no more nodes than the machine has lies between zero
    and the configured reserve, is at least the region's proportional share
    of it, and is the whole of it for a region that binds as many nodes as
    the machine has; [Total] is then the number of CPUs of the bound nodes. *)
Theorem regionEssentials_reserved_for_allocate cra (reservePoolInfo : PoolInfo) r :
  0 < NumNUMANodes (metaServer cra) →
  Size (GetBindingNumas r) <= NumNUMANodes (metaServer cra) →
  0 <= confReservedForAllocateCPU (conf cra) →
  confReservedForAllocateCPU (conf cra) * NumNUMANodes (metaServer cra) < 2 ^ 53 →
  GoInt.in_range (Size (GetBindingNumas r) * CPUsPerNuma (metaServer cra)) →
  Total (regionEssentials cra reservePoolInfo r)
  = Size (GetBindingNumas r) * CPUsPerNuma (metaServer cra) ∧
  0 <= ReservedForAllocate (regionEssentials cra reservePoolInfo r)
    <= confReservedForAllocateCPU (conf cra) ∧
  confReservedForAllocateCPU (conf cra) * Size (GetBindingNumas r)
  <= ReservedForAllocate (regionEssentials cra reservePoolInfo r)
     * NumNUMANodes (metaServer cra) ∧
  (Size (GetBindingNumas r) = NumNUMANodes (metaServer cra) →
   ReservedForAllocate (regionEssentials cra reservePoolInfo r)
   = confReservedForAllocateCPU (conf cra)).
Proof.
  intros Hn Hsz Hrfa Hprod Hmul. unfold regionEssentials.
  cbn [Total ReservedForAllocate].
  set (k := Size (GetBindingNumas r)) in *.
  set (rfa := confReservedForAllocateCPU (conf cra)) in *.
  set (N := NumNUMANodes (metaServer cra)) in *.
  assert (0 <= k) as Hk by (unfold k, Size, GoInt.len; lia).
  assert (0 <= rfa * k <= rfa * N) as Hrk by nia.
  unfold GoInt.mul.
  rewrite (GoIntFacts.wrap64_id (k * _)) by done.
  rewrite (GoIntFacts.wrap64_id (rfa * k)) by (unfold GoInt.in_range; lia).
  pose proof (GoIntFacts.ceil_div_nonneg (rfa * k) N (proj1 Hrk) Hn) as C0.
  pose proof (GoIntFacts.ceil_div_upper (rfa * k) N Hn) as C1.
  assert (GoInt.ceil_div (rfa * k) N <= rfa) as C2
    by (apply GoIntFacts.ceil_div_least; [done|nia]).
  assert (rfa <= rfa * N) as Hrn by nia.
  rewrite (GoIntFacts.wrap64_id (GoInt.ceil_div _ _)) by (unfold GoInt.in_range; lia).
  split; [done|]. split; [lia|]. split; [lia|].
  intros ->. by apply GoIntFacts.ceil_div_exact.
Qed.

Lemma regionEssentials_numas cra cra' (reservePoolInfo : PoolInfo) r r' :
  conf cra' = conf cra → metaServer cra' = metaServer cra →
  GetBindingNumas r' = GetBindingNumas r →
  regionEssentials cra' reservePoolInfo r' = regionEssentials cra reservePoolInfo r.
Proof. intros Hc Hm Hb. unfold regionEssentials. by rewrite Hc, Hm, Hb. Qed.

(** X16: at the end of a cycle that saw the reserve pool and assigned without
    an error, every region of the region map carries the essentials of this
    cycle, computed from the NUMA nodes the region binds at that point,
    whether the cycle went on to send a plan or not. *)
Theorem update_refreshes_essentials now cra reservePoolInfo k r :
  GetPoolInfo (metaCache cra) PoolNameReserve = Some reservePoolInfo →
  (assignContainersToRegions cra).2 = None →
  regionMap (update now cra) !! k = Some r →
  rEssentials r = regionEssentials cra reservePoolInfo r ∧
  EnableReclaim (rEssentials r) = confEnableReclaim (conf cra).
Proof.
  intros Hr Ha Hk.
  destruct (assignContainersToRegions_facts cra) as (Hc & _ & _ & Hms & _).
  assert (∀ k0 r0, regionMap (afterProvision cra reservePoolInfo) !! k0 = Some r0 →
                   rEssentials r0 = regionEssentials cra reservePoolInfo r0) as H3.
  { intros k0 r0 Hk0. unfold afterProvision, updateProvisions, beforeProvision in Hk0.
    fields. apply lookup_fmap_Some in Hk0 as (r1 & <- & Hk1).
    cbn [TryUpdateProvision setPolicy SetEssentials rEssentials].
    apply regionEssentials_numas; by fields. }
  assert (rEssentials r = regionEssentials cra reservePoolInfo r) as Hess.
  { destruct (assignContainersToRegions cra) as [cra1 errs] eqn:Hassign.
    cbn [snd] in Ha. subst errs.
    rewrite (update_assign_ok now cra reservePoolInfo cra1) in Hk by done.
    cbv zeta in Hk.
    destruct (assembleRegionEntries _) as [entries|e]; fields; [|by apply (H3 k)].
    case_bool_decide; fields; [by apply (H3 k)|].
    destruct (assembleProvision _) as [[provision|e|msg] logs]; fields;
      try by apply (H3 k).
    unfold updateHeadrooms in Hk. fields.
    apply lookup_fmap_Some in Hk as (r1 & <- & Hk1).
    cbn [TryUpdateHeadroom setPolicy rEssentials].
    rewrite (H3 k r1 Hk1). by apply regionEssentials_numas. }
  split; [done|]. by rewrite Hess.
Qed.

(** X17: a shared-cores container whose owner pool the MetaCache does not
    hold is given a share region of its own, created on the next identifier
    and entered in the region map with the container in it, and the container
    is made to name that region, whatever it named before; but as the pool
    cannot take the region name, the sync appends the error "failed to find
    pool ...". *)
Theorem syncContainer_missing_pool cra ci errList :
  ciQoSLevel ci = PodAnnotationQoSLevelSharedCores →
  ciOwnerPoolName ci ≠ PoolNameDedicated →
  GetPoolInfo (metaCache cra) (ciOwnerPoolName ci) = None →
  ∃ ci' cra',
    syncContainer ci (cra, errList)
    = (ci', (cra', errList ++ ["failed to find pool " +:+ ciOwnerPoolName ci]), true) ∧
    ciRegionNames ci' = {[ regionNameOf QoSRegionTypeShare (uuidCount cra) ]} ∧
    regionMap cra'
    = <[ regionNameOf QoSRegionTypeShare (uuidCount cra) :=
           mkQoSRegion (regionNameOf QoSRegionTypeShare (uuidCount cra))
             QoSRegionTypeShare (ciOwnerPoolName ci)
             {[ (PodUID ci, ContainerName ci) ]} ∅ ResourceEssentials_zero
             (policyNew QoSRegionTypeShare) ]> (regionMap cra) ∧
    uuidCount cra' = S (uuidCount cra) ∧
    metaCache cra' = metaCache cra.
Proof.
  intros Hq Hd Hp. unfold syncContainer, assignToRegions.
  rewrite decide_True by done. unfold getPoolRegions. rewrite Hp.
  cbn [length]. rewrite bool_decide_eq_false_2 by lia.
  unfold NewUUID. cbn [addToRegions AddContainer NewQoSRegionShare]. fields.
  cbn [rName rType rOwnerPoolName rPodSet rBindingNumas rEssentials rPolicy
       setContainerRegions ciOwnerPoolName].
  rewrite decide_False by done.
  unfold setPoolRegions. fields. rewrite Hp.
  eexists _, _. split; [reflexivity|].
  unfold regionNameOf. simpl. split; [|split; [|done]].
  - apply (right_id_L ∅ (∪)).
  - f_equal. f_equal. apply (right_id_L ∅ (∪)).
Qed.

(** ** Containers and the regions they name *)

Lemma regionNameOf_number t t' n n' : regionNameOf t n = regionNameOf t' n' → n = n'.
Proof.
  intros Hnm. destruct t, t'; try (by apply regionNameOf_inj in Hnm); discriminate.
Qed.

Lemma grown_refl rm : grown rm rm.
Proof. intros k r Hk. by exists r. Qed.

Lemma grown_trans rm1 rm2 rm3 : grown rm1 rm2 → grown rm2 rm3 → grown rm1 rm3.
Proof.
  intros H12 H23 k r Hk.
  destruct (H12 k r Hk) as (r2 & Hk2 & Hs2).
  destruct (H23 k r2 Hk2) as (r3 & Hk3 & Hs3).
  exists r3. split; [done|]. by etrans.
Qed.

Lemma placed_grown rm rm' ci : grown rm rm' → placed rm ci → placed rm' ci.
Proof.
  intros Hg Hp n Hn. destruct (Hp n Hn) as (r & Hr & Hin).
  destruct (Hg n r Hr) as (r' & Hr' & Hs). exists r'. split; [done|]. by apply Hs.
Qed.

Lemma namesDrawn_same cra cra' :
  dom (regionMap cra') = dom (regionMap cra) → uuidCount cra' = uuidCount cra →
  namesDrawn cra → namesDrawn cra'.
Proof.
  intros Hd Hu Hnd t n Hn. apply not_elem_of_dom. rewrite Hd. apply not_elem_of_dom.
  apply Hnd. lia.
Qed.

Lemma found_lookup rm names regions :
  wellKeyed rm → Forall2 (λ n r, rm !! n = Some r) names regions →
  Forall (λ r, rm !! rName r = Some r) regions.
Proof.
  intros Hwk Hf. induction Hf as [|n r names regions Hn _ IH]; constructor; [|done].
  by rewrite (Hwk n r Hn).
Qed.

(** What [addToRegions] leaves in the region map when the regions carry
    distinct names. *)
Lemma addToRegions_lookup ci regions : ∀ cra,
  NoDup (rName <$> regions) →
  (addToRegions ci regions cra).2 = None ∧
  (∀ r, r ∈ regions →
        ∃ r', regionMap (addToRegions ci regions cra).1 !! rName r = Some r' ∧
              rPodSet r' = {[ (PodUID ci, ContainerName ci) ]} ∪ rPodSet r) ∧
  (∀ k, k ∉ rName <$> regions →
        regionMap (addToRegions ci regions cra).1 !! k = regionMap cra !! k).
Proof.
  induction regions as [|r regions IH]; intros cra Hnd.
  - cbn. split; [done|]. split; [|done]. intros r Hr. by apply elem_of_nil in Hr.
  - cbn [addToRegions AddContainer]. rewrite fmap_cons in Hnd.
    apply NoDup_cons in Hnd as [Hnotin Hnd].
    cbn [rName].
    destruct (IH (setRegionMap cra
                    (<[rName r := mkQoSRegion (rName r) (rType r) (rOwnerPoolName r)
                                    ({[ (PodUID ci, ContainerName ci) ]} ∪ rPodSet r)
                                    (rBindingNumas r) (rEssentials r) (rPolicy r)]>
                       (regionMap cra))) Hnd) as (I1 & I2 & I3).
    split; [done|]. split.
    + intros r0 Hr0. apply elem_of_cons in Hr0 as [->|Hr0]; [|by apply I2].
      eexists. split; [rewrite I3 by done; fields; apply lookup_insert_eq|reflexivity].
    + intros k Hk. rewrite fmap_cons in Hk. apply not_elem_of_cons in Hk as [Hk1 Hk2].
      rewrite I3 by done. fields. by rewrite lookup_insert_ne.
Qed.

(** The regions [assignToRegions] returns: each is the region the map holds
    under its name, or a new, empty one under a name drawn in this call. *)
Lemma assignToRegions_found cra ci :
  wellKeyed (regionMap cra) → namesDrawn cra →
  NoDup (rName <$> (assignToRegions cra ci).1.1) ∧
  Forall (λ r, regionMap cra !! rName r = Some r ∨
               (regionMap cra !! rName r = None ∧ rPodSet r = ∅ ∧
                ∃ t n, rName r = regionNameOf t n ∧
                       (n < uuidCount (assignToRegions cra ci).2)%nat))
         (assignToRegions cra ci).1.1 ∧
  (assignable ci → (assignToRegions cra ci).1.2 = None →
   (assignToRegions cra ci).1.1 = [] → ciRegionNames ci = ∅).
Proof.
  intros Hwk Hnd.
  assert (∀ (names : gset string) regions,
            findRegions (regionMap cra) (elements names) = Ok regions →
            NoDup (rName <$> regions) ∧
            Forall (λ r, regionMap cra !! rName r = Some r) regions ∧
            (regions = [] → names = ∅)) as Hfound.
  { intros names regions Hf. apply findRegions_Ok_inv in Hf.
    rewrite (found_names _ _ _ Hwk Hf).
    split; [apply NoDup_elements|]. split; [by eapply found_lookup|].
    intros ->. apply Forall2_nil_inv_r in Hf. by apply elements_empty_inv, leibniz_equiv in Hf. }
  assert (∀ owner,
            let r := NewQoSRegionShare (regionNameOf QoSRegionTypeShare (uuidCount cra)) owner in
            NoDup (rName <$> [r]) ∧
            Forall (λ r, regionMap cra !! rName r = Some r ∨
                         (regionMap cra !! rName r = None ∧ rPodSet r = ∅ ∧
                          ∃ t n, rName r = regionNameOf t n ∧ (n < S (uuidCount cra))%nat))
                   [r]) as Hshare.
  { intros owner r. split; [apply NoDup_singleton|]. apply Forall_singleton. right.
    cbn [r rName rPodSet NewQoSRegionShare]. split; [by apply Hnd|]. split; [done|].
    exists QoSRegionTypeShare, (uuidCount cra). split; [done|lia]. }
  unfold assignToRegions.
  destruct (decide (ciQoSLevel ci = PodAnnotationQoSLevelSharedCores)) as [Hq|Hq].
  - unfold getPoolRegions.
    destruct (GetPoolInfo (metaCache cra) (ciOwnerPoolName ci)) as [pool|].
    + destruct (findRegions _ _) as [regions|e] eqn:Hf.
      * destruct (Hfound _ _ Hf) as (F1 & F2 & F3).
        case_bool_decide as Hlen.
        -- cbn [fst snd]. split; [done|]. split.
           ++ eapply Forall_impl; [exact F2|]. intros r Hr. by left.
           ++ intros _ _ ->. cbn in Hlen. lia.
        -- cbn [NewUUID fst snd uuidCount].
           destruct (Hshare (ciOwnerPoolName ci)) as [S1 S2]. by repeat split.
      * cbn [fst snd]. split; [constructor|]. split; [constructor|]. by intros _ ?.
    + rewrite bool_decide_eq_false_2 by (cbn; lia).
      cbn [NewUUID fst snd uuidCount].
      destruct (Hshare (ciOwnerPoolName ci)) as [S1 S2]. by repeat split.
  - destruct (ciNumaBinding ci) eqn:Hb.
    + unfold getContainerRegions.
      destruct (findRegions _ _) as [regions|e] eqn:Hf.
      * destruct (Hfound _ _ Hf) as (F1 & F2 & F3).
        case_bool_decide as Hlen.
        -- cbn [fst snd]. split; [done|]. split.
           ++ eapply Forall_impl; [exact F2|]. intros r Hr. by left.
           ++ intros _ _ ->. cbn in Hlen. lia.
        -- assert (regions = []) as -> by (destruct regions; [done|cbn in Hlen; lia]).
           set (numaIDs := (map_to_list (ciTopologyAwareAssignments ci)).*1).
           destruct (newDedicatedRegions_spec numaIDs cra (ciOwnerPoolName ci) [])
             as (N1 & N2 & _).
           destruct (newDedicatedRegions cra (ciOwnerPoolName ci) numaIDs [])
             as [regions cra'].
           cbn [fst snd app] in *. subst regions. rewrite N2.
           split; [|split; [|by intros _ _ _; apply F3]].
           ++ clear. generalize (uuidCount cra).
              assert (∀ n, rName <$> zip_with
                             (λ n numaID,
                                NewQoSRegionDedicatedNumaExclusive (P := P)
                                  (regionNameOf QoSRegionTypeDedicatedNumaExclusive n)
                                  (ciOwnerPoolName ci) numaID)
                             (seq n (length numaIDs)) numaIDs
                           = regionNameOf QoSRegionTypeDedicatedNumaExclusive
                             <$> seq n (length numaIDs)) as Hrn.
              { induction numaIDs as [|numaID numaIDs IH]; intros n; [done|].
                cbn [length seq zip_with fmap list_fmap]. f_equal. apply IH. }
              intros n. rewrite Hrn.
              apply NoDup_fmap_2; [apply regionNameOf_inj|apply NoDup_seq].
           ++ apply Forall_forall. intros r Hr.
              apply elem_of_lookup_zip_with in Hr as (i & n & numaID & -> & Hn & _).
              apply lookup_seq in Hn as [-> Hi]. right.
              cbn [rName rPodSet NewQoSRegionDedicatedNumaExclusive].
              split; [apply Hnd; lia|]. split; [done|].
              exists QoSRegionTypeDedicatedNumaExclusive, (uuidCount cra + i)%nat.
              split; [done|lia].
      * cbn [fst snd]. split; [constructor|]. split; [constructor|]. by intros _ ?.
    + cbn [fst snd]. split; [constructor|]. split; [constructor|].
      intros [Ha|Ha] _ _; [done|congruence].
Qed.

(** One run of the closure [f]: names stay drawn, regions only gain
    containers, every container a region gains is the one synced, which then
    names the region; and the container synced is in every region it names
    afterwards unless its look-up failed. *)
Lemma syncContainer_places ci cra errList :
  wellKeyed (regionMap cra) → namesDrawn cra →
  let res := (syncContainer ci (cra, errList)).1 in
  namesDrawn res.2.1 ∧
  grown (regionMap cra) (regionMap res.2.1) ∧
  (∀ k r' pod, regionMap res.2.1 !! k = Some r' → pod ∈ rPodSet r' →
     (∃ r, regionMap cra !! k = Some r ∧ pod ∈ rPodSet r) ∨
     (pod = (PodUID res.1, ContainerName res.1) ∧ k ∈ ciRegionNames res.1)) ∧
  (res.2.2 = [] → assignable res.1 → placed (regionMap res.2.1) res.1).
Proof.
  intros Hwk Hnd. cbv zeta.
  destruct (syncContainer_identity ci cra errList) as (Hid & _).
  revert Hid. unfold syncContainer.
  destruct (assignToRegions_found cra ci Hwk Hnd) as (A1 & A2 & A3).
  pose proof (assignToRegions_regionMap cra ci) as A4.
  destruct (assignToRegions_metaCache cra ci) as (_ & A5).
  destruct (assignToRegions cra ci) as [[regions err] cra1]. cbn [fst snd] in *.
  assert (namesDrawn cra1) as Hnd1.
  { intros t n Hn. rewrite A4. apply Hnd. lia. }
  destruct regions as [|r0 regions0].
  { cbn [fst snd]. intros _. split; [done|]. split; [rewrite A4; apply grown_refl|].
    split.
    - intros k r' pod Hk Hp. left. rewrite A4 in Hk. eauto.
    - intros He Has n Hn. rewrite A3 in Hn; [by apply elem_of_empty in Hn|done| |done].
      destruct err as [e|]; [|done]. cbn in He. by destruct errList. }
  destruct (addToRegions_lookup ci (r0 :: regions0) cra1 A1) as (B1 & B2 & B3).
  destruct (addToRegions_metaCache ci (r0 :: regions0) cra1) as (_ & B4).
  destruct (addToRegions ci (r0 :: regions0) cra1) as [cra2 oe]. cbn [fst snd] in *.
  subst oe.
  set (regions := r0 :: regions0) in *.
  set (ci' := setContainerRegions ci regions).
  assert (∀ k, k ∈ rName <$> regions → ∃ r, r ∈ regions ∧ rName r = k) as Hnamed.
  { intros k Hk. apply list_elem_of_fmap in Hk as (r & -> & Hr). eauto. }
  assert (namesDrawn cra2) as Hnd2.
  { intros t n Hn.
    destruct (decide (regionNameOf t n ∈ rName <$> regions)) as [Hin|Hin].
    - destruct (Hnamed _ Hin) as (r & Hr & Hrn).
      rewrite Forall_forall in A2.
      destruct (A2 r Hr) as [Hold|(_ & _ & t' & n' & Hnew & Hlt)].
      + rewrite Hrn, Hnd in Hold by lia. done.
      + rewrite Hrn in Hnew. apply regionNameOf_number in Hnew. lia.
    - rewrite B3, A4 by done. apply Hnd. lia. }
  assert (grown (regionMap cra) (regionMap cra2)) as Hg.
  { intros k r Hk.
    destruct (decide (k ∈ rName <$> regions)) as [Hin|Hin].
    - destruct (Hnamed _ Hin) as (rr & Hrr & <-).
      destruct (B2 rr Hrr) as (r' & Hr' & Hp'). exists r'. split; [done|].
      rewrite Forall_forall in A2.
      destruct (A2 rr Hrr) as [Hold|(Hnone & _)]; [|congruence].
      assert (rr = r) as -> by congruence. rewrite Hp'. apply union_subseteq_r.
    - exists r. split; [|done]. by rewrite B3, A4. }
  assert (∀ k r' pod, regionMap cra2 !! k = Some r' → pod ∈ rPodSet r' →
            (∃ r, regionMap cra !! k = Some r ∧ pod ∈ rPodSet r) ∨
            (pod = (PodUID ci', ContainerName ci') ∧ k ∈ ciRegionNames ci')) as Hm.
  { intros k r' pod Hk Hpod.
    destruct (decide (k ∈ rName <$> regions)) as [Hin|Hin].
    - destruct (Hnamed _ Hin) as (rr & Hrr & <-).
      destruct (B2 rr Hrr) as (r'' & Hr'' & Hp'').
      assert (r'' = r') as -> by congruence.
      rewrite Hp'' in Hpod. apply elem_of_union in Hpod as [Hpod|Hpod].
      + right. apply elem_of_singleton in Hpod as ->. split; [done|].
        unfold ci', setContainerRegions. cbn [ciRegionNames].
        by apply elem_of_list_to_set.
      + left. rewrite Forall_forall in A2.
        destruct (A2 rr Hrr) as [Hold|(_ & Hempty & _)]; [eauto|].
        rewrite Hempty in Hpod. by apply elem_of_empty in Hpod.
    - left. rewrite B3, A4 in Hk by done. eauto. }
  assert (placed (regionMap cra2) ci') as Hp.
  { intros n Hn. unfold ci', setContainerRegions in Hn. cbn [ciRegionNames] in Hn.
    apply elem_of_list_to_set in Hn.
    destruct (Hnamed _ Hn) as (rr & Hrr & <-).
    destruct (B2 rr Hrr) as (r' & Hr' & Hp'). exists r'. split; [done|].
    rewrite Hp'. by apply elem_of_union_l, elem_of_singleton. }
  destruct (decide (ciOwnerPoolName ci' = PoolNameDedicated)) as [Hd|Hd].
  { cbn [fst snd]. by intros _. }
  pose proof (setPoolRegions_regionMap cra2 (ciOwnerPoolName ci') regions) as C1.
  destruct (setPoolRegions_identity cra2 (ciOwnerPoolName ci') regions) as (_ & C2).
  destruct (setPoolRegions cra2 (ciOwnerPoolName ci') regions) as [cra3 [e|]];
    cbn [fst snd] in *; intros _; rewrite C1.
  - split.
    + eapply namesDrawn_same; [|exact C2|exact Hnd2]. by rewrite C1.
    + by repeat split.
  - split.
    + eapply namesDrawn_same; [|exact C2|exact Hnd2]. by rewrite C1.
    + by repeat split.
Qed.

Lemma rangeContainers_places cs : ∀ cra errList,
  wellKeyed (regionMap cra) → namesDrawn cra →
  let res := rangeContainers syncContainer cs (cra, errList) in
  namesDrawn res.2.1 ∧
  grown (regionMap cra) (regionMap res.2.1) ∧
  (∀ k r' pod, regionMap res.2.1 !! k = Some r' → pod ∈ rPodSet r' →
     (∃ r, regionMap cra !! k = Some r ∧ pod ∈ rPodSet r) ∨
     (∃ ci', ci' ∈ res.1 ∧ pod = (PodUID ci', ContainerName ci') ∧
             k ∈ ciRegionNames ci')) ∧
  (res.2.2 = [] → ∀ ci', ci' ∈ res.1 → assignable ci' → placed (regionMap res.2.1) ci').
Proof.
  induction cs as [|ci cs IH]; intros cra errList Hwk Hnd; cbv zeta.
  { cbn. split; [done|]. split; [apply grown_refl|]. split; [eauto|].
    intros _ ci' Hin. by apply elem_of_nil in Hin. }
  cbn [rangeContainers].
  pose proof (syncContainer_continue ci (cra, errList)) as Hc.
  pose proof (syncContainer_wellKeyed ci cra errList Hwk) as Hwk1.
  destruct (syncContainer_places ci cra errList Hwk Hnd) as (S1 & S2 & S3 & S4).
  destruct (syncContainer ci _) as [[ci1 [cra1 errList1]] b].
  cbn [fst snd] in *. subst b.
  destruct (IH cra1 errList1 Hwk1 S1) as (I1 & I2 & I3 & I4).
  pose proof (rangeContainers_errList cs cra1 errList1) as Hpre.
  destruct (rangeContainers syncContainer cs (cra1, errList1)) as [rest' [cra2 errList2]].
  cbn [fst snd] in *.
  split; [done|]. split; [by eapply grown_trans|]. split.
  - intros k r' pod Hk Hpod.
    destruct (I3 k r' pod Hk Hpod) as [(r1 & Hr1 & Hp1)|(ci' & Hin & Heq & Hnm)].
    + destruct (S3 k r1 pod Hr1 Hp1) as [?|[Heq Hnm]]; [by left|].
      right. exists ci1. split; [apply list_elem_of_here|done].
    + right. exists ci'. split; [by apply list_elem_of_further|done].
  - intros -> ci' Hin Has. apply prefix_nil_inv in Hpre as ->.
    apply elem_of_cons in Hin as [->|Hin].
    + eapply placed_grown; [exact I2|]. by apply S4.
    + by apply I4.
Qed.

(** At the end of the assignment phase the container sets of the regions and
    the region names of the containers describe one relation. *)
Lemma assignContainersToRegions_places cra :
  wellKeyed (regionMap cra) → namesDrawn cra →
  let cra' := (assignContainersToRegions cra).1 in
  namesDrawn cra' ∧
  membersKnown (regionMap cra') (containers (metaCache cra')) ∧
  ((assignContainersToRegions cra).2 = None →
   ∀ ci, ci ∈ containers (metaCache cra') → assignable ci → placed (regionMap cra') ci).
Proof.
  intros Hwk Hnd. cbv zeta. unfold assignContainersToRegions.
  set (cra1 := setRegionMap cra (Clear <$> regionMap cra)).
  assert (wellKeyed (regionMap cra1)) as Hwk1.
  { unfold cra1. fields. intros k r' Hk. apply lookup_fmap_Some in Hk as (r & <- & Hk).
    exact (Hwk k r Hk). }
  assert (namesDrawn cra1) as Hnd1.
  { eapply namesDrawn_same; [| |exact Hnd]; unfold cra1; fields; [|done].
    by rewrite dom_fmap_L. }
  destruct (rangeContainers_places (containers (metaCache cra1)) cra1 [] Hwk1 Hnd1)
    as (R1 & _ & R3 & R4).
  destruct (rangeContainers syncContainer _ _) as [cs [cra2 errList]].
  cbn [fst snd] in *.
  set (cra3 := setMetaCache cra2 (setContainers (metaCache cra2) cs)).
  assert (∀ k r', regionMap (updateNonBindingNumas (gc cra3)) !! k = Some r' →
                  ∃ r, regionMap cra2 !! k = Some r ∧ rPodSet r' = rPodSet r) as Hback.
  { intros k r' Hk. unfold updateNonBindingNumas in Hk. fields.
    apply lookup_fmap_Some in Hk as (r & <- & Hk).
    apply gc_lookup in Hk as [Hk _]. unfold cra3 in Hk. fields.
    exists r. split; [done|]. by destruct (decide _). }
  assert (containers (metaCache (updateNonBindingNumas (gc cra3))) = cs) as Hcs.
  { destruct (updateNonBindingNumas_fields (gc cra3)) as (_ & _ & _ & _ & -> & _).
    destruct (frame_gc_fields cra3) as (_ & _ & _ & _ & -> & _). done. }
  rewrite Hcs. split; [|split].
  - intros t n Hn. apply eq_None_not_Some. intros [r' Hk].
    destruct (Hback _ _ Hk) as (r & Hr & _).
    rewrite R1 in Hr; [done|]. revert Hn. unfold updateNonBindingNumas, gc, cra3.
    by fields.
  - intros k r' pod Hk Hpod. destruct (Hback _ _ Hk) as (r & Hr & Hp).
    rewrite Hp in Hpod.
    destruct (R3 k r pod Hr Hpod) as [(r1 & Hr1 & Hp1)|?]; [|done].
    unfold cra1 in Hr1. fields. apply lookup_fmap_Some in Hr1 as (r0 & <- & _).
    cbn [Clear rPodSet] in Hp1. by apply elem_of_empty in Hp1.
  - intros He ci Hin Has n Hn.
    assert (errList = []) as -> by (by destruct errList).
    destruct (R4 eq_refl ci Hin Has n Hn) as (r & Hr & Hp).
    unfold updateNonBindingNumas. fields. rewrite lookup_fmap.
    assert (regionMap (gc cra3) !! n = Some r) as ->.
    { apply gc_lookup. unfold cra3. fields. split; [done|].
      unfold IsEmpty. apply bool_decide_eq_false_2.
      assert (size (rPodSet r) ≠ 0%nat); [|lia].
      intros Hz. apply size_empty_inv in Hz. by apply (Hz _) in Hp. }
    eexists. split; [reflexivity|]. by destruct (decide _).
Qed.

Lemma update_containers now cra :
  is_Some (GetPoolInfo (metaCache cra) PoolNameReserve) →
  containers (metaCache (update now cra))
  = containers (metaCache (assignContainersToRegions cra).1).
Proof.
  intros [reservePoolInfo Hr].
  destruct (afterProvision_fields cra reservePoolInfo) as (_ & _ & _ & _ & Hmc & _).
  destruct (assignContainersToRegions cra) as [cra1 [errs|]] eqn:Ha.
  { by rewrite (update_assign_failed now cra reservePoolInfo cra1 errs). }
  rewrite (update_assign_ok now cra reservePoolInfo cra1) by done.
  cbv zeta. cbn [fst] in Hmc.
  destruct (assembleRegionEntries _) as [entries|e]; fields; [|by rewrite Hmc].
  case_bool_decide; fields; [by rewrite Hmc|].
  destruct (assembleProvision _) as [[provision|e|msg] logs]; fields;
    by rewrite Hmc.
Qed.

Lemma update_namesDrawn now cra :
  wellKeyed (regionMap cra) → namesDrawn cra → namesDrawn (update now cra).
Proof.
  intros Hwk Hnd.
  destruct (assignContainersToRegions_places cra Hwk Hnd) as (Hnd1 & _).
  assert (∀ reservePoolInfo, namesDrawn (afterProvision cra reservePoolInfo)) as Hnd3.
  { intros reservePoolInfo. eapply namesDrawn_same; [| |exact Hnd1].
    - by destruct (afterProvision_fields cra reservePoolInfo) as (_ & _ & _ & _ & _ & _ & ? & _).
    - unfold afterProvision, updateProvisions, beforeProvision. by fields. }
  apply (update_elim now cra namesDrawn).
  - intros evs. by eapply namesDrawn_same; [| |exact Hnd].
  - intros evs. by eapply namesDrawn_same; [| |exact Hnd1].
  - intros reservePoolInfo evs. by eapply namesDrawn_same; [| |exact (Hnd3 reservePoolInfo)].
  - intros reservePoolInfo entries evs.
    by eapply namesDrawn_same; [| |exact (Hnd3 reservePoolInfo)].
  - intros reservePoolInfo entries evs.
    eapply namesDrawn_same; [| |exact (Hnd3 reservePoolInfo)].
    + unfold updateHeadrooms. fields. by rewrite dom_fmap_L.
    + unfold updateHeadrooms. by fields.
Qed.

(** X18: a cycle that sees the reserve pool leaves the container sets of the
    regions and the region names of the containers in step, as long as no
    region carries a name that is still to be drawn: every container in the
    set of a region of the region map is a container of the MetaCache that
    names this region; and when the assignment reported no error, every
    shared-cores or NUMA-binding container of the MetaCache is in the set of
    each region it names, all of which the region map holds. *)
Theorem update_places_containers now cra :
  wellKeyed (regionMap cra) → namesDrawn cra →
  is_Some (GetPoolInfo (metaCache cra) PoolNameReserve) →
  membersKnown (regionMap (update now cra)) (containers (metaCache (update now cra))) ∧
  ((assignContainersToRegions cra).2 = None →
   ∀ ci, ci ∈ containers (metaCache (update now cra)) → assignable ci →
         placed (regionMap (update now cra)) ci).
Proof.
  intros Hwk Hnd Hr.
  destruct (assignContainersToRegions_places cra Hwk Hnd) as (_ & Hm & Hp).
  destruct (update_shape now cra Hr) as (Hsh & _).
  rewrite (update_containers now cra Hr). split.
  - intros k r' pod Hk Hpod.
    destruct (shape_lookup _ _ k r' Hsh Hk) as (r & Hk1 & Hs).
    apply regionShape_inv in Hs as (_ & _ & Hs & _). rewrite Hs in Hpod.
    by apply (Hm k r pod).
  - intros He ci Hin Has n Hn.
    destruct (Hp He ci Hin Has n Hn) as (r & Hk1 & Hpod).
    destruct (shape_lookup _ _ n r (eq_sym Hsh) Hk1) as (r' & Hk & Hs).
    apply regionShape_inv in Hs as (_ & _ & Hs & _).
    exists r'. split; [done|]. by rewrite <- Hs.
Qed.

(** X6: whatever triggers arrive after the advisor is built, the advisor
    keeps its configuration, start time, system NUMA set and topology, its
    region map stays well keyed, holds no empty region and no region under a
    name that is still to be drawn, and every dedicated-numa-exclusive region
    in it binds exactly one NUMA node; the MetaCache keeps its pools and
    containers up to their region names. *)
Theorem Run_invariants (triggers : list Z) (c : Configuration) (built : Z)
    (mc : MetaCache) (ms : MetaServer) :
  let cra := Run triggers (NewCPUResourceAdvisor c built mc ms) in
  conf cra = c ∧ startTime cra = built ∧ systemNumas cra = NUMANodes ms ∧
  metaServer cra = ms ∧
  wellKeyed (regionMap cra) ∧ noEmptyRegion (regionMap cra) ∧
  dedicatedOnOneNuma (regionMap cra) ∧ namesDrawn cra ∧
  poolIdentity <$> poolEntries (metaCache cra) = poolIdentity <$> poolEntries mc ∧
  containerIdentity <$> containers (metaCache cra) = containerIdentity <$> containers mc.
Proof.
  cbv zeta. unfold Run.
  induction triggers as [|now triggers IH] using rev_ind.
  - cbn. repeat split; try done; by intros k r Hk.
  - rewrite foldl_app. cbn [foldl].
    destruct IH as (I1 & I2 & I3 & I4 & I5 & I6 & I7 & I8 & I9 & I10).
    match goal with
    | |- context [update now ?c0] =>
        destruct (update_fields now c0) as (F1 & F2 & F3 & F4 & _);
        destruct (update_identity now c0) as (K1 & K2);
        pose proof (update_wellKeyed now c0 I5);
        pose proof (update_noEmptyRegion now c0 I6);
        pose proof (update_dedicatedOnOneNuma now c0 I7);
        pose proof (update_namesDrawn now c0 I5 I8)
    end.
    rewrite F1, F2, F3, F4, K1, K2. by repeat split.
Qed.

End Coverage.

(** * The further properties on concrete nodes *)

Section CoverageConcrete.
Import Scenario MoreNodes.

Lemma getContainerRegions_round_trip_witness :
  ∃ regions,
    getContainerRegions failingNode (dedicatedContainer {[ "dedicated_numa_exclusive-1" ]})
    = Ok regions ∧
    length regions = 1%nat ∧
    setContainerRegions (dedicatedContainer {[ "dedicated_numa_exclusive-1" ]}) regions
    = dedicatedContainer {[ "dedicated_numa_exclusive-1" ]}.
Proof.
  destruct (getContainerRegions_round_trip failingNode
              (dedicatedContainer {[ "dedicated_numa_exclusive-1" ]}))
    as (regions & Hg & _ & Hlen & Hset).
  - intros k r Hk.
    apply String.eqb_eq.
    refine (map_forallb (λ k r, String.eqb (rName r) k) (regionMap failingNode) _ k r Hk).
    vm_compute; reflexivity.
  - intros n Hn. unfold dedicatedContainer in Hn. cbn [ciRegionNames] in Hn.
    apply elem_of_singleton in Hn as ->.
    apply elem_of_dom. eexists. vm_compute; reflexivity.
  - exists regions. split; [exact Hg|]. split; [|exact Hset].
    rewrite Hlen. vm_compute; reflexivity.
Defined.

Lemma syncContainer_stale_region_witness :
  ∃ m, syncContainer (dedicatedContainer {[ "dedicated_numa_exclusive-7" ]}) (staleNode, [])
       = (dedicatedContainer {[ "dedicated_numa_exclusive-7" ]},
          (staleNode, [] ++ ["failed to find region " +:+ m]), true).
Proof.
  destruct (syncContainer_stale_region staleNode
              (dedicatedContainer {[ "dedicated_numa_exclusive-7" ]}) []
              "dedicated_numa_exclusive-7") as (m & _ & _ & Hs).
  - discriminate.
  - reflexivity.
  - unfold dedicatedContainer. cbn [ciRegionNames]. by apply elem_of_singleton.
  - vm_compute; reflexivity.
  - by exists m.
Defined.

Lemma setPoolRegions_getPoolRegions_witness :
  (setPoolRegions (shareNode reservePool 3 11) PoolNameShare [theShareRegion]).2 = None ∧
  (setPoolRegions unpersistedNode PoolNameShare [theShareRegion]).2
  = Some "no space left on device" ∧
  ∃ regions',
    getPoolRegions (setPoolRegions unpersistedNode PoolNameShare [theShareRegion]).1
      PoolNameShare = Ok regions' ∧
    ∀ r, r ∈ regions' ↔ r ∈ [theShareRegion].
Proof.
  destruct (setPoolRegions_getPoolRegions (shareNode reservePool 3 11) PoolNameShare
              (sharePool {[ "share-0" ]}) [theShareRegion]) as (H1 & _ & _).
  { vm_compute; reflexivity. }
  { intros k r Hk. unfold shareNode in Hk. cbn [regionMap] in Hk.
    by apply lookup_singleton_Some in Hk as [<- <-]. }
  { intros r Hr. apply list_elem_of_singleton in Hr as ->. apply lookup_singleton_eq. }
  destruct (setPoolRegions_getPoolRegions unpersistedNode PoolNameShare
              (sharePool ∅) [theShareRegion]) as (E1 & _ & E3).
  { vm_compute; reflexivity. }
  { intros k r Hk. unfold unpersistedNode in Hk. cbn [regionMap] in Hk.
    by apply lookup_singleton_Some in Hk as [<- <-]. }
  { intros r Hr. apply list_elem_of_singleton in Hr as ->. apply lookup_singleton_eq. }
  split; [exact H1|]. split; [exact E1|exact E3].
Defined.

Lemma GetHeadroom_region_error_witness :
  ∃ k' r' e', regionMap noHeadroomNode !! k' = Some r' ∧
              regionGetHeadroom r' = Err e' ∧ GetHeadroom noHeadroomNode = Err e'.
Proof.
  apply (GetHeadroom_region_error noHeadroomNode 2 "share-0"
           (shareRegion "share-0"
              (mkFixedPolicy (Ok (knobOf ControlKnobNonReclaimedCPUSetSize 3))
                             (Err "headroom not ready") 1 0)) "headroom not ready").
  - vm_compute; reflexivity.
  - apply lookup_singleton_eq.
  - reflexivity.
Defined.

Lemma assembleRegionEntries_mirror_witness :
  ∃ entries,
    assembleRegionEntries (shareNode reservePool 3 11) = Ok entries ∧
    dom entries = dom (regionMap (shareNode reservePool 3 11)) ∧
    Headroom <$> entries = {[ "share-0" := 0 ]}.
Proof.
  eexists. split; [vm_compute; reflexivity|]. split.
  - eapply assembleRegionEntries_mirror. vm_compute; reflexivity.
  - vm_compute; reflexivity.
Defined.

Lemma assembleProvision_pools_witness :
  ∃ plan,
    assembleProvision (shareNode reservePool 3 11) = (Done plan, []) ∧
    dom (PoolEntries plan) ⊆ {[ PoolNameReserve; PoolNameShare; PoolNameReclaim ]} ∧
    PoolEntries plan !! PoolNameReserve = Some {[ FakedNumaID := 2 ]}.
Proof.
  eexists. split; [vm_compute; reflexivity|].
  edestruct (assembleProvision_pools (shareNode reservePool 3 11)) as (H1 & H2 & _).
  - vm_compute; reflexivity.
  - split; [exact H1|]. rewrite H2. vm_compute; reflexivity.
Defined.

Lemma steady_cycle_sends_plan_witness :
  ∃ entries plan,
    publishedEntries (cycleEvents oneMinute freshShareNode) = [entries] ∧
    sentPlans (cycleEvents oneMinute freshShareNode) = [plan] ∧
    headroomEpisodes (cycleEvents oneMinute freshShareNode) = ["share-0"].
Proof.
  destruct (steady_cycle_sends_plan oneMinute freshShareNode reservePool)
    as (entries & plan & pre & _ & _ & Hev & S1 & S2 & S3 & _).
  - vm_compute; reflexivity.
  - vm_compute; reflexivity.
  - vm_compute. discriminate.
  - intros k r Hk. apply isOk_true.
    refine (map_forallb (λ _ r, isOk (GetProvision r))
              (regionMap (afterProvision freshShareNode reservePool)) _ k r Hk).
    vm_compute; reflexivity.
  - intros k r Hk. unfold freshShareNode, NewCPUResourceAdvisor in Hk.
    cbn [regionMap] in Hk. by rewrite lookup_empty in Hk.
  - exists entries, plan. rewrite Hev.
    unfold publishedEntries, sentPlans, headroomEpisodes in *.
    rewrite !omap_app, S1, S2, S3.
    assert ((map_to_list (regionMap (afterProvision freshShareNode reservePool))).*1
            = ["share-0"]) as -> by (vm_compute; reflexivity).
    by repeat split.
Defined.

(** S6: once the container has left, the share region is collected and the
    headroom is 16 - 2 again. *)
Lemma update_without_containers_witness :
  regionMap (update oneMinute desertedNode) = ∅ ∧
  nonBindingNumas (update oneMinute desertedNode) = {[ 0; 1 ]} ∧
  GetHeadroom (update oneMinute desertedNode) = Ok 14.
Proof.
  destruct (update_without_containers oneMinute desertedNode reservePool)
    as (H1 & H2 & H3).
  - vm_compute; reflexivity.
  - reflexivity.
  - split; [exact H1|]. split; [exact H2|].
    assert (NumCPUs (metaServer desertedNode)
            - CountCPUAssignmentCPUs (TopologyAwareAssignments reservePool) = 14) as Heq
      by (vm_compute; reflexivity).
    rewrite <- Heq. apply H3. rewrite Heq. unfold GoInt.in_range. lia.
Defined.

Lemma assignToRegions_new_dedicated_witness :
  ∃ regions cra',
    assignToRegions mixedNode (dedicatedContainer ∅) = (regions, None, cra') ∧
    rName <$> regions = ["dedicated_numa_exclusive-0"] ∧
    uuidCount cra' = 1%nat.
Proof.
  destruct (assignToRegions_new_dedicated mixedNode (dedicatedContainer ∅))
    as (regions & cra' & Ha & Hr & _ & _ & _ & Hu & _).
  - discriminate.
  - reflexivity.
  - reflexivity.
  - exists regions, cra'. split; [exact Ha|]. split.
    + rewrite Hr. vm_compute; reflexivity.
    + rewrite Hu. vm_compute; reflexivity.
Defined.

Lemma regionEssentials_reserve_witness :
  ReservePoolSize (regionEssentials (shareNode reservePool 3 11) reservePool theShareRegion)
  = 2 ∧
  ReservePoolSize
    (regionEssentials dedicatedNode reservePool
       (dedicatedRegion "dedicated_numa_exclusive-0"
          (mkFixedPolicy (Ok (knobOf ControlKnobReclaimedCPUSupplied 0)) (Ok 0) 1 1)))
  = CountCPUAssignmentCPUs (filter (λ kv, kv.1 ∈ ({[ 0 ]} : CPUSet))
                              (TopologyAwareAssignments reservePool)).
Proof.
  split.
  - destruct (regionEssentials_reserve (shareNode reservePool 3 11) reservePool
                theShareRegion) as (_ & _ & H3).
    + vm_compute; reflexivity.
    + rewrite H3; [vm_compute; reflexivity|].
      intros n Hn. apply elem_of_dom in Hn as [cpus Hcpus].
      unfold reservePool in Hcpus. cbn [TopologyAwareAssignments] in Hcpus.
      unfold theShareRegion, shareRegion, GetBindingNumas. cbn [rBindingNumas].
      apply lookup_insert_Some in Hcpus as [[<- _]|[_ Hcpus]].
      * by apply elem_of_union_l, elem_of_singleton.
      * apply lookup_singleton_Some in Hcpus as [<- _].
        by apply elem_of_union_r, elem_of_singleton.
  - apply regionEssentials_reserve. vm_compute; reflexivity.
Defined.

Lemma regionEssentials_reserved_for_allocate_witness :
  ReservedForAllocate
    (regionEssentials (shareNode reservePool 3 11) reservePool theShareRegion) = 4 ∧
  Total (regionEssentials (shareNode reservePool 3 11) reservePool theShareRegion) = 16.
Proof.
  destruct (regionEssentials_reserved_for_allocate (shareNode reservePool 3 11)
              reservePool theShareRegion) as (H1 & _ & _ & H4).
  - vm_compute; reflexivity.
  - vm_compute. discriminate.
  - vm_compute. discriminate.
  - vm_compute; reflexivity.
  - vm_compute. split; [discriminate|reflexivity].
  - split; [apply H4; vm_compute; reflexivity|].
    rewrite H1. vm_compute; reflexivity.
Defined.

Lemma update_refreshes_essentials_witness :
  ∃ r, regionMap (update oneMinute freshShareNode) !! "share-0" = Some r ∧
       rEssentials r = regionEssentials freshShareNode reservePool r ∧
       EnableReclaim (rEssentials r) = confEnableReclaim (conf freshShareNode).
Proof.
  destruct (regionMap (update oneMinute freshShareNode) !! "share-0") as [r|] eqn:Hk;
    [|vm_compute in Hk; discriminate].
  exists r. split; [reflexivity|].
  apply (update_refreshes_essentials oneMinute freshShareNode reservePool "share-0" r).
  - vm_compute; reflexivity.
  - vm_compute; reflexivity.
  - exact Hk.
Defined.

Lemma syncContainer_missing_pool_witness :
  ∃ ci' cra',
    syncContainer sharedContainer (emptyNode, [])
    = (ci', (cra', [] ++ ["failed to find pool " +:+ PoolNameShare]), true) ∧
    ciRegionNames ci' = {[ "share-0" ]} ∧ uuidCount cra' = 1%nat.
Proof.
  destruct (syncContainer_missing_pool emptyNode sharedContainer [])
    as (ci' & cra' & Hs & Hn & _ & Hu & _).
  - reflexivity.
  - discriminate.
  - vm_compute; reflexivity.
  - exists ci', cra'. split; [exact Hs|]. split; [exact Hn|exact Hu].
Defined.

Lemma update_places_containers_witness :
  membersKnown (regionMap (update oneMinute (shareNode reservePool 3 11)))
    (containers (metaCache (update oneMinute (shareNode reservePool 3 11)))) ∧
  ∀ ci, ci ∈ containers (metaCache (update oneMinute (shareNode reservePool 3 11))) →
        assignable ci →
        placed (regionMap (update oneMinute (shareNode reservePool 3 11))) ci.
Proof.
  destruct (update_places_containers oneMinute (shareNode reservePool 3 11))
    as [H1 H2].
  - intros k r Hk. unfold shareNode in Hk. cbn [regionMap] in Hk.
    by apply lookup_singleton_Some in Hk as [<- <-].
  - intros t n Hn. unfold shareNode in *. cbn [regionMap uuidCount] in *.
    apply lookup_singleton_ne. intros Heq.
    change "share-0" with (regionNameOf QoSRegionTypeShare 0) in Heq.
    apply regionNameOf_number in Heq. lia.
  - eexists. vm_compute; reflexivity.
  - split; [exact H1|]. apply H2. vm_compute; reflexivity.
Defined.

End CoverageConcrete.
